(** * AxoPy acquisition-and-timing core: a shallow embedding

    The development follows the Python sources module by module:

    - [Timing]     : [axopy/timing.py]  ([Counter], [StepCounter]);
    - [Daq]        : [axopy/daq.py]     ([DaqStream.run], [_Sleeper]);
    - [Py], [Numpy]: Python indexing and exceptions, and the fragment of
                     numpy that [axopy/design.py] relies on;
    - [Buffered]   : [axopy/design.py]  ([BufferedArray]);
    - [Containers] : [axopy/design.py]  ([Design], [Block], [Trial]);
    - [Keyboard]   : [axopy/daq.py]     ([Keyboard]);
    - [ArrayStack] : [axopy/design.py]  ([Array]).

    The definitions come first, module by module; the properties follow.

    Python integers are unbounded and are modelled by [Z] (by [nat] where the
    source only ever holds a length or a position).  Signals of the
    messaging layer are modelled by the trace of emissions a call produces. *)

From Stdlib Require Import ZArith Lia.
From stdpp Require Import base list strings gmap.

Open Scope Z_scope.

(** ** axopy/timing.py *)

Module Timing.

(** A transmitter emission.  [Step i] is the emission of the class attribute
    [step<i>]; [Timeout] the emission of [timeout]. *)
Inductive event : Type :=
  | Timeout
  | Step (i : nat).

Record Counter : Type := mkCounter {
  count : Z;
  max_count : Z;
  reset_on_timeout : bool
}.

(** [Counter.__init__]: [None] stands for the [ValueError] that is raised
    when [max_count < 1]. *)
Definition Counter_init (max_count : Z) (reset_on_timeout : bool)
  : option Counter :=
  if max_count <? 1 then None
  else Some (mkCounter 0 max_count reset_on_timeout).

(** [Counter.reset] *)
Definition reset (self : Counter) : Counter :=
  mkCounter 0 (max_count self) (reset_on_timeout self).

(** [Counter.increment]: the new state and the emissions of the call. *)
Definition increment (self : Counter) : Counter * list event :=
  let self := mkCounter (count self + 1) (max_count self)
                        (reset_on_timeout self) in
  if count self =? max_count self then
    let self := if reset_on_timeout self then reset self else self in
    (self, [Timeout])
  else (self, []).

(** [n] successive calls of [increment]; the k-th element of the result
    (from 0) is what the (k+1)-th call emitted. *)
Fixpoint increments (n : nat) (self : Counter)
  : Counter * list (list event) :=
  match n with
  | O => (self, [])
  | S n =>
      let (self, evs) := increment self in
      let (self, rest) := increments n self in
      (self, evs :: rest)
  end.

(** How many emissions of [timeout] a run has produced. *)
Definition is_timeout (e : event) : bool :=
  match e with Timeout => true | Step _ => false end.

Definition timeouts (tr : list (list event)) : nat :=
  length (List.filter is_timeout (concat tr)).

(** A counter that resets on timeout and whose count is below
    [max_count]: the states such a counter is in between calls. *)
Definition counting (m : Z) (c : Counter) : Prop :=
  max_count c = m ∧ reset_on_timeout c = true ∧ 0 ≤ count c < m.

Section step_counter.

(** The slots (callbacks) a caller connects to the step transmitters. *)
Context {H : Type}.

Definition step_max : nat := 10.

(** [StepCounter] inherits from [Counter]: the inherited attributes are the
    [base] field.  [slots] holds, for each of the [step_max] transmitters
    [step0] ... [step9], the callbacks connected to it, in connection
    order. *)
Record StepCounter : Type := mkStepCounter {
  base : Counter;
  step_inc : nat;
  step_count : list Z;
  slots : list (list H)
}.

(** [StepCounter.__init__] *)
Definition StepCounter_init (max_count : Z) (reset_on_timeout : bool)
  : option StepCounter :=
  match Counter_init max_count reset_on_timeout with
  | None => None
  | Some c => Some (mkStepCounter c 0 [] (replicate step_max []))
  end.

(** [Transmitter.connect] on the transmitter [step<i>]. *)
Definition connect (i : nat) (ev : H) (sl : list (list H)) : list (list H) :=
  alter (λ hs, hs ++ [ev]) i sl.

(** [StepCounter.add_step] *)
Definition add_step (count : Z) (ev : H) (self : StepCounter) : StepCounter :=
  if (step_inc self <? step_max)%nat then
    mkStepCounter (base self)
                  (step_inc self + 1)%nat
                  (step_count self ++ [count])
                  (connect (step_inc self) ev (slots self))
  else self.

(** [[i for i, x in enumerate(step_count) if x == count]], with the
    enumeration starting at [i0]. *)
Fixpoint matching_from (i0 : nat) (step_count : list Z) (cnt : Z) : list nat :=
  match step_count with
  | [] => []
  | x :: rest =>
      if x =? cnt then i0 :: matching_from (S i0) rest cnt
      else matching_from (S i0) rest cnt
  end.

Definition matching (step_count : list Z) (cnt : Z) : list nat :=
  matching_from 0 step_count cnt.

(** [count in step_count] *)
Definition contains (step_count : list Z) (cnt : Z) : bool :=
  existsb (Z.eqb cnt) step_count.

(** [StepCounter.increment] *)
Definition step_increment (self : StepCounter) : StepCounter * list event :=
  let c := mkCounter (count (base self) + 1) (max_count (base self))
                     (reset_on_timeout (base self)) in
  let steps :=
    if contains (step_count self) (count c)
    then map Step (matching (step_count self) (count c))
    else [] in
  if count c =? max_count c then
    let c := if reset_on_timeout c then reset c else c in
    (mkStepCounter c (step_inc self) (step_count self) (slots self),
     steps ++ [Timeout])
  else
    (mkStepCounter c (step_inc self) (step_count self) (slots self), steps).

(** [Counter.reset], inherited. *)
Definition step_reset (self : StepCounter) : StepCounter :=
  mkStepCounter (reset (base self)) (step_inc self) (step_count self)
                (slots self).

(** The callbacks an emission runs: those connected to the transmitter. *)
Definition delivered (self : StepCounter) (e : event) : list H :=
  match e with
  | Timeout => []
  | Step i => default [] (slots self !! i)
  end.

Fixpoint step_increments (n : nat) (self : StepCounter)
  : StepCounter * list (list event) :=
  match n with
  | O => (self, [])
  | S n =>
      let (self, evs) := step_increment self in
      let (self, rest) := step_increments n self in
      (self, evs :: rest)
  end.

(** The public operations of a [StepCounter], for statements about every
    state a program can reach. *)
Inductive op : Type :=
  | OpAddStep (count : Z) (ev : H)
  | OpIncrement
  | OpReset.

Definition run_op (o : op) (self : StepCounter) : StepCounter :=
  match o with
  | OpAddStep c ev => add_step c ev self
  | OpIncrement => fst (step_increment self)
  | OpReset => step_reset self
  end.

Definition run_ops (os : list op) (self : StepCounter) : StepCounter :=
  fold_left (λ s o, run_op o s) os self.

(** What a program can do to a [StepCounter] keeps [step_inc] equal to the
    number of registered checkpoints, and at most [step_max]. *)
Definition registered_ok (sc : StepCounter) : Prop :=
  step_inc sc = length (step_count sc) ∧ (step_inc sc ≤ step_max)%nat.

End step_counter.

Arguments StepCounter : clear implicits.
Arguments op : clear implicits.

End Timing.

(** ** axopy/daq.py *)

Module Daq.

Section stream.

(** The data one [read()] returns; the stream never looks into it. *)
Context {chunk : Type}.

(** What a call of the device's [read()] does: it returns a chunk, raises
    [IOError] (the device has gone), or raises something else. *)
Inductive read_outcome : Type :=
  | Data (d : chunk)
  | RaiseIOError
  | RaiseOther.

(** What the worker does that the outside can see: calls of the device's
    [start]/[stop] and the three signals. *)
Inductive event : Type :=
  | DeviceStart
  | Updated (d : chunk)
  | Disconnected
  | DeviceStop
  | Finished.

(** A device is given by what its successive reads do ([reads k] is the
    (k+1)-th call). *)
Record Device : Type := mkDevice {
  reads : nat → read_outcome
}.

(** The controlling thread may call [DaqStream.stop] at any moment; the
    worker only notices at its two tests of [_running].  [stop_at_head k]
    says that [stop()] has been called by the time the loop head is tested
    for the (k+1)-th time, [stop_in_read k] that it is called while the
    (k+1)-th read is in progress. *)
Record Controller : Type := mkController {
  stop_at_head : nat → bool;
  stop_in_read : nat → bool
}.

(** How [run] ends, with the trace it has produced and the final value of
    [_running]: [stop()] clears it also while a read is in progress that
    ends by raising. *)
Inductive outcome : Type :=
  | Returned (running : bool) (tr : list event)
  | Raised (running : bool) (tr : list event).

(** The [while True] loop of [DaqStream.run], entered for the (k+1)-th
    time.  [None]: the fuel did not suffice. *)
Fixpoint run_loop (fuel : nat) (dev : Device) (ctl : Controller)
    (k : nat) (running : bool) (tr : list event) : option outcome :=
  match fuel with
  | O => None
  | S fuel =>
      let running := running && negb (stop_at_head ctl k) in
      if negb running then
        (* break; self.device.stop(); self.finished.emit() *)
        Some (Returned running (tr ++ [DeviceStop; Finished]))
      else
        match reads dev k with
        | RaiseIOError =>
            (* except IOError: self.disconnected.emit(); return *)
            let running := running && negb (stop_in_read ctl k) in
            Some (Returned running (tr ++ [Disconnected]))
        | RaiseOther =>
            let running := running && negb (stop_in_read ctl k) in
            Some (Raised running tr)
        | Data d =>
            let running := running && negb (stop_in_read ctl k) in
            run_loop fuel dev ctl (S k) running
                     (if running then tr ++ [Updated d] else tr)
        end
  end.

(** [DaqStream.run] *)
Definition run (fuel : nat) (dev : Device) (ctl : Controller)
  : option outcome :=
  run_loop fuel dev ctl 0 true [DeviceStart].

Definition is_updated (e : event) : bool :=
  match e with Updated _ => true | _ => false end.

Definition is_disconnected (e : event) : bool :=
  match e with Disconnected => true | _ => false end.

Definition is_device_stop (e : event) : bool :=
  match e with DeviceStop => true | _ => false end.

Definition is_finished (e : event) : bool :=
  match e with Finished => true | _ => false end.

End stream.

Arguments read_outcome : clear implicits.
Arguments event : clear implicits.
Arguments Device : clear implicits.
Arguments outcome : clear implicits.

(** *** [_Sleeper]

    Time is counted in ticks of the clock, as an integer; a tick is a
    nanosecond.  [time.time()] reads the clock.  [time.sleep(d)] keeps the
    duration as a count of nanoseconds in 64 bits: it raises
    [OverflowError] for a [d] that does not fit, [ValueError] for another
    negative [d], and otherwise blocks for [d] ticks or longer.  Executing
    the other statements takes some time too.  How much longer a call
    blocks and how long the rest takes is not up to the program: it is the
    [lateness] the call is run with. *)

Record Sleeper : Type := mkSleeper {
  read_time : Z;
  last_read_time : option Z
}.

Record lateness : Type := mkLateness {
  oversleep : N;  (* how much longer [time.sleep] blocks than asked *)
  overhead : N    (* the time the other statements of [sleep] take *)
}.

(** The clock, and the durations of the calls of [time.sleep] that blocked,
    latest first. *)
Record World : Type := mkWorld {
  clock : Z;
  blocked : list Z
}.

(** [_Sleeper.__init__] *)
Definition Sleeper_init (read_time : Z) : Sleeper :=
  mkSleeper read_time None.

(** The durations [time.sleep] can count. *)
Definition sleep_min : Z := - 2 ^ 63.
Definition sleep_max : Z := 2 ^ 63 - 1.

Inductive sleep_result : Type :=
  | Slept (w : World)
  | RaiseValueError
  | RaiseOverflowError.

(** [time.sleep(secs)] *)
Definition time_sleep (secs : Z) (late : lateness) (w : World)
  : sleep_result :=
  if (secs <? sleep_min) || (sleep_max <? secs) then RaiseOverflowError
  else if secs <? 0 then RaiseValueError
  else Slept (mkWorld (clock w + secs + Z.of_N (oversleep late))
                      (secs :: blocked w)).

(** [_Sleeper.sleep]; [None]: the call raises.  The first branch has no
    handler; the second handles [ValueError] only. *)
Definition sleep (self : Sleeper) (late : lateness) (w : World)
  : option (Sleeper * World) :=
  let t := clock w in
  let slept :=
    match last_read_time self with
    | None =>
        match time_sleep (read_time self) late w with
        | Slept w' => Some w'
        | RaiseValueError | RaiseOverflowError => None
        end
    | Some last =>
        match time_sleep (read_time self - (t - last)) late w with
        | Slept w' => Some w'
        | RaiseValueError => Some w     (* except ValueError: pass *)
        | RaiseOverflowError => None
        end
    end in
  match slept with
  | None => None
  | Some w' =>
      let w' := mkWorld (clock w' + Z.of_N (overhead late)) (blocked w') in
      Some (mkSleeper (read_time self) (Some (clock w')), w')
  end.

(** [_Sleeper.reset] *)
Definition sleeper_reset (self : Sleeper) : Sleeper :=
  mkSleeper (read_time self) None.

(** One call of [sleep] as its caller sees it: when it was made, when it
    returned, and for how long it blocked in [time.sleep] (if it did). *)
Record call : Type := mkCall {
  started : Z;
  returned : Z;
  blocked_for : option Z
}.

(** A caller that calls [sleep] again and again; before each call it
    works for some time ([fst] of the pair).  The calls are logged in
    order.  [None]: a call raised. *)
Fixpoint sleep_loop (self : Sleeper) (w : World)
    (env : list (N * lateness)) : option (Sleeper * World * list call) :=
  match env with
  | [] => Some (self, w, [])
  | (work, late) :: env =>
      let w0 := mkWorld (clock w + Z.of_N work) [] in
      match sleep self late w0 with
      | None => None
      | Some (self', w') =>
          match sleep_loop self' w' env with
          | None => None
          | Some (self'', w'', log) =>
              Some (self'', w'',
                    mkCall (clock w0) (clock w') (head (blocked w')) :: log)
          end
      end
  end.

(** What a call of [sleep] owes to the return of the call before it, [prev]
    ticks on the clock: it returns no sooner than [rt] later; when it is
    made more than [rt] later it does not block and returns after the
    time its own statements take; otherwise it blocks for what is left of
    [rt]. *)
Definition paced (rt prev : Z) (late : lateness) (c : call) : Prop :=
  prev + rt ≤ returned c
  ∧ (rt < started c - prev →
       blocked_for c = None
       ∧ returned c = started c + Z.of_N (overhead late))
  ∧ (started c - prev ≤ rt →
       blocked_for c = Some (rt - (started c - prev))).

(** A run of calls in which each call is paced after the one before. *)
Fixpoint all_paced (rt prev : Z) (env : list (N * lateness))
    (log : list call) : Prop :=
  match env, log with
  | [], [] => True
  | (_, late) :: env, c :: log =>
      paced rt prev late c ∧ started c ≤ returned c
      ∧ all_paced rt (returned c) env log
  | _, _ => False
  end.

End Daq.

(** ** Python exceptions and sequence indexing *)

Module Py.

Inductive exn : Type :=
  | IndexError
  | ValueError.

(** The result of a call that may raise. *)
Inductive result (X : Type) : Type :=
  | Ok (x : X)
  | Raise (e : exn).

Arguments Ok {X} x.
Arguments Raise {X} e.

#[export] Instance result_ret : MRet result := λ X x, Ok x.

#[export] Instance result_bind : MBind result := λ X Y f m,
  match m with
  | Ok x => f x
  | Raise e => Raise e
  end.

(** [seq[i]] for a tuple or list and an integer [i]: a negative [i] counts
    from the end, and anything out of range raises [IndexError]. *)
Definition index {X : Type} (l : list X) (i : Z) : result X :=
  let n := Z.of_nat (length l) in
  let j := if i <? 0 then i + n else i in
  if (0 <=? j) && (j <? n) then
    match l !! Z.to_nat j with
    | Some x => Ok x
    | None => Raise IndexError
    end
  else Raise IndexError.

End Py.

(** ** The fragment of numpy used by [axopy/design.py]

    An array is its shape and its elements, addressed by multi-index.  The
    elements are taken at the dtype of the buffer they are stored in;
    conversions between dtypes are not modelled. *)

Module Numpy.

Import Py.

Class Zero (A : Type) : Type := zero : A.

(** The zero of the dtypes whose elements are carried by [Z]: the integer
    dtypes, and float32 on the integers it holds. *)
#[global] Instance Z_zero : Zero Z := 0.

Section ndarray.

Context {A : Type} `{Zero A}.

Record ndarray : Type := mkArray {
  shape : list nat;
  item : list nat → A
}.

Definition ndim (a : ndarray) : nat := length (shape a).

Definition size (a : ndarray) : nat := foldr Nat.mul 1%nat (shape a).

(** [numpy.zeros(shape)] *)
Definition zeros (sh : list nat) : ndarray := mkArray sh (λ _, zero).

(** [numpy.empty(shape)].  The elements are whatever the memory holds; the
    source only asks for the shape [(0, 0)], which has none. *)
Definition empty (sh : list nat) : ndarray := mkArray sh (λ _, zero).

(** [numpy.full(shape, x)] *)
Definition full (sh : list nat) (x : A) : ndarray := mkArray sh (λ _, x).

(** [a.fill(x)] *)
Definition fill (a : ndarray) (x : A) : ndarray := mkArray (shape a) (λ _, x).

(** A multi-index addresses an element of an array of shape [sh]. *)
Definition in_bounds (sh idx : list nat) : Prop := Forall2 lt idx sh.

(** [numpy.array_equal]: same shape, same elements. *)
Definition array_equal (a b : ndarray) : Prop :=
  shape a = shape b ∧ ∀ idx, in_bounds (shape a) idx → item a idx = item b idx.

(** Broadcasting a value of shape [src] to the shape [tgt] of the place it
    is assigned to.  Both shapes are given last axis first.  An axis of the
    value has the extent of the target or extent 1; axes the value has in
    excess of the target, on the left, have extent 1. *)
Fixpoint broadcastable_rev (src tgt : list nat) : bool :=
  match src with
  | [] => true
  | s :: src' =>
      match tgt with
      | [] => (s =? 1)%nat && broadcastable_rev src' []
      | t :: tgt' =>
          ((s =? 1)%nat || (s =? t)%nat) && broadcastable_rev src' tgt'
      end
  end.

Definition broadcastable (src tgt : list nat) : bool :=
  broadcastable_rev (reverse src) (reverse tgt).

(** The element of the value that lands at index [idx] of the target (last
    axis first again): along an axis of extent 1 it is element 0. *)
Fixpoint broadcast_index_rev (src idx : list nat) : list nat :=
  match src with
  | [] => []
  | s :: src' =>
      match idx with
      | [] => 0%nat :: broadcast_index_rev src' []
      | i :: idx' =>
          (if (s =? 1)%nat then 0%nat else i) :: broadcast_index_rev src' idx'
      end
  end.

Definition broadcast_index (src idx : list nat) : list nat :=
  reverse (broadcast_index_rev (reverse src) (reverse idx)).

(** The value as it is stored in a place of shape [tgt]. *)
Definition broadcast (tgt : list nat) (v : ndarray) : ndarray :=
  mkArray tgt (λ idx, item v (broadcast_index (shape v) idx)).

Definition broadcast_to (tgt : list nat) (v : ndarray) : result ndarray :=
  if broadcastable (shape v) tgt then Ok (broadcast tgt v)
  else Raise ValueError.

(** The bounds of [slice(lo, hi)] on an axis of extent [n]. *)
Definition slice_lo (lo n : nat) : nat := Nat.min lo n.
Definition slice_len (lo hi n : nat) : nat := (Nat.min hi n - Nat.min lo n)%nat.

(** [a[:, ..., lo:hi, ..., :]]: an index expression of [nidx] entries, all
    of them [:] but the one at position [ax], which is [slice(lo, hi)].
    More entries than the array has axes raise [IndexError]. *)
Definition getitem_slice (nidx ax lo hi : nat) (a : ndarray)
  : result ndarray :=
  if (ndim a <? nidx)%nat then Raise IndexError
  else
    match shape a !! ax with
    | None => Raise IndexError
    | Some n =>
        Ok (mkArray (<[ax := slice_len lo hi n]> (shape a))
                    (λ idx, item a (alter (Nat.add (slice_lo lo n)) ax idx)))
    end.

(** The concatenation of arrays along an axis, as the specification
    speaks of it ([numpy.concatenate]); the source has no call of it.  The
    arrays share the shape [dims] but for their extents along [ax]; the
    element at [idx] is found in the array that covers [idx !! ax]. *)
Fixpoint concat_item (ax : nat) (arrs : list ndarray) (idx : list nat) : A :=
  match arrs with
  | [] => zero
  | a :: rest =>
      match shape a !! ax, idx !! ax with
      | Some e, Some i =>
          if (i <? e)%nat then item a idx
          else concat_item ax rest (alter (λ i, i - e)%nat ax idx)
      | _, _ => zero
      end
  end.

Definition extent (ax : nat) (a : ndarray) : nat :=
  default 0%nat (shape a !! ax).

Definition concatenate (dims : list nat) (ax : nat) (arrs : list ndarray)
  : ndarray :=
  mkArray (<[ax := sum_list_with (extent ax) arrs]> dims)
          (concat_item ax arrs).

End ndarray.

Arguments ndarray : clear implicits.

(** The conversion of an element of one dtype to another dtype, as numpy
    does it when it assigns or on [astype]; between numeric dtypes it
    always gives a value. *)
Class Cast (A B : Type) : Type := cast : A → B.

(** Integers (int64) to float32, the dtype ['f'] that is [BufferedArray]'s
    default: the nearest number with 24 significant bits, a tie going to
    the even one.  The result is an integer again. *)
Definition round_float32 (x : Z) : Z :=
  let a := Z.abs x in
  if a <? 2 ^ 24 then x
  else
    let ulp := 2 ^ (Z.log2 a - 23) in
    let q := a / ulp in
    let r := a `mod` ulp in
    let q := if 2 * r <? ulp then q
             else if ulp <? 2 * r then q + 1
             else if Z.even q then q else q + 1 in
    Z.sgn x * (q * ulp).

#[global] Instance int_to_float32 : Cast Z Z := round_float32.

Section assignment.

Context {A B : Type} `{Cast A B}.

(** [v.astype(dtype)] *)
Definition astype (v : ndarray A) : ndarray B :=
  mkArray (shape v) (λ idx, cast (item v idx)).

(** [a[:, ..., lo:hi, ..., :] = v]: the value is converted to the dtype of
    [a], broadcast to the shape of the place ([ValueError] when it cannot
    be) and copied there. *)
Definition setitem_slice (nidx ax lo hi : nat) (a : ndarray B)
    (v : ndarray A) : result (ndarray B) :=
  if (ndim a <? nidx)%nat then Raise IndexError
  else
    match shape a !! ax with
    | None => Raise IndexError
    | Some n =>
        w ← broadcast_to (<[ax := slice_len lo hi n]> (shape a)) (astype v);
        Ok (mkArray (shape a)
              (λ idx,
                 match idx !! ax with
                 | Some i =>
                     if (slice_lo lo n <=? i)%nat
                        && (i <? slice_lo lo n + slice_len lo hi n)%nat
                     then item w (alter (λ i, i - slice_lo lo n)%nat ax idx)
                     else item a idx
                 | None => item a idx
                 end))
    end.

End assignment.

End Numpy.

(** ** axopy/design.py: [BufferedArray] *)

Module Buffered.

Import Py Numpy.

Section buffered_array.

(** [B] is the array's [dtype], ['f'] by default; [A] is the dtype of the
    chunks it is given. *)
Context {A B : Type} `{Zero B} `{Cast A B}.

Record BufferedArray : Type := mkBufferedArray {
  insert_axis : Z;
  buffer_dims : list nat;
  buffer : ndarray B;
  pos : nat;
  overflow : bool;
  data : ndarray B
}.

(** [BufferedArray.__init__]: the buffer is [numpy.zeros(buffer_dims,
    self.dtype)]. *)
Definition BufferedArray_init (buffer_dims : list nat) (insert_axis : Z)
  : BufferedArray :=
  mkBufferedArray insert_axis buffer_dims (zeros buffer_dims) 0 false
                  (empty [0; 0]%nat).

(** The extent of the new data along the insert axis:
    [data.shape[self.insert_axis]] if [data.ndim > 1], else 1.  (The
    argument [data] of the source is called [chunk] here, as [data] is
    the attribute.) *)
Definition new_sample (self : BufferedArray) (chunk : ndarray A)
  : result nat :=
  if (1 <? ndim chunk)%nat then index (shape chunk) (insert_axis self)
  else Ok 1%nat.

(** [self.buffer_dims[self.insert_axis]] *)
Definition capacity (self : BufferedArray) : result nat :=
  index (buffer_dims self) (insert_axis self).

(** The three assignments [self.buffer[idx, :] = data],
    [self.buffer[:, idx] = data], [self.buffer[:, :, idx] = data] with
    [idx = slice(lo, hi)]; no other axis has a branch. *)
Definition write_slice (axis : Z) (lo hi : nat) (buf : ndarray B)
    (chunk : ndarray A) : result (ndarray B) :=
  if axis =? 0 then setitem_slice 2 0 lo hi buf chunk
  else if axis =? 1 then setitem_slice 2 1 lo hi buf chunk
  else if axis =? 2 then setitem_slice 3 2 lo hi buf chunk
  else Ok buf.

(** [BufferedArray.insert].  Whenever the call raises, it does so before
    it has assigned to any attribute: the object is as it was. *)
Definition insert (self : BufferedArray) (chunk : ndarray A)
  : result BufferedArray :=
  if overflow self then Ok self
  else
    new_sample ← new_sample self chunk;
    let new_pos := (pos self + new_sample)%nat in
    cap ← capacity self;
    if (cap <? new_pos)%nat then
      Ok (mkBufferedArray (insert_axis self) (buffer_dims self)
                          (buffer self) (pos self) true (data self))
    else
      buf ← write_slice (insert_axis self) (pos self) new_pos
                        (buffer self) chunk;
      Ok (mkBufferedArray (insert_axis self) (buffer_dims self)
                          buf (pos self + new_sample)%nat (overflow self)
                          (data self)).

(** [BufferedArray.clear] *)
Definition clear (self : BufferedArray) : BufferedArray :=
  mkBufferedArray (insert_axis self) (buffer_dims self)
                  (fill (buffer self) zero) 0 false (empty [0; 0]%nat).

(** The assignment [self.data = d]. *)
Definition with_data (self : BufferedArray) (d : ndarray B) : BufferedArray :=
  mkBufferedArray (insert_axis self) (buffer_dims self) (buffer self)
                  (pos self) (overflow self) d.

(** [BufferedArray.set_data].  The slice numpy hands out is a view of the
    buffer; as [insert] only writes at and after [pos] and [clear] replaces
    [data], what is read through [self.data] is the value taken here. *)
Definition set_data (self : BufferedArray) : result BufferedArray :=
  if overflow self then Ok self
  else if insert_axis self =? 0 then
    d ← getitem_slice 2 0 0 (pos self) (buffer self); Ok (with_data self d)
  else if insert_axis self =? 1 then
    d ← getitem_slice 2 1 0 (pos self) (buffer self); Ok (with_data self d)
  else if insert_axis self =? 2 then
    d ← getitem_slice 3 2 0 (pos self) (buffer self); Ok (with_data self d)
  else Ok self.

(** Inserting chunks one after the other; a call that raises ends the
    run. *)
Fixpoint insert_all (self : BufferedArray) (chunks : list (ndarray A))
  : result BufferedArray :=
  match chunks with
  | [] => Ok self
  | c :: chunks => self ← insert self c; insert_all self chunks
  end.

(** The three methods, for statements about every sequence of calls. *)
Inductive op : Type :=
  | Insert (chunk : ndarray A)
  | SetData
  | Clear.

Definition run_op (o : op) (self : BufferedArray) : result BufferedArray :=
  match o with
  | Insert c => insert self c
  | SetData => set_data self
  | Clear => Ok (clear self)
  end.

Fixpoint run_ops (os : list op) (self : BufferedArray)
  : result BufferedArray :=
  match os with
  | [] => Ok self
  | o :: os => self ← run_op o self; run_ops os self
  end.

(** The number of entries of the index expression the branch for an axis
    uses: 2 for [[idx, :]] and [[:, idx]], 3 for [[:, :, idx]]. *)
Definition index_entries (ax : nat) : nat :=
  match ax with
  | 2%nat => 3%nat
  | _ => 2%nat
  end.

(** The shape of the place a chunk of extent [e] is written to. *)
Definition place (self : BufferedArray) (ax e : nat) : list nat :=
  <[ax := e]> (buffer_dims self).

(** The buffer after a chunk of extent [e] has been written at [p]: the
    chunk, as converted to the dtype and broadcast to its place, on
    [[p, p + e)], the old contents elsewhere. *)
Definition written_at (ax p e : nat) (tgt : list nat) (chunk : ndarray A)
    (buf : ndarray B) (idx : list nat) : B :=
  match idx !! ax with
  | Some i =>
      if (p <=? i)%nat && (i <? p + e)%nat
      then item (broadcast tgt (astype chunk)) (alter (λ i, i - p)%nat ax idx)
      else item buf idx
  | None => item buf idx
  end.

(** A chunk that [insert] accepts for a buffer of shape [dims] filled along
    [axis]: its extent is [e] and numpy can broadcast it to a place of that
    extent. *)
Definition fits (dims : list nat) (axis : Z) (ax : nat)
    (chunk : ndarray A) (e : nat) : Prop :=
  new_sample (BufferedArray_init dims axis) chunk = Ok e
  ∧ broadcastable (shape chunk) (<[ax := e]> dims) = true.

(** The chunks as they are stored: converted to the dtype and broadcast
    to their places. *)
Definition stored (dims : list nat) (ax : nat)
    (chunks : list (ndarray A)) (es : list nat) : list (ndarray B) :=
  zip_with (λ c e, broadcast (<[ax := e]> dims) (astype c)) chunks es.

End buffered_array.

Arguments BufferedArray : clear implicits.
Arguments op : clear implicits.

End Buffered.

(** ** axopy/design.py: [Design], [Block], [Trial]

    Dictionaries and blocks are Python objects: they live in a store and
    are held by reference, so that a dictionary handed to [add_trial] is
    the one the trial keeps, and a block returned by [add_block] is the one
    the design holds. *)

Module Containers.

(** The attribute values the claims speak of. *)
Inductive value : Type :=
  | VInt (n : Z)
  | VStr (s : string)
  | VBool (b : bool)
  | VNone.

Definition ref : Type := nat.

(** [Trial]: [attrs] is a reference to a dictionary, [arrays] maps names to
    array objects. *)
Record Trial : Type := mkTrial {
  attrs : ref;
  arrays : gmap string ref
}.

(** [Block], a list of trials with an [index]. *)
Record Block : Type := mkBlock {
  index : Z;
  trials : list Trial
}.

(** [Design], a list of blocks. *)
Definition Design : Type := list ref.

(** [x[i], x[j] = x[j], x[i]].  Out of range Python raises [IndexError];
    [random.shuffle] never gets there. *)
Definition swap {T : Type} (x : list T) (i j : nat) : list T :=
  match x !! i, x !! j with
  | Some a, Some b => <[j := a]> (<[i := b]> x)
  | _, _ => x
  end.

Section random.

(** The generator behind the module [random]: its state, what
    [random.seed(s)] sets the state to, and [_randbelow(n)], which draws a
    number below [n] and moves the state on. *)
Context {G : Type}.
Variable seed_rng : Z → G.
Variable randbelow : G → nat → nat * G.

(** The store. *)
Record World : Type := mkWorld {
  dicts : gmap ref (gmap string value);
  blocks : gmap ref Block;
  rng : G
}.

(** The loop of [random.shuffle]:
    [for i in reversed(range(1, len(x))): j = randbelow(i + 1); swap]. *)
Fixpoint shuffle_loop {T : Type} (i : nat) (g : G) (x : list T)
  : list T * G :=
  match i with
  | O => (x, g)
  | S i' =>
      let (j, g) := randbelow g (i + 1) in
      shuffle_loop i' g (swap x i j)
  end.

(** [random.shuffle(x)] *)
Definition random_shuffle {T : Type} (g : G) (x : list T) : list T * G :=
  shuffle_loop (length x - 1) g x.

(** [Design.add_block]: the design, the new block, the store. *)
Definition add_block (self : Design) (w : World) : Design * ref * World :=
  let block := fresh (dom (blocks w)) in
  let w := mkWorld (dicts w)
                   (<[block := mkBlock (Z.of_nat (length self)) []]> (blocks w))
                   (rng w) in
  (self ++ [block], block, w).

(** [attrs.update({'block': b, 'trial': t})] *)
Definition update_index (b t : Z) (d : gmap string value)
  : gmap string value :=
  <["trial" := VInt t]> (<["block" := VInt b]> d).

(** [Block.add_trial].  [attrs] is the caller's dictionary, or [None].
    The result is [None] only for a reference to no block. *)
Definition add_trial (self : ref) (attrs : option ref) (w : World)
  : option (Trial * World) :=
  match blocks w !! self with
  | None => None
  | Some b =>
      let (attrs, ds) :=
        match attrs with
        | None =>
            let r := fresh (dom (dicts w)) in (r, <[r := ∅]> (dicts w))
        | Some r => (r, dicts w)
        end in
      let ds :=
        alter (update_index (index b) (Z.of_nat (length (trials b))))
              attrs ds in
      let trial := mkTrial attrs ∅ in
      Some (trial,
            mkWorld ds
                    (<[self := mkBlock (index b) (trials b ++ [trial])]>
                       (blocks w))
                    (rng w))
  end.

(** [for i, trial in enumerate(self): trial.attrs['trial'] = i], with the
    enumeration starting at [i]. *)
Fixpoint reset_indices (i : nat) (ts : list Trial)
    (ds : gmap ref (gmap string value)) : gmap ref (gmap string value) :=
  match ts with
  | [] => ds
  | t :: ts =>
      reset_indices (S i) ts
        (alter (insert "trial" (VInt (Z.of_nat i))) (attrs t) ds)
  end.

(** [Block.shuffle] *)
Definition shuffle (self : ref) (reset_index : bool) (seed : option Z)
    (w : World) : option World :=
  match blocks w !! self with
  | None => None
  | Some b =>
      let g := match seed with Some s => seed_rng s | None => rng w end in
      let (ts, g) := random_shuffle g (trials b) in
      let ds := if reset_index then reset_indices 0 ts (dicts w)
                else dicts w in
      Some (mkWorld ds (<[self := mkBlock (index b) ts]> (blocks w)) g)
  end.

(** The order [random.shuffle] puts [n] items in after [random.seed(s)]:
    position [k] of the result holds the item that was at position
    [shuffle_order s n !! k]. *)
Definition shuffle_order (s : Z) (n : nat) : list nat :=
  fst (random_shuffle (seed_rng s) (seq 0 n)).

End random.

Arguments World : clear implicits.

(** A small generator to run the definitions with. *)
Definition counting_seed (s : Z) : nat := Z.to_nat s.
Definition counting_randbelow (g n : nat) : nat * nat :=
  ((g `mod` n)%nat, S g).

End Containers.

(** ** Notions used by the further properties *)

Module TimingAux.

Import Timing.

Section registration.

Context {H : Type}.

(** A [StepCounter] that holds [k] registered steps, with the transmitters
    from [step<k>] on still unconnected. *)
Definition registers (k : nat) (sc : StepCounter H) : Prop :=
  step_inc sc = k ∧ length (step_count sc) = k ∧ (k ≤ step_max)%nat
  ∧ length (slots sc) = step_max
  ∧ ∀ i, (k ≤ i)%nat → (i < step_max)%nat → slots sc !! i = Some [].

End registration.

End TimingAux.

Module DaqAux.

Import Daq.

(** When a call of [sleep] is made and when it returns, given when the
    call before it returned ([prev]) and how long the caller worked in
    between. *)
Definition timed (rt prev : Z) (work : N) (late : lateness) (c : call)
  : Prop :=
  started c = prev + Z.of_N work
  ∧ returned c
    = if Z.of_N work <=? rt
      then prev + rt + Z.of_N (oversleep late) + Z.of_N (overhead late)
      else started c + Z.of_N (overhead late).

Fixpoint all_timed (rt prev : Z) (env : list (N * lateness))
    (log : list call) : Prop :=
  match env, log with
  | [], [] => True
  | (work, late) :: env, c :: log =>
      timed rt prev work late c ∧ all_timed rt (returned c) env log
  | _, _ => False
  end.

End DaqAux.

Module ContainersAux.

Import Containers.

Section loops.

Context {G : Type}.

(** [for i in range(n): block.add_trial()], the loop of
    [TimingTask.prepare_design]. *)
Fixpoint add_trials (n : nat) (block : ref) (w : World G)
  : option (World G) :=
  match n with
  | O => Some w
  | S n =>
      match add_trial block None w with
      | None => None
      | Some (_, w) => add_trials n block w
      end
  end.

(** [TimingTask.prepare_design] of [examples/multistep_timing.py]:
    [block = design.add_block()], then ten times [block.add_trial()]. *)
Definition prepare_design (design : Design) (w : World G)
  : option (Design * World G) :=
  let '(design, block, w) := add_block design w in
  match add_trials 10 block w with
  | None => None
  | Some w => Some (design, w)
  end.

(** A design whose blocks are distinct objects, each with its position as
    [index]. *)
Definition well_indexed (design : Design) (w : World G) : Prop :=
  NoDup design
  ∧ ∀ i blk, design !! i = Some blk →
             ∃ b, blocks w !! blk = Some b ∧ index b = Z.of_nat i.

End loops.

End ContainersAux.

(** ** [daq.Keyboard] *)

Module Keyboard.

Import Py Daq.

(** The events the application hands to an installed filter: a key press,
    with [event.key()], or an event of another type. *)
Inductive QEvent : Type :=
  | KeyPress (key : Z)
  | OtherEvent.

(** [_qkeys] are the codes of the watched keys, in the order of [keys];
    [_data] has one row per key, of one element. *)
Record Keyboard : Type := mkKeyboard {
  _qkeys : list Z;
  _sleeper : Sleeper;
  _data : list Z
}.

(** [Keyboard.__init__], from the codes of the keys and the time between
    two reads, [1.0/rate], in ticks of the clock. *)
Definition Keyboard_init (period : Z) (qkeys : list Z) : Keyboard :=
  mkKeyboard qkeys (Sleeper_init period) (replicate (length qkeys) 0).

(** [l.index(x)]: the first position of [x]; [ValueError] without one. *)
Definition list_index (x : Z) (l : list Z) : result nat :=
  match list_find (λ y, y = x) l with
  | Some (i, _) => Ok i
  | None => Raise ValueError
  end.

(** [Keyboard.eventFilter]: the device, and whether the event is consumed. *)
Definition eventFilter (self : Keyboard) (event : QEvent)
  : result (Keyboard * bool) :=
  match event with
  | KeyPress key =>
      if bool_decide (key ∈ _qkeys self) then
        i ← list_index key (_qkeys self);
        if (i <? length (_data self))%nat then
          Ok (mkKeyboard (_qkeys self) (_sleeper self)
                         (<[i := 1]> (_data self)), true)
        else Raise IndexError
      else Ok (self, false)
  | OtherEvent => Ok (self, false)
  end.

(** The application delivers events to the filter one after the other;
    the answers of the filter are collected. *)
Fixpoint deliver (self : Keyboard) (events : list QEvent)
  : result (Keyboard * list bool) :=
  match events with
  | [] => Ok (self, [])
  | e :: events =>
      '(self, b) ← eventFilter self e;
      '(self, bs) ← deliver self events;
      Ok (self, b :: bs)
  end.

(** [Keyboard.read]: the device, [out] and the clock; [None]: [sleep]
    raised. *)
Definition read (self : Keyboard) (late : lateness) (w : World)
  : option (Keyboard * list Z * World) :=
  match sleep (_sleeper self) late w with
  | None => None
  | Some (s, w) =>
      let out := _data self in
      Some (mkKeyboard (_qkeys self) s ((λ x, x * 0) <$> _data self), out, w)
  end.

(** [Keyboard.reset] *)
Definition reset (self : Keyboard) : Keyboard :=
  mkKeyboard (_qkeys self) (sleeper_reset (_sleeper self)) (_data self).

(** A press of the key whose first position among [qkeys] is [i]. *)
Definition presses (qkeys : list Z) (i : nat) (e : QEvent) : bool :=
  match e with
  | KeyPress key =>
      match list_index key qkeys with
      | Ok j => bool_decide (j = i)
      | Raise _ => false
      end
  | OtherEvent => false
  end.

(** A press of a watched key. *)
Definition watched (qkeys : list Z) (e : QEvent) : bool :=
  match e with
  | KeyPress key => bool_decide (key ∈ qkeys)
  | OtherEvent => false
  end.

End Keyboard.

(** ** [design.Array] *)

Module ArrayStack.

Import Py Numpy.

Section array.

Context {A : Type} `{Zero A}.

(** [numpy.atleast_1d], [numpy.atleast_2d], [numpy.atleast_3d]: an array
    of fewer axes is viewed with axes of extent 1 added. *)
Definition atleast_1d (a : ndarray A) : ndarray A :=
  match shape a with
  | [] => mkArray [1%nat] (λ _, item a [])
  | _ => a
  end.

Definition atleast_2d (a : ndarray A) : ndarray A :=
  match shape a with
  | [] => mkArray [1%nat; 1%nat] (λ _, item a [])
  | [n] => mkArray [1%nat; n] (λ idx, item a (drop 1 idx))
  | _ => a
  end.

Definition atleast_3d (a : ndarray A) : ndarray A :=
  match shape a with
  | [] => mkArray [1%nat; 1%nat; 1%nat] (λ _, item a [])
  | [n] => mkArray [1%nat; n; 1%nat] (λ idx, item a (take 1 (drop 1 idx)))
  | [m; n] => mkArray [m; n; 1%nat] (λ idx, item a (take 2 idx))
  | _ => a
  end.

(** [numpy.concatenate(arrs, axis)]: [ValueError] for no array, for an
    axis the arrays do not have, and for arrays that differ in the number
    of axes or in an extent off the axis. *)
Definition np_concatenate (arrs : list (ndarray A)) (ax : nat)
  : result (ndarray A) :=
  match arrs with
  | [] => Raise ValueError
  | a :: _ =>
      if (ax <? ndim a)%nat
         && forallb (λ b, bool_decide (<[ax := 0%nat]> (shape b)
                                       = <[ax := 0%nat]> (shape a))) arrs
      then Ok (concatenate (shape a) ax arrs)
      else Raise ValueError
  end.

(** [numpy.vstack], [numpy.hstack], [numpy.dstack] *)
Definition vstack (tup : list (ndarray A)) : result (ndarray A) :=
  np_concatenate (atleast_2d <$> tup) 0.

Definition hstack (tup : list (ndarray A)) : result (ndarray A) :=
  let arrs := atleast_1d <$> tup in
  match arrs with
  | a :: _ =>
      if (ndim a =? 1)%nat then np_concatenate arrs 0
      else np_concatenate arrs 1
  | [] => np_concatenate arrs 1
  end.

Definition dstack (tup : list (ndarray A)) : result (ndarray A) :=
  np_concatenate (atleast_3d <$> tup) 2.

(** [data] is [None] until the first [stack]. *)
Record Array : Type := mkArrayObject {
  data : option (ndarray A);
  stack_axis : Z
}.

(** [Array.__init__] *)
Definition Array_init (data : option (ndarray A)) (stack_axis : Z) : Array :=
  mkArrayObject data stack_axis.

(** [Array._stack_funcs]; [None]: the dictionary has no such key. *)
Definition _stack_funcs (k : Z)
  : option (list (ndarray A) → result (ndarray A)) :=
  if k =? 0 then Some vstack
  else if k =? 1 then Some hstack
  else if k =? 2 then Some dstack
  else None.

Inductive raised : Type :=
  | KeyError
  | Numpy (e : exn).

Inductive outcome : Type :=
  | Stacked (self : Array)
  | Raised (e : raised).

(** [Array.stack] *)
Definition stack (self : Array) (chunk : ndarray A) : outcome :=
  match data self with
  | None => Stacked (mkArrayObject (Some chunk) (stack_axis self))
  | Some d =>
      match _stack_funcs (stack_axis self) with
      | None => Raised KeyError
      | Some f =>
          match f [d; chunk] with
          | Ok r => Stacked (mkArrayObject (Some r) (stack_axis self))
          | Raise e => Raised (Numpy e)
          end
      end
  end.

(** [Array.clear] *)
Definition clear (self : Array) : Array :=
  mkArrayObject None (stack_axis self).

(** [stack] called with one chunk after the other, up to the first call
    that raises. *)
Fixpoint stack_all (self : Array) (chunks : list (ndarray A)) : outcome :=
  match chunks with
  | [] => Stacked self
  | c :: chunks =>
      match stack self c with
      | Stacked self => stack_all self chunks
      | Raised e => Raised e
      end
  end.

(** The axis along which the stacking function for [stack_axis] joins
    arrays of [n] axes: [hstack] takes axis 0 for arrays of one axis. *)
Definition joined_axis (stack_axis n : nat) : nat :=
  match stack_axis, n with
  | 1%nat, 1%nat => 0%nat
  | _, _ => stack_axis
  end.

(** The least number of axes that the stacking function for [stack_axis]
    adds none to. *)
Definition least_axes (stack_axis : nat) : nat :=
  match stack_axis with
  | 0%nat => 2%nat
  | 1%nat => 1%nat
  | _ => 3%nat
  end.

End array.

Arguments Array : clear implicits.
Arguments outcome : clear implicits.

End ArrayStack.

(** * Properties *)

(** ** [Counter] *)

Section counter_facts.

Import Timing.

Lemma Counter_init_counting m c :
  Counter_init m true = Some c → counting m c ∧ count c = 0.
Proof.
  unfold Counter_init. destruct (m <? 1) eqn:E; [discriminate|].
  intros [= <-]. unfold counting; simpl. apply Z.ltb_ge in E. lia.
Qed.

Lemma increment_counting m c :
  counting m c →
  increment c =
    (mkCounter ((count c + 1) `mod` m) m true,
     if (count c + 1) `mod` m =? 0 then [Timeout] else []).
Proof.
  intros (Hm & Hr & Hc). unfold increment; simpl. rewrite Hm, Hr.
  destruct (count c + 1 =? m) eqn:E.
  - apply Z.eqb_eq in E. rewrite E, Z.mod_same by lia. reflexivity.
  - apply Z.eqb_neq in E. rewrite Z.mod_small by lia.
    destruct (count c + 1 =? 0) eqn:E0; [apply Z.eqb_eq in E0; lia|].
    reflexivity.
Qed.

Lemma increment_counting_inv m c :
  counting m c → counting m (fst (increment c)).
Proof.
  intros Hc. rewrite (increment_counting m c Hc). unfold counting; simpl.
  destruct Hc as (_ & _ & Hc).
  pose proof (Z.mod_pos_bound (count c + 1) m). lia.
Qed.

Lemma increments_counting n : ∀ m c,
  counting m c →
  counting m (fst (increments n c))
  ∧ count (fst (increments n c)) = (count c + Z.of_nat n) `mod` m
  ∧ length (snd (increments n c)) = n
  ∧ (∀ k, (k < n)%nat →
       snd (increments n c) !! k =
         Some (if (count c + Z.of_nat k + 1) `mod` m =? 0
               then [Timeout] else []))
  ∧ Z.of_nat (timeouts (snd (increments n c))) = (count c + Z.of_nat n) `div` m.
Proof.
  induction n as [|n IH]; intros m c Hc.
  - simpl. split; [exact Hc|]. destruct Hc as (Hm & Hr & Hc). repeat split; try lia.
    + rewrite Z.add_0_r, Z.mod_small; lia.
    + rewrite Z.add_0_r, Z.div_small; [reflexivity | lia].
  - pose proof (increment_counting m c Hc) as Hstep.
    pose proof (increment_counting_inv m c Hc) as Hinv.
    simpl. destruct (increment c) as [c1 evs] eqn:E1. simpl in Hinv.
    injection Hstep as Hc1 Hevs.
    specialize (IH m c1 Hinv).
    destruct (increments n c1) as [c2 rest] eqn:E2. simpl in IH |- *.
    destruct IH as (Hc2 & Hcnt & Hlen & Hk & Htm).
    assert (Hm : 0 < m) by (destruct Hc as (_ & _ & ?); lia).
    assert (Hcount1 : count c1 = (count c + 1) `mod` m) by (rewrite Hc1; reflexivity).
    repeat split; try apply Hc2.
    + rewrite Hcnt, Hcount1, Zplus_mod_idemp_l. f_equal. lia.
    + lia.
    + intros [|k] Hlt; simpl.
      * rewrite Hevs, Z.add_0_r. reflexivity.
      * rewrite Hk by lia. rewrite Hcount1.
        replace (count c + Z.of_nat (S k) + 1) with ((count c + 1) + (Z.of_nat k + 1)) by lia.
        rewrite <- (Zplus_mod_idemp_l (count c + 1)).
        rewrite <- Z.add_assoc. reflexivity.
    + unfold timeouts in *. simpl. rewrite List.filter_app, length_app.
      rewrite Nat2Z.inj_add, Htm, Hcount1.
      destruct Hc as (_ & _ & Hc).
      destruct (Z.eq_dec (count c + 1) m) as [Heq|Hne].
      * rewrite Hevs, Heq, Z.mod_same by lia. simpl.
        replace (count c + Z.of_nat (S n)) with (Z.of_nat n + 1 * m) by lia.
        rewrite Z.div_add by lia. rewrite Z.add_0_l. lia.
      * rewrite Hevs, Z.mod_small by lia.
        destruct (count c + 1 =? 0) eqn:E0; [apply Z.eqb_eq in E0; lia|].
        replace (count c + Z.of_nat (S n)) with (count c + 1 + Z.of_nat n) by lia.
        simpl length. rewrite Z.add_0_l. reflexivity.
Qed.

End counter_facts.

(** C2, as amended.  For a counter created with [reset_on_timeout] set
    (the default): after any number [n] of calls of [increment] the count is
    in [[0, max_count)]; the k-th call emits [timeout] exactly when [k] is a
    multiple of [max_count], and emits nothing otherwise; so [n] calls emit
    [timeout] [n / max_count] times. *)
Theorem counter_in_range_timeout_every_max_count
    (m : Z) (c : Timing.Counter) (n : nat) :
  Timing.Counter_init m true = Some c →
  0 ≤ Timing.count (fst (Timing.increments n c)) < m
  ∧ (∀ k, (k < n)%nat →
       snd (Timing.increments n c) !! k =
         Some (if Z.of_nat (S k) `mod` m =? 0 then [Timing.Timeout] else []))
  ∧ Z.of_nat (Timing.timeouts (snd (Timing.increments n c)))
    = Z.of_nat n `div` m.
Proof.
  intros Hinit. apply Counter_init_counting in Hinit as [Hc H0].
  destruct (increments_counting n m c Hc) as (Hc' & _ & _ & Hk & Htm).
  split; [apply Hc'|]. split.
  - intros k Hlt. rewrite (Hk k Hlt), H0.
    replace (Z.of_nat (S k)) with (0 + Z.of_nat k + 1) by lia. reflexivity.
  - rewrite Htm, H0. reflexivity.
Qed.

Lemma counter_in_range_timeout_every_max_count_witness :
  0 ≤ Timing.count (fst (Timing.increments 7 (Timing.mkCounter 0 3 true))) < 3
  ∧ (∀ k, (k < 7)%nat →
       snd (Timing.increments 7 (Timing.mkCounter 0 3 true)) !! k =
         Some (if Z.of_nat (S k) `mod` 3 =? 0 then [Timing.Timeout] else []))
  ∧ Z.of_nat (Timing.timeouts
                (snd (Timing.increments 7 (Timing.mkCounter 0 3 true))))
    = Z.of_nat 7 `div` 3.
Proof.
  apply (counter_in_range_timeout_every_max_count 3). reflexivity.
Defined.

(** C2 as stated fails for a counter created with [reset_on_timeout=False]:
    [Counter(2, False)] has count 2 after two calls, which is not below
    [max_count], and count 4 after four calls, of which only the second
    has emitted [timeout]. *)
Lemma counter_without_reset_leaves_range :
  Timing.Counter_init 2 false = Some (Timing.mkCounter 0 2 false)
  ∧ Timing.count (fst (Timing.increments 2 (Timing.mkCounter 0 2 false))) = 2
  ∧ ¬ (0 ≤ Timing.count
             (fst (Timing.increments 2 (Timing.mkCounter 0 2 false))) < 2)
  ∧ snd (Timing.increments 4 (Timing.mkCounter 0 2 false))
    = [[]; [Timing.Timeout]; []; []].
Proof.
  repeat split; try reflexivity. vm_compute. intros [_ Hlt]. discriminate Hlt.
Qed.

(** ** [StepCounter] *)

Section step_counter_facts.

Import Timing.

Context {H : Type}.
Implicit Types (sc : StepCounter H) (l : list Z).

Lemma matching_from_lookup l : ∀ i0 c i,
  i ∈ matching_from i0 l c ↔ (i0 ≤ i)%nat ∧ l !! (i - i0)%nat = Some c.
Proof.
  induction l as [|x l IH]; intros i0 c i; simpl.
  - rewrite elem_of_nil. split; [tauto | intros [_ ?]; discriminate].
  - assert (Hrest : i ∈ matching_from (S i0) l c
                    ↔ (i0 < i)%nat ∧ (x :: l) !! (i - i0)%nat = Some c).
    { rewrite IH. split; intros [Hle Hl]; (split; [lia|]).
      - replace (i - i0)%nat with (S (i - S i0)) by lia. exact Hl.
      - replace (i - i0)%nat with (S (i - S i0)) in Hl by lia. exact Hl. }
    destruct (x =? c) eqn:E.
    + apply Z.eqb_eq in E. subst x. rewrite elem_of_cons, Hrest. split.
      * intros [-> | [Hlt Hl]]; [|split; [lia | exact Hl]].
        split; [lia|]. rewrite Nat.sub_diag. reflexivity.
      * intros [Hle Hl]. destruct (decide (i = i0)) as [->|Hne]; [left; reflexivity|].
        right. split; [lia | exact Hl].
    + apply Z.eqb_neq in E. rewrite Hrest. split.
      * intros [Hlt Hl]. split; [lia | exact Hl].
      * intros [Hle Hl]. split; [|exact Hl].
        destruct (decide (i = i0)) as [->|Hne]; [|lia].
        rewrite Nat.sub_diag in Hl. simpl in Hl. congruence.
Qed.

Lemma matching_from_bound l : ∀ i0 c i,
  i ∈ matching_from i0 l c → (i0 ≤ i)%nat.
Proof. intros i0 c i Hi. apply matching_from_lookup in Hi. tauto. Qed.

Lemma matching_from_NoDup l : ∀ i0 c, NoDup (matching_from i0 l c).
Proof.
  induction l as [|x l IH]; intros i0 c; simpl; [constructor|].
  destruct (x =? c); [|apply IH].
  constructor; [|apply IH].
  intros Hin. apply matching_from_bound in Hin. lia.
Qed.

Lemma contains_false_matching l c :
  contains l c = false → matching l c = [].
Proof.
  unfold matching, contains. generalize 0%nat.
  induction l as [|x l IH]; intros i0; simpl; [reflexivity|].
  intros Hex. apply orb_false_iff in Hex as [Hx Hl].
  rewrite Z.eqb_sym, Hx. apply IH, Hl.
Qed.

Lemma step_increment_events sc :
  snd (step_increment sc)
  = map Step (matching (step_count sc) (count (base sc) + 1))
    ++ snd (increment (base sc)).
Proof.
  unfold step_increment, increment; simpl.
  destruct (contains _ _) eqn:Hc.
  - destruct (_ =? _); simpl; [reflexivity | rewrite app_nil_r; reflexivity].
  - rewrite (contains_false_matching _ _ Hc).
    destruct (_ =? _); reflexivity.
Qed.

Lemma step_increment_state sc :
  base (fst (step_increment sc)) = fst (increment (base sc))
  ∧ step_inc (fst (step_increment sc)) = step_inc sc
  ∧ step_count (fst (step_increment sc)) = step_count sc
  ∧ slots (fst (step_increment sc)) = slots sc.
Proof.
  unfold step_increment, increment; simpl.
  destruct (_ =? _); simpl; repeat split; reflexivity.
Qed.

Lemma init_registered_ok m r sc :
  StepCounter_init m r = Some sc → registered_ok sc.
Proof.
  unfold StepCounter_init. destruct (Counter_init m r); [|discriminate].
  intros [= <-]. split; simpl; [reflexivity | unfold step_max; lia].
Qed.

Lemma run_op_registered_ok o sc :
  registered_ok sc → registered_ok (run_op o sc).
Proof.
  intros [Hlen Hmax]. destruct o as [c ev| |]; simpl.
  - unfold add_step. destruct (step_inc sc <? step_max)%nat eqn:E.
    + apply Nat.ltb_lt in E. split; simpl; [rewrite length_app; simpl; lia | lia].
    + split; assumption.
  - destruct (step_increment_state sc) as (_ & Hi & Hc & _).
    split; [rewrite Hi, Hc; exact Hlen | rewrite Hi; exact Hmax].
  - split; assumption.
Qed.

Lemma run_ops_registered_ok os : ∀ sc,
  registered_ok sc → registered_ok (run_ops os sc).
Proof.
  unfold run_ops. induction os as [|o os IH]; intros sc Hok; simpl; [exact Hok|].
  apply IH, run_op_registered_ok, Hok.
Qed.

End step_counter_facts.

(** C6.  A call of [StepCounter.increment] first emits [step<i>] for every
    [i] whose registered checkpoint equals the new count, each once, and
    then does to the count and to [timeout] what [Counter.increment] does.
    In the scenario ([max_count = 5], checkpoints 2, 2 and 4 for the
    callbacks [a], [b] and [c]) the five calls emit nothing, [step0] and
    [step1] (which run [a] and [b]), nothing, [step2] (which runs [c]), and
    [timeout]. *)
Theorem step_increment_fires_checkpoints_then_timeout
    {H : Type} (sc : Timing.StepCounter H) (a b c : H) :
  (∃ steps : list nat,
     snd (Timing.step_increment sc)
     = map Timing.Step steps ++ snd (Timing.increment (Timing.base sc))
     ∧ NoDup steps
     ∧ (∀ i, i ∈ steps ↔
             Timing.step_count sc !! i
             = Some (Timing.count (Timing.base sc) + 1))
     ∧ Timing.base (fst (Timing.step_increment sc))
       = fst (Timing.increment (Timing.base sc)))
  ∧ (∃ sc0,
       Timing.StepCounter_init 5 true = Some sc0
       ∧ let sc := Timing.add_step 4 c
                     (Timing.add_step 2 b (Timing.add_step 2 a sc0)) in
         snd (Timing.step_increments 5 sc)
         = [[]; [Timing.Step 0; Timing.Step 1]; []; [Timing.Step 2];
            [Timing.Timeout]]
         ∧ Timing.delivered sc (Timing.Step 0) = [a]
         ∧ Timing.delivered sc (Timing.Step 1) = [b]
         ∧ Timing.delivered sc (Timing.Step 2) = [c]).
Proof.
  split.
  - exists (Timing.matching (Timing.step_count sc)
                            (Timing.count (Timing.base sc) + 1)).
    split; [apply step_increment_events|].
    split; [apply matching_from_NoDup|].
    split; [|apply step_increment_state].
    intros i. unfold Timing.matching. rewrite matching_from_lookup.
    rewrite Nat.sub_0_r. split; [tauto | intros Hl; split; [lia | exact Hl]].
  - eexists. split; [reflexivity|]. repeat split.
Qed.

(** C10.  However a [StepCounter] has been used since it was created, it
    holds at most 10 registered checkpoints; once it holds 10, [add_step]
    returns normally and changes nothing, so that every later run of
    [increment] emits just what it would have emitted without the call. *)
Theorem add_step_beyond_step_max_is_dropped
    {H : Type} (m : Z) (r : bool) (sc0 : Timing.StepCounter H)
    (os : list (Timing.op H)) (cnt : Z) (ev : H) (n : nat) :
  Timing.StepCounter_init m r = Some sc0 →
  let sc := Timing.run_ops os sc0 in
  (length (Timing.step_count sc) ≤ 10)%nat
  ∧ (length (Timing.step_count sc) = 10%nat →
       Timing.add_step cnt ev sc = sc
       ∧ Timing.step_increments n (Timing.add_step cnt ev sc)
         = Timing.step_increments n sc).
Proof.
  intros Hinit sc.
  destruct (run_ops_registered_ok os sc0 (init_registered_ok _ _ _ Hinit))
    as [Hlen Hmax].
  fold sc in Hlen, Hmax. split.
  - rewrite <- Hlen. exact Hmax.
  - intros Hfull.
    assert (Hdrop : Timing.add_step cnt ev sc = sc).
    { unfold Timing.add_step. rewrite Hlen, Hfull. reflexivity. }
    rewrite Hdrop. split; reflexivity.
Qed.

(** Eleven calls of [add_step] on a new counter: ten are registered, and a
    further call changes nothing. *)
Lemma add_step_beyond_step_max_is_dropped_witness :
  let sc :=
    Timing.run_ops (replicate 11 (Timing.OpAddStep 1 "f"))
      (Timing.mkStepCounter (Timing.mkCounter 0 3 true) 0 []
                            (replicate 10 [])) in
  (length (Timing.step_count sc) ≤ 10)%nat
  ∧ (length (Timing.step_count sc) = 10%nat →
       Timing.add_step 2 "g" sc = sc
       ∧ Timing.step_increments 4 (Timing.add_step 2 "g" sc)
         = Timing.step_increments 4 sc).
Proof.
  apply (add_step_beyond_step_max_is_dropped 3 true
           (Timing.mkStepCounter (Timing.mkCounter 0 3 true) 0 []
                                 (replicate 10 []))
           (replicate 11 (Timing.OpAddStep 1 "f")) 2 "g" 4).
  reflexivity.
Defined.

(** ** [DaqStream.run] *)

(** C1.  Over a device whose first two reads return chunks and whose third
    read raises [IOError], with no [stop()] from the controlling thread
    before that read, [run] returns (given fuel for three passes of the
    loop) after these events and no others: the device's [start], two
    [updated] with the two chunks, one [disconnected].  The device's
    [stop] is not called and [finished] is not emitted.  [_running] is
    left true, unless [stop()] was called during the third read. *)
Theorem run_disconnected_at_third_read
    {chunk : Type} (dev : Daq.Device chunk) (ctl : Daq.Controller)
    (d1 d2 : chunk) (fuel : nat) :
  Daq.reads dev 0 = Daq.Data d1 →
  Daq.reads dev 1 = Daq.Data d2 →
  Daq.reads dev 2 = Daq.RaiseIOError →
  (∀ k, (k ≤ 2)%nat → Daq.stop_at_head ctl k = false) →
  (∀ k, (k < 2)%nat → Daq.stop_in_read ctl k = false) →
  (3 ≤ fuel)%nat →
  ∃ tr,
    Daq.run fuel dev ctl
    = Some (Daq.Returned (negb (Daq.stop_in_read ctl 2)) tr)
    ∧ tr = [Daq.DeviceStart; Daq.Updated d1; Daq.Updated d2;
            Daq.Disconnected]
    ∧ List.filter Daq.is_updated tr = [Daq.Updated d1; Daq.Updated d2]
    ∧ List.filter Daq.is_disconnected tr = [Daq.Disconnected]
    ∧ last tr = Some Daq.Disconnected
    ∧ List.filter Daq.is_device_stop tr = []
    ∧ List.filter Daq.is_finished tr = [].
Proof.
  intros H0 H1 H2 Hhead Hread Hfuel.
  destruct fuel as [|[|[|fuel]]]; try lia.
  eexists. split; [|repeat split].
  unfold Daq.run; simpl.
  rewrite !Hhead, !Hread by lia. rewrite H0, H1, H2. reflexivity.
Qed.

(** A device that yields 10, then 20, then is gone; a controller that
    never stops the stream. *)
Lemma run_disconnected_at_third_read_witness :
  ∃ tr,
    Daq.run 5
      (Daq.mkDevice (λ k, match k with
                          | 0%nat => Daq.Data 10
                          | 1%nat => Daq.Data 20
                          | _ => Daq.RaiseIOError
                          end))
      (Daq.mkController (λ _, false) (λ _, false))
    = Some (Daq.Returned true tr)
    ∧ tr = [Daq.DeviceStart; Daq.Updated 10; Daq.Updated 20;
            Daq.Disconnected]
    ∧ List.filter Daq.is_updated tr = [Daq.Updated 10; Daq.Updated 20]
    ∧ List.filter Daq.is_disconnected tr = [Daq.Disconnected]
    ∧ last tr = Some Daq.Disconnected
    ∧ List.filter Daq.is_device_stop tr = []
    ∧ List.filter Daq.is_finished tr = [].
Proof.
  apply (run_disconnected_at_third_read
           (Daq.mkDevice (λ k, match k with
                               | 0%nat => Daq.Data 10
                               | 1%nat => Daq.Data 20
                               | _ => Daq.RaiseIOError
                               end))
           (Daq.mkController (λ _, false) (λ _, false)) 10 20 5);
    try reflexivity; lia.
Defined.

(** ** [_Sleeper] *)

Section sleeper_facts.

Import Daq.

Lemma sleep_again s late w last s' w' :
  last_read_time s = Some last → blocked w = [] →
  sleep s late w = Some (s', w') →
  s' = mkSleeper (read_time s) (Some (clock w'))
  ∧ clock w ≤ clock w'
  ∧ paced (read_time s) last late
      (mkCall (clock w) (clock w') (head (blocked w'))).
Proof.
  intros Hlast Hb. unfold sleep, time_sleep. rewrite Hlast, Hb.
  destruct (_ || _); [discriminate|].
  destruct (read_time s - (clock w - last) <? 0) eqn:E.
  - apply Z.ltb_lt in E. intros [= <- <-]. simpl.
    rewrite Hb. split; [reflexivity|]. split; [lia|]. unfold paced; simpl.
    split; [lia|]. split; [|lia]. intros _. split; reflexivity.
  - apply Z.ltb_ge in E. intros [= <- <-]. simpl.
    split; [reflexivity|]. split; [lia|]. unfold paced; simpl.
    split; [lia|]. split; [lia|]. intros _. reflexivity.
Qed.

Lemma sleep_again_returns s late w last :
  last_read_time s = Some last →
  sleep_min ≤ read_time s - (clock w - last) ≤ sleep_max →
  is_Some (sleep s late w).
Proof.
  intros Hlast [Hlo Hhi]. unfold sleep, time_sleep. rewrite Hlast.
  rewrite (proj2 (Z.ltb_ge _ _) Hlo), (proj2 (Z.ltb_ge _ _) Hhi). simpl.
  destruct (_ <? 0); eexists; reflexivity.
Qed.

Lemma sleep_first s late w s' w' :
  last_read_time s = None →
  sleep s late w = Some (s', w') →
  0 ≤ read_time s ≤ sleep_max
  ∧ s' = mkSleeper (read_time s) (Some (clock w'))
  ∧ clock w + read_time s ≤ clock w'
  ∧ head (blocked w') = Some (read_time s).
Proof.
  intros Hnone. unfold sleep, time_sleep. rewrite Hnone.
  destruct (read_time s <? sleep_min) eqn:E1; [discriminate|].
  destruct (sleep_max <? read_time s) eqn:E2; [discriminate|].
  destruct (read_time s <? 0) eqn:E3; [discriminate|]. simpl.
  apply Z.ltb_ge in E2, E3. intros [= <- <-]. simpl.
  split; [lia|]. split; [reflexivity|]. split; [lia | reflexivity].
Qed.

Lemma sleep_first_returns s late w :
  last_read_time s = None → 0 ≤ read_time s ≤ sleep_max →
  is_Some (sleep s late w).
Proof.
  intros Hnone [Hlo Hhi]. unfold sleep, time_sleep. rewrite Hnone.
  rewrite (proj2 (Z.ltb_ge _ _) Hhi), (proj2 (Z.ltb_ge _ _) Hlo).
  assert (Hmin : sleep_min ≤ read_time s) by (unfold sleep_min; lia).
  rewrite (proj2 (Z.ltb_ge _ _) Hmin). eexists. reflexivity.
Qed.

Lemma sleep_loop_again env : ∀ s w s' w' log,
  last_read_time s = Some (clock w) →
  sleep_loop s w env = Some (s', w', log) →
  all_paced (read_time s) (clock w) env log.
Proof.
  induction env as [|[work late] env IH]; intros s w s' w' log Hlast; simpl.
  - intros [= _ _ <-]. exact I.
  - destruct (sleep s late (mkWorld (clock w + Z.of_N work) []))
      as [[s1 w1]|] eqn:Hs; [|discriminate].
    destruct (sleep_again s late (mkWorld (clock w + Z.of_N work) [])
                (clock w) s1 w1 Hlast eq_refl Hs) as (-> & Hmono & Hp).
    destruct (sleep_loop _ w1 env) as [[[s2 w2] log2]|] eqn:Hrun;
      [|discriminate].
    intros [= _ _ <-]. simpl. split; [exact Hp|]. split; [exact Hmono|].
    exact (IH (mkSleeper (read_time s) (Some (clock w1))) w1 s2 w2 log2
              eq_refl Hrun).
Qed.

Lemma sleep_loop_again_returns env : ∀ s w,
  last_read_time s = Some (clock w) →
  read_time s ≤ sleep_max →
  Forall (λ p, Z.of_N p.1 ≤ read_time s - sleep_min) env →
  is_Some (sleep_loop s w env).
Proof.
  induction env as [|[work late] env IH]; intros s w Hlast Hmax Hwork; simpl.
  - eexists. reflexivity.
  - apply Forall_cons in Hwork as [Hw Hwork]. simpl in Hw.
    destruct (sleep_again_returns s late
                (mkWorld (clock w + Z.of_N work) []) (clock w) Hlast)
      as [[s1 w1] Hs]; [simpl; lia|].
    rewrite Hs.
    destruct (sleep_again s late (mkWorld (clock w + Z.of_N work) [])
                (clock w) s1 w1 Hlast eq_refl Hs) as (-> & _ & _).
    destruct (IH (mkSleeper (read_time s) (Some (clock w1))) w1
                 eq_refl Hmax Hwork) as [[[s2 w2] log2] Hrun].
    rewrite Hrun. eexists. reflexivity.
Qed.

Lemma all_paced_length rt env : ∀ prev log,
  all_paced rt prev env log → length log = length env.
Proof.
  induction env as [|[work late] env IH]; intros prev [|c log]; simpl;
    try tauto.
  intros (_ & _ & Hall). f_equal. eapply IH, Hall.
Qed.

Lemma all_paced_head rt prev env log c late work :
  all_paced rt prev env log →
  log !! 0%nat = Some c → env !! 0%nat = Some (work, late) →
  paced rt prev late c.
Proof.
  intros Hall Hc He.
  destruct env as [|[work' late'] env], log as [|c' log]; simpl in *;
    try discriminate.
  injection Hc as <-. injection He as _ <-. apply Hall.
Qed.

Lemma all_paced_lookup rt env : ∀ prev log k c1 c2 work late,
  all_paced rt prev env log →
  log !! k = Some c1 → log !! S k = Some c2 → env !! S k = Some (work, late) →
  paced rt (returned c1) late c2 ∧ started c1 ≤ returned c1.
Proof.
  induction env as [|[work' late'] env IH];
    intros prev [|c log] k c1 c2 work late Hall H1 H2 He;
    simpl in *; try discriminate; try tauto.
  destruct Hall as (Hp & Hmono & Hall). destruct k as [|k]; simpl in *.
  - injection H1 as <-. split; [|exact Hmono].
    eapply all_paced_head; eauto.
  - eapply IH; eauto.
Qed.

End sleeper_facts.

(** Every call of a run that returns is paced after the call before
    it. *)
Lemma sleep_loop_paced
    (rt : Z) (w : Daq.World) (env : list (N * Daq.lateness))
    (s' : Daq.Sleeper) (w' : Daq.World) (log : list Daq.call) :
  Daq.sleep_loop (Daq.Sleeper_init rt) w env = Some (s', w', log) →
  length log = length env
  ∧ (∀ c, log !! 0%nat = Some c →
       Daq.blocked_for c = Some rt
       ∧ Daq.started c + rt ≤ Daq.returned c)
  ∧ (∀ k c1 c2 work late,
       log !! k = Some c1 → log !! S k = Some c2 →
       env !! S k = Some (work, late) →
       Daq.started c1 + rt ≤ Daq.returned c2
       ∧ Daq.returned c1 + rt ≤ Daq.returned c2
       ∧ (rt < Daq.started c2 - Daq.returned c1 →
            Daq.blocked_for c2 = None
            ∧ Daq.returned c2
              = Daq.started c2 + Z.of_N (Daq.overhead late))
       ∧ (Daq.started c2 - Daq.returned c1 ≤ rt →
            Daq.blocked_for c2
            = Some (rt - (Daq.started c2 - Daq.returned c1)))).
Proof.
  destruct env as [|[work late] env]; simpl.
  - intros [= _ _ <-]. split; [reflexivity|].
    split; [intros c Hc; discriminate Hc|].
    intros k c1 c2 ? ? Hc; discriminate Hc.
  - destruct (Daq.sleep (Daq.Sleeper_init rt) late
                (Daq.mkWorld (Daq.clock w + Z.of_N work) []))
      as [[s1 w1]|] eqn:Hs; [|discriminate].
    destruct (sleep_first (Daq.Sleeper_init rt) late
                (Daq.mkWorld (Daq.clock w + Z.of_N work) []) s1 w1
                eq_refl Hs) as (Hrt & -> & Hmono & Hblk).
    simpl in Hrt, Hmono, Hblk |- *.
    destruct (Daq.sleep_loop _ w1 env) as [[[s2 w2] log2]|] eqn:Hrun;
      [|discriminate].
    intros [= _ _ <-].
    pose proof (sleep_loop_again env
                  (Daq.mkSleeper rt (Some (Daq.clock w1))) w1 s2 w2 log2
                  eq_refl Hrun) as Hall.
    simpl in Hall.
    set (c0 := Daq.mkCall _ _ _).
    assert (Hall0 : Daq.all_paced rt (Daq.clock w + Z.of_N work)
                      ((work, late) :: env) (c0 :: log2)).
    { simpl. split; [|split; [lia | exact Hall]].
      unfold Daq.paced, c0; cbn [Daq.started Daq.returned Daq.blocked_for].
      split; [lia|]. split; [intros Habs; exfalso; lia|].
      intros _. rewrite Hblk. f_equal. lia. }
    split; [simpl; f_equal; eapply all_paced_length, Hall|].
    split.
    + intros c [= <-]. simpl. split; [exact Hblk | lia].
    + intros k c1 c2 work' late' H1 H2 He.
      destruct (all_paced_lookup _ _ _ _ _ _ _ _ _ Hall0 H1 H2 He)
        as [(Hret & Hlate & Htime) Hstart].
      split; [lia|]. split; [exact Hret|]. split; [exact Hlate | exact Htime].
Qed.

(** With an interval that is not negative and that [time.sleep] can count,
    and a caller that is never later than [time.sleep] can count, every
    call returns. *)
Lemma sleep_loop_returns
    (rt : Z) (w : Daq.World) (env : list (N * Daq.lateness)) :
  0 ≤ rt ≤ Daq.sleep_max →
  Forall (λ p, Z.of_N p.1 ≤ rt - Daq.sleep_min) env →
  is_Some (Daq.sleep_loop (Daq.Sleeper_init rt) w env).
Proof.
  intros Hrt Hwork. destruct env as [|[work late] env]; simpl.
  - eexists. reflexivity.
  - apply Forall_cons in Hwork as [_ Hwork].
    destruct (sleep_first_returns (Daq.Sleeper_init rt) late
                (Daq.mkWorld (Daq.clock w + Z.of_N work) []) eq_refl Hrt)
      as [[s1 w1] Hs].
    rewrite Hs.
    destruct (sleep_first (Daq.Sleeper_init rt) late
                (Daq.mkWorld (Daq.clock w + Z.of_N work) []) s1 w1
                eq_refl Hs) as (_ & -> & _ & _).
    destruct (sleep_loop_again_returns env
                (Daq.mkSleeper rt (Some (Daq.clock w1))) w1 eq_refl
                (proj2 Hrt) Hwork) as [[[s2 w2] log2] Hrun].
    simpl. simpl in Hrun. rewrite Hrun. eexists. reflexivity.
Qed.

(** C7.  A caller calls [sleep] of a sleeper with interval [rt] again and
    again, however long its own work, the blocking and the statements of
    [sleep] take.  With [rt] not negative, and [rt] and the caller's
    lateness within what [time.sleep] can count, every call returns.  In
    every run whose calls return, no call returns sooner than [rt] after
    the call before it was made (indeed, after it returned).  A call made more than [rt] after the return of
    the call before it does not block at all (no negative sleep) and
    returns as soon as its statements are done; the bound for the calls
    after it is the same [rt], counted from its own return.  A call made
    in time blocks for what is left of [rt]; the first call blocks for
    [rt]. *)
Theorem sleep_never_returns_early
    (rt : Z) (w : Daq.World) (env : list (N * Daq.lateness)) :
  (0 ≤ rt ≤ Daq.sleep_max →
   Forall (λ p, Z.of_N p.1 ≤ rt - Daq.sleep_min) env →
   is_Some (Daq.sleep_loop (Daq.Sleeper_init rt) w env))
  ∧ ∀ s' w' log,
      Daq.sleep_loop (Daq.Sleeper_init rt) w env = Some (s', w', log) →
      length log = length env
      ∧ (∀ c, log !! 0%nat = Some c →
           Daq.blocked_for c = Some rt
           ∧ Daq.started c + rt ≤ Daq.returned c)
      ∧ (∀ k c1 c2 work late,
           log !! k = Some c1 → log !! S k = Some c2 →
           env !! S k = Some (work, late) →
           Daq.started c1 + rt ≤ Daq.returned c2
           ∧ Daq.returned c1 + rt ≤ Daq.returned c2
           ∧ (rt < Daq.started c2 - Daq.returned c1 →
                Daq.blocked_for c2 = None
                ∧ Daq.returned c2
                  = Daq.started c2 + Z.of_N (Daq.overhead late))
           ∧ (Daq.started c2 - Daq.returned c1 ≤ rt →
                Daq.blocked_for c2
                = Some (rt - (Daq.started c2 - Daq.returned c1)))).
Proof.
  split.
  - apply sleep_loop_returns.
  - intros s' w' log Hrun. exact (sleep_loop_paced rt w env s' w' log Hrun).
Qed.

(** Interval 100.  The first call is made at 0 and returns at 103; the
    second is made at 133, in time, and blocks for 70; the third is made
    500 after the second has returned, and does not block. *)
Lemma sleep_never_returns_early_witness :
  ∃ s' w' log,
    Daq.sleep_loop (Daq.Sleeper_init 100) (Daq.mkWorld 0 [])
      [(0%N, Daq.mkLateness 2 1); (30%N, Daq.mkLateness 0 1);
       (500%N, Daq.mkLateness 0 1)]
    = Some (s', w', log)
    ∧ log = [Daq.mkCall 0 103 (Some 100); Daq.mkCall 133 204 (Some 70);
             Daq.mkCall 704 705 None]
    ∧ length log = 3%nat.
Proof.
  destruct (sleep_never_returns_early 100 (Daq.mkWorld 0 [])
              [(0%N, Daq.mkLateness 2 1); (30%N, Daq.mkLateness 0 1);
               (500%N, Daq.mkLateness 0 1)]) as [_ Hpaced].
  eexists _, _, _. split; [reflexivity|]. split; [reflexivity|].
  apply (Hpaced _ _ _ eq_refl).
Defined.

(** ** numpy slices *)

(** Case analysis on the comparisons of positions in the goal. *)
Ltac nat_cases :=
  repeat match goal with
    | |- context [(?a <? ?b)%nat] => destruct (Nat.ltb_spec a b)
    | |- context [(?a <=? ?b)%nat] => destruct (Nat.leb_spec a b)
    end;
  simpl; try lia; try reflexivity.

Section numpy_facts.

Import Py Numpy.

Context {A B : Type} `{Zero B} `{Cast A B}.
Implicit Types (v : ndarray A) (a buf : ndarray B) (sh idx : list nat).

Lemma index_of_nat {X : Type} (l : list X) (n : nat) (x : X) :
  l !! n = Some x → index l (Z.of_nat n) = Ok x.
Proof.
  intros Hl. unfold index.
  pose proof (lookup_lt_Some _ _ _ Hl) as Hlt.
  destruct (Z.of_nat n <? 0) eqn:E; [apply Z.ltb_lt in E; lia|].
  destruct (0 <=? Z.of_nat n) eqn:E1; [|apply Z.leb_gt in E1; lia].
  destruct (Z.of_nat n <? Z.of_nat (length l)) eqn:E2;
    [|apply Z.ltb_ge in E2; lia].
  simpl. rewrite Nat2Z.id, Hl. reflexivity.
Qed.

Lemma slice_within lo hi n :
  (lo ≤ hi)%nat → (hi ≤ n)%nat →
  slice_lo lo n = lo ∧ slice_len lo hi n = (hi - lo)%nat.
Proof. unfold slice_lo, slice_len. lia. Qed.

Lemma setitem_slice_within nidx ax lo hi buf v n :
  (nidx ≤ ndim buf)%nat → shape buf !! ax = Some n →
  (lo ≤ hi)%nat → (hi ≤ n)%nat →
  broadcastable (shape v) (<[ax := (hi - lo)%nat]> (shape buf)) = true →
  ∃ buf',
    setitem_slice nidx ax lo hi buf v = Ok buf'
    ∧ shape buf' = shape buf
    ∧ ∀ idx,
        item buf' idx =
        match idx !! ax with
        | Some i =>
            if (lo <=? i)%nat && (i <? hi)%nat
            then item (broadcast (<[ax := (hi - lo)%nat]> (shape buf))
                                 (astype v))
                      (alter (λ i, i - lo)%nat ax idx)
            else item buf idx
        | None => item buf idx
        end.
Proof.
  intros Hn Hax Hlo Hhi Hb. unfold setitem_slice.
  destruct (ndim buf <? nidx)%nat eqn:E; [apply Nat.ltb_lt in E; lia|].
  rewrite Hax. destruct (slice_within lo hi n Hlo Hhi) as [-> ->].
  unfold broadcast_to. simpl. rewrite Hb. simpl.
  eexists. split; [reflexivity|]. split; [reflexivity|].
  intros idx. simpl. destruct (idx !! ax) as [i|]; [|reflexivity].
  replace (lo + (hi - lo))%nat with hi by lia. reflexivity.
Qed.

Lemma getitem_slice_within nidx ax lo hi buf n :
  (nidx ≤ ndim buf)%nat → shape buf !! ax = Some n →
  (lo ≤ hi)%nat → (hi ≤ n)%nat →
  getitem_slice nidx ax lo hi buf
  = Ok (mkArray (<[ax := (hi - lo)%nat]> (shape buf))
                (λ idx, item buf (alter (Nat.add lo) ax idx))).
Proof.
  intros Hn Hax Hlo Hhi. unfold getitem_slice.
  destruct (ndim buf <? nidx)%nat eqn:E; [apply Nat.ltb_lt in E; lia|].
  rewrite Hax. destruct (slice_within lo hi n Hlo Hhi) as [-> ->].
  reflexivity.
Qed.

(** An index within bounds has an entry for every axis. *)
Lemma in_bounds_lookup sh idx ax n :
  in_bounds sh idx → sh !! ax = Some n →
  ∃ i, idx !! ax = Some i ∧ (i < n)%nat.
Proof.
  intros Hb Hn. unfold in_bounds in Hb.
  destruct (Forall2_lookup_r _ _ _ _ _ Hb Hn) as (i & Hi & Hlt).
  exists i. split; assumption.
Qed.

End numpy_facts.

(** ** [BufferedArray] *)

Section buffered_facts.

Import Py Numpy Buffered.

Context {A B : Type} `{Zero B} `{Cast A B}.
Implicit Types (self : BufferedArray B) (chunk : ndarray A) (buf : ndarray B).

Lemma write_slice_axis ax lo hi buf chunk :
  (ax ≤ 2)%nat →
  write_slice (Z.of_nat ax) lo hi buf chunk
  = setitem_slice (index_entries ax) ax lo hi buf chunk.
Proof. destruct ax as [|[|[|ax]]]; intros Hax; try reflexivity; lia. Qed.

Lemma insert_within self chunk ax cap e :
  insert_axis self = Z.of_nat ax → (ax ≤ 2)%nat →
  shape (buffer self) = buffer_dims self →
  (index_entries ax ≤ length (buffer_dims self))%nat →
  buffer_dims self !! ax = Some cap →
  overflow self = false →
  new_sample self chunk = Ok e →
  (pos self + e ≤ cap)%nat →
  broadcastable (shape chunk) (place self ax e) = true →
  ∃ buf',
    insert self chunk
    = Ok (mkBufferedArray (insert_axis self) (buffer_dims self) buf'
                          (pos self + e) false (data self))
    ∧ shape buf' = buffer_dims self
    ∧ ∀ idx, item buf' idx
             = written_at ax (pos self) e (place self ax e) chunk
                          (buffer self) idx.
Proof.
  intros Hax Hle Hsh Hn Hcap Hov Hns Hfit Hb.
  unfold insert. rewrite Hov, Hns. simpl.
  unfold capacity. rewrite Hax, (index_of_nat _ _ _ Hcap). simpl.
  destruct (cap <? pos self + e)%nat eqn:E; [apply Nat.ltb_lt in E; lia|].
  rewrite write_slice_axis by exact Hle.
  destruct (setitem_slice_within (index_entries ax) ax (pos self)
              (pos self + e) (buffer self) chunk cap) as (buf' & -> & Hs' & Hit).
  - unfold ndim. rewrite Hsh. exact Hn.
  - rewrite Hsh. exact Hcap.
  - lia.
  - exact Hfit.
  - rewrite Hsh. replace (pos self + e - pos self)%nat with e by lia. exact Hb.
  - simpl. exists buf'. split; [reflexivity|]. split; [congruence|].
    intros idx. rewrite Hit. unfold written_at, place. rewrite Hsh.
    replace (pos self + e - pos self)%nat with e by lia. reflexivity.
Qed.

Lemma insert_overflowed self chunk :
  overflow self = true → insert self chunk = Ok self.
Proof. intros Hov. unfold insert. rewrite Hov. reflexivity. Qed.

Lemma insert_all_overflowed chunks : ∀ self,
  overflow self = true → insert_all self chunks = Ok self.
Proof.
  induction chunks as [|c chunks IH]; intros self Hov; simpl; [reflexivity|].
  rewrite (insert_overflowed _ _ Hov). simpl. apply IH, Hov.
Qed.

Lemma insert_too_much self chunk e cap :
  overflow self = false →
  new_sample self chunk = Ok e → capacity self = Ok cap →
  (cap < pos self + e)%nat →
  insert self chunk
  = Ok (mkBufferedArray (insert_axis self) (buffer_dims self) (buffer self)
                        (pos self) true (data self)).
Proof.
  intros Hov Hns Hcap Hlt. unfold insert. rewrite Hov, Hns. simpl.
  rewrite Hcap. simpl.
  destruct (cap <? pos self + e)%nat eqn:E; [reflexivity|].
  apply Nat.ltb_ge in E. lia.
Qed.

Lemma read_back ax p e (place : list nat) chunk buf idx i :
  idx !! ax = Some i → (i < e)%nat →
  written_at ax p e place chunk buf (alter (Nat.add p) ax idx)
  = item (broadcast place (astype chunk)) idx.
Proof.
  intros Hi Hlt. unfold written_at.
  rewrite list_lookup_alter_eq, Hi. simpl.
  destruct (p <=? p + i)%nat eqn:E1; [|apply Nat.leb_gt in E1; lia].
  destruct (p + i <? p + e)%nat eqn:E2; [|apply Nat.ltb_ge in E2; lia].
  simpl. rewrite list_alter_alter_eq, list_alter_id; [reflexivity|].
  intros x. simpl. lia.
Qed.

End buffered_facts.

(** C3, as amended.  [insert] of a chunk of extent [e] into a
    [BufferedArray] of capacity [cap] along its insert axis:
    - if [overflow] is set, nothing changes (and nothing changes however
      many chunks are inserted);
    - if not and [pos + e] exceeds [cap], [overflow] is set and nothing
      else changes;
    - otherwise, when the insert axis is 0, 1 or 2 (an axis [insert] has a
      branch for), the buffer has the axes that branch indexes, the chunk
      has an extent axis (more than one axis) or the insert axis is 0, and
      the chunk's shape is one numpy takes for the place [[pos, pos + e)]
      (it can broadcast it), the call returns, [pos] advances by [e], the
      place reads back as the chunk converted to the array's dtype, and
      the buffer is unchanged elsewhere.
    A chunk without extent axis given to an array of insert axis 1 or 2 is
    not spoken of.  [clear] sets [pos] to 0, [overflow] to false and
    every element of the buffer to zero. *)
Theorem insert_all_or_nothing
    {A B : Type} `{Numpy.Zero B} `{Numpy.Cast A B}
    (self : Buffered.BufferedArray B) (chunk : Numpy.ndarray A)
    (e cap : nat) :
  Buffered.new_sample self chunk = Py.Ok e →
  Buffered.capacity self = Py.Ok cap →
  (if Buffered.overflow self then
     Buffered.insert self chunk = Py.Ok self
     ∧ ∀ chunks, Buffered.insert_all self chunks = Py.Ok self
   else if (cap <? Buffered.pos self + e)%nat then
     Buffered.insert self chunk
     = Py.Ok (Buffered.mkBufferedArray
                (Buffered.insert_axis self) (Buffered.buffer_dims self)
                (Buffered.buffer self) (Buffered.pos self) true
                (Buffered.data self))
   else
     ∀ ax : nat,
       Buffered.insert_axis self = Z.of_nat ax → (ax ≤ 2)%nat →
       Numpy.shape (Buffered.buffer self) = Buffered.buffer_dims self →
       (Buffered.index_entries ax ≤ length (Buffered.buffer_dims self))%nat →
       (1 < Numpy.ndim chunk)%nat ∨ ax = 0%nat →
       Numpy.broadcastable (Numpy.shape chunk) (Buffered.place self ax e)
       = true →
       ∃ self',
         Buffered.insert self chunk = Py.Ok self'
         ∧ Buffered.pos self' = (Buffered.pos self + e)%nat
         ∧ Buffered.overflow self' = false
         ∧ Buffered.insert_axis self' = Buffered.insert_axis self
         ∧ Buffered.buffer_dims self' = Buffered.buffer_dims self
         ∧ Buffered.data self' = Buffered.data self
         ∧ Numpy.shape (Buffered.buffer self')
           = Numpy.shape (Buffered.buffer self)
         ∧ (∃ got,
              Numpy.getitem_slice (Buffered.index_entries ax) ax
                (Buffered.pos self) (Buffered.pos self + e)
                (Buffered.buffer self') = Py.Ok got
              ∧ Numpy.array_equal got
                  (Numpy.broadcast (Buffered.place self ax e)
                     (Numpy.astype chunk)))
         ∧ (∀ idx,
              (∀ i, idx !! ax = Some i →
                    ¬ (Buffered.pos self ≤ i < Buffered.pos self + e)%nat) →
              Numpy.item (Buffered.buffer self') idx
              = Numpy.item (Buffered.buffer self) idx))
  ∧ Buffered.pos (Buffered.clear self) = 0%nat
  ∧ Buffered.overflow (Buffered.clear self) = false
  ∧ Numpy.shape (Buffered.buffer (Buffered.clear self))
    = Numpy.shape (Buffered.buffer self)
  ∧ (∀ idx, Numpy.item (Buffered.buffer (Buffered.clear self)) idx
            = Numpy.zero).
Proof.
  intros Hns Hcap.
  split; [|repeat split].
  destruct (Buffered.overflow self) eqn:Hov.
  { split; [apply insert_overflowed, Hov|].
    intros chunks. apply insert_all_overflowed, Hov. }
  destruct (cap <? Buffered.pos self + e)%nat eqn:E.
  { apply Nat.ltb_lt in E.
    apply (insert_too_much self chunk e cap); assumption. }
  apply Nat.ltb_ge in E.
  intros ax Hax Hle Hsh Hn _ Hb.
  assert (Hcap' : Buffered.buffer_dims self !! ax = Some cap).
  { unfold Buffered.capacity, Py.index in Hcap. rewrite Hax in Hcap.
    destruct (Z.of_nat ax <? 0) eqn:E0; [apply Z.ltb_lt in E0; lia|].
    destruct (_ && _); [|discriminate].
    rewrite Nat2Z.id in Hcap.
    destruct (Buffered.buffer_dims self !! ax); [|discriminate].
    congruence. }
  destruct (insert_within self chunk ax cap e) as (buf' & Hins & Hs' & Hit);
    try assumption.
  eexists. split; [exact Hins|]. simpl.
  repeat split; try congruence.
  - exists (Numpy.mkArray
              (<[ax := (Buffered.pos self + e - Buffered.pos self)%nat]>
                 (Numpy.shape buf'))
              (λ idx, Numpy.item buf' (alter (Nat.add (Buffered.pos self)) ax idx))).
    split.
    + apply (getitem_slice_within _ _ _ _ _ cap).
      * unfold Numpy.ndim. rewrite Hs'. exact Hn.
      * rewrite Hs'. exact Hcap'.
      * lia.
      * exact E.
    + split; simpl.
      * rewrite Hs'. unfold Buffered.place. f_equal. lia.
      * intros idx Hidx. rewrite Hit.
        replace (Buffered.pos self + e - Buffered.pos self)%nat with e
          in Hidx by lia.
        destruct (in_bounds_lookup _ idx ax e Hidx) as (i & Hi & Hlt).
        { rewrite Hs'. apply list_lookup_insert_eq.
          apply lookup_lt_Some in Hcap'. exact Hcap'. }
        apply (read_back ax _ e _ chunk _ idx i Hi Hlt).
  - intros idx Hout. rewrite Hit. unfold Buffered.written_at.
    destruct (idx !! ax) as [i|] eqn:Hi; [|reflexivity].
    specialize (Hout i eq_refl). nat_cases.
Qed.

Section buffered_invariants.

Import Py Numpy Buffered.

Context {A B : Type} `{Zero B} `{Cast A B}.
Implicit Types (self : BufferedArray B) (chunk : ndarray A) (buf : ndarray B).

Lemma setitem_slice_shape nidx ax lo hi buf chunk buf' :
  setitem_slice nidx ax lo hi buf chunk = Ok buf' → shape buf' = shape buf.
Proof.
  unfold setitem_slice, broadcast_to.
  destruct (ndim buf <? nidx)%nat; [discriminate|].
  destruct (shape buf !! ax); [|discriminate].
  destruct (broadcastable _ _); simpl; [|discriminate].
  intros [= <-]. reflexivity.
Qed.

Lemma write_slice_shape axis lo hi buf chunk buf' :
  write_slice axis lo hi buf chunk = Ok buf' → shape buf' = shape buf.
Proof.
  unfold write_slice.
  destruct (axis =? 0); [apply setitem_slice_shape|].
  destruct (axis =? 1); [apply setitem_slice_shape|].
  destruct (axis =? 2); [apply setitem_slice_shape|].
  intros [= <-]. reflexivity.
Qed.

(** A call of [insert] that returns leaves [insert_axis], [buffer_dims],
    [data] and the shape of the buffer as they were. *)
Lemma insert_preserves self chunk self' :
  insert self chunk = Ok self' →
  insert_axis self' = insert_axis self
  ∧ buffer_dims self' = buffer_dims self
  ∧ data self' = data self
  ∧ shape (buffer self') = shape (buffer self).
Proof.
  unfold insert. destruct (overflow self).
  { intros [= <-]. repeat split. }
  destruct (new_sample self chunk) as [e|]; simpl; [|discriminate].
  destruct (capacity self) as [cap|]; simpl; [|discriminate].
  destruct (cap <? pos self + e)%nat.
  { intros [= <-]. repeat split. }
  destruct (write_slice _ _ _ _ _) as [buf'|] eqn:Hw; simpl; [|discriminate].
  intros [= <-]. simpl. repeat split.
  apply (write_slice_shape _ _ _ _ _ _ Hw).
Qed.

Lemma set_data_preserves self self' :
  set_data self = Ok self' →
  insert_axis self' = insert_axis self
  ∧ buffer_dims self' = buffer_dims self
  ∧ buffer self' = buffer self
  ∧ pos self' = pos self
  ∧ overflow self' = overflow self.
Proof.
  unfold set_data. destruct (overflow self) eqn:Hov.
  { intros [= <-]. repeat split; congruence. }
  destruct (insert_axis self =? 0).
  { destruct (getitem_slice _ _ _ _ _); simpl; [|discriminate].
    intros [= <-]. simpl. repeat split; congruence. }
  destruct (insert_axis self =? 1).
  { destruct (getitem_slice _ _ _ _ _); simpl; [|discriminate].
    intros [= <-]. simpl. repeat split; congruence. }
  destruct (insert_axis self =? 2).
  { destruct (getitem_slice _ _ _ _ _); simpl; [|discriminate].
    intros [= <-]. simpl. repeat split; congruence. }
  intros [= <-]. repeat split; congruence.
Qed.

(** In every state the three methods lead to, the buffer has the shape it
    was created with. *)
Lemma run_ops_buffer_shape os : ∀ self self',
  shape (buffer self) = buffer_dims self →
  run_ops os self = Ok self' →
  shape (buffer self') = buffer_dims self'.
Proof.
  induction os as [|o os IH]; intros self self' Hsh; simpl.
  { intros [= <-]. exact Hsh. }
  destruct (run_op o self) as [self1|] eqn:Hop; simpl; [|discriminate].
  apply IH. destruct o as [c| |]; simpl in Hop.
  - apply insert_preserves in Hop as (_ & Hd & _ & Hs). congruence.
  - apply set_data_preserves in Hop as (_ & Hd & Hb & _). congruence.
  - injection Hop as <-. exact Hsh.
Qed.

Lemma insert_all_data chunks : ∀ self self',
  insert_all self chunks = Ok self' → data self' = data self.
Proof.
  induction chunks as [|c chunks IH]; intros self self'; simpl.
  { intros [= <-]. reflexivity. }
  destruct (insert self c) as [self1|] eqn:Hins; simpl; [|discriminate].
  intros Hrun. rewrite (IH _ _ Hrun).
  apply insert_preserves in Hins. tauto.
Qed.

(** When nothing but [insert] has been called since the array was
    created, [set_data] on overflow does leave [data] empty. *)
Lemma set_data_empty_on_first_overflow dims axis chunks self' :
  insert_all (BufferedArray_init dims axis) chunks = Ok self' →
  overflow self' = true →
  set_data self' = Ok self' ∧ size (data self') = 0%nat.
Proof.
  intros Hrun Hov. split.
  - unfold set_data. rewrite Hov. reflexivity.
  - rewrite (insert_all_data _ _ _ Hrun). reflexivity.
Qed.

End buffered_invariants.

Section buffered_runs.

Import Py Numpy Buffered.

Context {A B : Type} `{Zero B} `{Cast A B}.
Implicit Types (self : BufferedArray B) (chunk : ndarray A) (buf : ndarray B).

Lemma new_sample_axis self1 self2 chunk :
  insert_axis self1 = insert_axis self2 →
  new_sample self1 chunk = new_sample self2 chunk.
Proof. intros Heq. unfold new_sample. rewrite Heq. reflexivity. Qed.

Lemma insert_all_within chunks : ∀ es self ax cap,
  insert_axis self = Z.of_nat ax → (ax ≤ 2)%nat →
  shape (buffer self) = buffer_dims self →
  (index_entries ax ≤ length (buffer_dims self))%nat →
  buffer_dims self !! ax = Some cap →
  overflow self = false →
  Forall2 (fits (B:=B) (buffer_dims self) (insert_axis self) ax) chunks es →
  (pos self + sum_list es ≤ cap)%nat →
  ∃ self',
    insert_all self chunks = Ok self'
    ∧ overflow self' = false
    ∧ pos self' = (pos self + sum_list es)%nat
    ∧ insert_axis self' = insert_axis self
    ∧ buffer_dims self' = buffer_dims self
    ∧ shape (buffer self') = buffer_dims self
    ∧ data self' = data self
    ∧ ∀ idx,
        item (buffer self') idx =
        match idx !! ax with
        | Some i =>
            if (pos self <=? i)%nat && (i <? pos self + sum_list es)%nat
            then concat_item ax (stored (buffer_dims self) ax chunks es)
                             (alter (λ i, i - pos self)%nat ax idx)
            else item (buffer self) idx
        | None => item (buffer self) idx
        end.
Proof.
  induction chunks as [|c chunks IH];
    intros es self ax cap Hax Hle Hsh Hn Hcap Hov Hfits Hsum.
  - apply Forall2_nil_inv_l in Hfits as ->. simpl in *.
    exists self. repeat split; try lia; try assumption.
    intros idx. destruct (idx !! ax) as [i|]; [|reflexivity]. nat_cases.
  - apply Forall2_cons_inv_l in Hfits as (e & es' & [Hns Hb] & Hfits & ->).
    simpl in Hsum.
    assert (Hns' : new_sample self c = Ok e).
    { rewrite <- Hns. apply new_sample_axis. reflexivity. }
    assert (Hfit : (pos self + e ≤ cap)%nat) by lia.
    destruct (insert_within self c ax cap e Hax Hle Hsh Hn Hcap Hov Hns' Hfit Hb)
      as (buf1 & Hins & Hs1 & Hit1).
    simpl. rewrite Hins. simpl.
    set (self1 := mkBufferedArray _ _ buf1 _ false _).
    assert (Hsum1 : (pos self1 + sum_list es' ≤ cap)%nat) by (simpl; lia).
    destruct (IH es' self1 ax cap Hax Hle Hs1 Hn Hcap eq_refl Hfits Hsum1) as
      (self' & Hrun & Hov' & Hpos' & Hax' & Hdims' & Hs' & Hd' & Hit').
    exists self'. split; [exact Hrun|]. simpl in *.
    repeat split; try assumption; try lia.
    intros idx. rewrite Hit'. unfold stored; simpl.
    assert (He : (<[ax := e]> (buffer_dims self)) !! ax = Some e).
    { apply list_lookup_insert_eq. apply lookup_lt_Some in Hcap. exact Hcap. }
    rewrite Hit1. unfold written_at.
    destruct (idx !! ax) as [i|] eqn:Hi; [|reflexivity].
    rewrite He, list_lookup_alter_eq, Hi. simpl.
    nat_cases.
    f_equal. rewrite list_alter_alter_eq.
    apply list_alter_ext; [|reflexivity]. intros x _. simpl. lia.
Qed.

Lemma set_data_axis self ax :
  insert_axis self = Z.of_nat ax → (ax ≤ 2)%nat → overflow self = false →
  set_data self
  = d ← getitem_slice (index_entries ax) ax 0 (pos self) (buffer self);
    Ok (with_data self d).
Proof.
  intros Hax Hle Hov. unfold set_data. rewrite Hov, Hax.
  destruct ax as [|[|[|ax]]]; try reflexivity; lia.
Qed.

Lemma stored_extents dims ax (chunks : list (ndarray A)) : ∀ es,
  (ax < length dims)%nat → length chunks = length es →
  sum_list_with (extent ax) (stored dims ax chunks es) = sum_list es.
Proof.
  induction chunks as [|c chunks IH]; intros [|e es] Hax Hlen;
    simpl in *; try reflexivity; try discriminate.
  rewrite IH by (assumption || lia). f_equal.
  unfold extent; simpl. rewrite list_lookup_insert_eq by exact Hax.
  reflexivity.
Qed.

End buffered_runs.

Section concatenation_facts.

Import Py Numpy Buffered.

Context {A B : Type} `{Zero B} `{Cast A B}.

Lemma broadcast_index_rev_within sh : ∀ idx,
  Forall2 lt idx sh → broadcast_index_rev sh idx = idx.
Proof.
  induction sh as [|s sh IH]; intros idx Hb.
  - apply Forall2_nil_inv_r in Hb as ->. reflexivity.
  - apply Forall2_cons_inv_r in Hb as (i & idx' & Hlt & Hb & ->).
    simpl. rewrite (IH idx' Hb).
    destruct (s =? 1)%nat eqn:E; [|reflexivity].
    apply Nat.eqb_eq in E. f_equal. lia.
Qed.

Lemma broadcast_index_within sh idx :
  in_bounds sh idx → broadcast_index sh idx = idx.
Proof.
  intros Hb. unfold broadcast_index.
  rewrite broadcast_index_rev_within by (apply Forall2_reverse, Hb).
  apply reverse_involutive.
Qed.

(** A chunk that already has the shape of its place is stored as it is. *)
Lemma broadcast_same_shape (c : ndarray B) :
  array_equal (broadcast (shape c) c) c.
Proof.
  split; [reflexivity|]. intros idx Hb. simpl.
  rewrite broadcast_index_within by exact Hb. reflexivity.
Qed.

Lemma in_bounds_narrow dims ax n e idx i :
  in_bounds (<[ax := n]> dims) idx → idx !! ax = Some i → (i < e)%nat →
  in_bounds (<[ax := e]> dims) idx.
Proof.
  unfold in_bounds. rewrite !Forall2_same_length_lookup, !length_insert.
  intros [Hlen Hall] Hi Hlt. split; [exact Hlen|].
  intros k x y Hx Hy. destruct (decide (k = ax)) as [->|Hne].
  - assert (y = e) as ->.
    { apply lookup_lt_Some in Hy as Hk. rewrite length_insert in Hk.
      rewrite list_lookup_insert_eq in Hy by exact Hk. congruence. }
    congruence.
  - rewrite list_lookup_insert_ne in Hy by congruence.
    apply (Hall k x y Hx). rewrite list_lookup_insert_ne by congruence.
    exact Hy.
Qed.

Lemma in_bounds_shift dims ax n e idx i :
  in_bounds (<[ax := n]> dims) idx → idx !! ax = Some i → (e ≤ i)%nat →
  in_bounds (<[ax := (n - e)%nat]> dims) (alter (λ i, i - e)%nat ax idx).
Proof.
  unfold in_bounds.
  rewrite !Forall2_same_length_lookup, !length_insert, length_alter.
  intros [Hlen Hall] Hi Hle. split; [exact Hlen|].
  intros k x y Hx Hy. destruct (decide (k = ax)) as [->|Hne].
  - rewrite list_lookup_alter_eq, Hi in Hx. simpl in Hx.
    apply lookup_lt_Some in Hy as Hk. rewrite length_insert in Hk.
    rewrite list_lookup_insert_eq in Hy by exact Hk.
    assert (i < n)%nat.
    { apply (Hall ax i n Hi). apply list_lookup_insert_eq, Hk. }
    injection Hx as <-. injection Hy as <-. lia.
  - rewrite list_lookup_alter_ne in Hx by congruence.
    rewrite list_lookup_insert_ne in Hy by congruence.
    apply (Hall k x y Hx). rewrite list_lookup_insert_ne by congruence.
    exact Hy.
Qed.

Lemma concat_item_stored dims ax (chunks : list (ndarray A)) : ∀ es idx,
  (ax < length dims)%nat →
  Forall2 (λ c e, shape c = <[ax := e]> dims) chunks es →
  in_bounds (<[ax := sum_list es]> dims) idx →
  concat_item ax (stored dims ax chunks es) idx
  = concat_item ax (astype <$> chunks) idx.
Proof.
  induction chunks as [|c chunks IH]; intros es idx Hax Hsh Hb.
  - apply Forall2_nil_inv_l in Hsh as ->. reflexivity.
  - apply Forall2_cons_inv_l in Hsh as (e & es' & Hc & Hsh & ->).
    simpl in *. rewrite Hc. rewrite list_lookup_insert_eq by exact Hax.
    destruct (idx !! ax) as [i|] eqn:Hi; [|reflexivity].
    destruct (i <? e)%nat eqn:E.
    + apply Nat.ltb_lt in E. rewrite broadcast_index_within; [reflexivity|].
      apply (in_bounds_narrow _ _ _ _ _ i Hb Hi E).
    + apply Nat.ltb_ge in E. apply IH; [exact Hax | exact Hsh|].
      replace (sum_list es') with (e + sum_list es' - e)%nat by lia.
      apply (in_bounds_shift _ _ _ _ _ i Hb Hi E).
Qed.

End concatenation_facts.

(** C4, as amended.  A [BufferedArray] that is new or has just been
    cleared ([pos] is 0, [overflow] is false) has the insert axis [ax], one
    of 0, 1 and 2, and a buffer with the axes the branch for [ax] indexes.
    Chunks that have an extent axis (or any chunks, when [ax] is 0), of
    shapes numpy takes for their places (it can broadcast them) and of
    extents that add up to the capacity at most, are inserted.  Then every
    call returns, [overflow] is false, and [set_data] makes [data] the
    concatenation along [ax], in insertion order, of the chunks as they
    were converted to the array's dtype and broadcast; when every chunk
    has the shape of its place, that is the concatenation of the chunks
    converted to the dtype.  Chunks without extent axis given to an array
    of insert axis 1 or 2 are not spoken of. *)
Theorem set_data_concatenates_chunks
    {A B : Type} `{Numpy.Zero B} `{Numpy.Cast A B}
    (self : Buffered.BufferedArray B) (dims : list nat) (ax cap : nat)
    (chunks : list (Numpy.ndarray A)) (es : list nat) :
  Buffered.buffer_dims self = dims →
  Buffered.insert_axis self = Z.of_nat ax → (ax ≤ 2)%nat →
  Numpy.shape (Buffered.buffer self) = dims →
  (Buffered.index_entries ax ≤ length dims)%nat →
  dims !! ax = Some cap →
  Buffered.pos self = 0%nat → Buffered.overflow self = false →
  Forall2 (Buffered.fits (B:=B) dims (Z.of_nat ax) ax) chunks es →
  Forall (λ c, (1 < Numpy.ndim c)%nat ∨ ax = 0%nat) chunks →
  (sum_list es ≤ cap)%nat →
  ∃ self' self'',
    Buffered.insert_all self chunks = Py.Ok self'
    ∧ Buffered.overflow self' = false
    ∧ Buffered.set_data self' = Py.Ok self''
    ∧ Buffered.overflow self'' = false
    ∧ Numpy.array_equal (Buffered.data self'')
        (Numpy.concatenate dims ax (Buffered.stored dims ax chunks es))
    ∧ (Forall2 (λ c e, Numpy.shape c = <[ax := e]> dims) chunks es →
       Numpy.array_equal (Buffered.data self'')
         (Numpy.concatenate dims ax (Numpy.astype <$> chunks))).
Proof.
  intros <- Haxis0 Hle Hsh0 Hn Hcap Hpos0 Hov0 Hfits _ Hsum.
  set (dims := Buffered.buffer_dims self) in *.
  assert (Hax : (ax < length dims)%nat) by (apply lookup_lt_Some in Hcap; exact Hcap).
  assert (Hfits' : Forall2 (Buffered.fits (B:=B) (Buffered.buffer_dims self)
                              (Buffered.insert_axis self) ax) chunks es)
    by (rewrite Haxis0; exact Hfits).
  assert (Hsum' : (Buffered.pos self + sum_list es ≤ cap)%nat)
    by (rewrite Hpos0; exact Hsum).
  destruct (insert_all_within chunks es self ax cap
              Haxis0 Hle Hsh0 Hn Hcap Hov0 Hfits' Hsum')
    as (self' & Hrun & Hov & Hpos & Haxis & Hdims & Hsh & Hd & Hit).
  rewrite Hpos0 in Hpos, Hit. rewrite Haxis0 in Haxis.
  fold dims in Hsh, Hit. simpl in Hpos.
  exists self'. eexists. split; [exact Hrun|]. split; [exact Hov|].
  rewrite (set_data_axis self' ax Haxis Hle Hov).
  rewrite (getitem_slice_within _ _ _ _ _ cap);
    [ | unfold Numpy.ndim; rewrite Hsh; exact Hn | rewrite Hsh; exact Hcap
      | lia | lia ].
  simpl. split; [reflexivity|]. split; [exact Hov|].
  assert (Hitem : ∀ idx,
            Numpy.in_bounds (<[ax := sum_list es]> dims) idx →
            Numpy.item (Buffered.buffer self') (alter (Nat.add 0) ax idx)
            = Numpy.concat_item ax (Buffered.stored dims ax chunks es) idx).
  { intros idx Hb.
    rewrite list_alter_id by (intros x; reflexivity).
    rewrite Hit.
    destruct (in_bounds_lookup _ idx ax (sum_list es) Hb) as (i & Hi & Hlt);
      [apply list_lookup_insert_eq, Hax|].
    rewrite Hi. simpl.
    destruct (i <? sum_list es)%nat eqn:E; [|apply Nat.ltb_ge in E; lia].
    f_equal. apply list_alter_id. intros x. lia. }
  assert (Hshape : <[ax := (Buffered.pos self' - 0)%nat]>
                     (Numpy.shape (Buffered.buffer self'))
                   = <[ax := sum_list es]> dims).
  { rewrite Hsh, Hpos. f_equal. lia. }
  split.
  - split; simpl.
    + rewrite Hshape. f_equal. symmetry.
      apply stored_extents; [exact Hax | eapply Forall2_length, Hfits].
    + intros idx Hb. rewrite Hshape in Hb. apply Hitem, Hb.
  - intros Hshapes. split; simpl.
    + rewrite Hshape. f_equal.
      clear -Hshapes Hax. induction Hshapes as [|c e cs es' Hc _ IH];
        [reflexivity|].
      rewrite fmap_cons. cbn [sum_list_with]. rewrite <- IH. f_equal.
      unfold Numpy.extent. simpl.
      rewrite Hc, list_lookup_insert_eq by exact Hax. reflexivity.
    + intros idx Hb. rewrite Hshape in Hb.
      etransitivity; [apply (Hitem idx Hb)|].
      apply concat_item_stored; assumption.
Qed.

(** A buffer of shape (2, 3) and the default dtype, filled along axis 1,
    and a chunk of integers of shape (2, 2): the chunk fits, [pos] becomes
    2. *)
Lemma insert_all_or_nothing_witness :
  ∃ self',
    Buffered.insert (Buffered.BufferedArray_init [2; 3]%nat 1)
                    (Numpy.full [2; 2]%nat 7)
    = Py.Ok self'
    ∧ Buffered.pos self' = 2%nat
    ∧ Buffered.overflow self' = false
    ∧ Numpy.item (Buffered.buffer self') [1; 1]%nat = 7
    ∧ Numpy.item (Buffered.buffer self') [1; 2]%nat = 0.
Proof.
  destruct (insert_all_or_nothing
              (Buffered.BufferedArray_init [2; 3]%nat 1)
              (Numpy.full [2; 2]%nat 7) 2 3 eq_refl eq_refl)
    as [Hwrite _].
  destruct (Hwrite 1%nat) as (self' & Hins & Hpos & Hov & _);
    [ reflexivity | lia | reflexivity | simpl; lia
    | left; unfold Numpy.ndim; simpl; lia
    | reflexivity | ].
  exists self'. split; [exact Hins|].
  split; [exact Hpos|]. split; [exact Hov|].
  vm_compute in Hins. injection Hins as <-. split; reflexivity.
Defined.

(** C3 as stated fails in four ways.

    For an insert axis that [insert] has no branch for:
    [BufferedArray(buffer_dims=(1, 2), insert_axis=-1)] takes the extent
    and the capacity from the last axis, as Python indexing does; a chunk
    of shape (1, 1) holding 7 does not exceed the capacity, [pos] advances
    to 1, and the buffer still holds 0 where the chunk should be.

    For a value the array's dtype does not have: in
    [BufferedArray(buffer_dims=(1, 2))], of dtype float32, the chunk of
    shape (1, 1) holding 16777217 is stored as 16777216.

    For a chunk of a shape numpy does not take for the place: in
    [BufferedArray(buffer_dims=(2, 3))] the chunk of shape (3, 1), of
    extent 1, does not exceed the capacity, and [insert] raises
    [ValueError].

    For a buffer without the axes the branch indexes: in
    [BufferedArray(buffer_dims=(3,), insert_axis=0)] the chunk of shape
    (1,) does not exceed the capacity, and [insert] raises
    [IndexError]. *)
Lemma insert_on_axis_without_branch_writes_nothing :
  (let self := Buffered.BufferedArray_init [1; 2]%nat (-1) in
   let chunk := Numpy.full [1; 1]%nat 7 in
   Buffered.new_sample self chunk = Py.Ok 1%nat
   ∧ Buffered.capacity self = Py.Ok 2%nat
   ∧ ∃ self',
       Buffered.insert self chunk = Py.Ok self'
       ∧ Buffered.overflow self' = false
       ∧ Buffered.pos self' = 1%nat
       ∧ Numpy.item chunk [0; 0]%nat = 7
       ∧ Numpy.item (Buffered.buffer self') [0; 0]%nat = 0
       ∧ Numpy.item (Buffered.buffer self') [0; 0]%nat
         ≠ Numpy.item chunk [0; 0]%nat)
  ∧ (let self := Buffered.BufferedArray_init [1; 2]%nat 1 in
     let chunk := Numpy.full [1; 1]%nat 16777217 in
     Buffered.new_sample self chunk = Py.Ok 1%nat
     ∧ Buffered.capacity self = Py.Ok 2%nat
     ∧ ∃ self',
         Buffered.insert self chunk = Py.Ok self'
         ∧ Buffered.pos self' = 1%nat
         ∧ Numpy.item chunk [0; 0]%nat = 16777217
         ∧ Numpy.item (Buffered.buffer self') [0; 0]%nat = 16777216)
  ∧ (let self := Buffered.BufferedArray_init [2; 3]%nat 1 in
     let chunk := Numpy.full [3; 1]%nat 7 in
     Buffered.new_sample self chunk = Py.Ok 1%nat
     ∧ Buffered.capacity self = Py.Ok 3%nat
     ∧ Buffered.overflow self = false
     ∧ Buffered.insert self chunk = Py.Raise Py.ValueError)
  ∧ (let self := Buffered.BufferedArray_init [3]%nat 0 in
     let chunk := Numpy.full [1]%nat 7 in
     Buffered.new_sample self chunk = Py.Ok 1%nat
     ∧ Buffered.capacity self = Py.Ok 3%nat
     ∧ Buffered.overflow self = false
     ∧ Buffered.insert self chunk = Py.Raise Py.IndexError).
Proof.
  split; [|split; [|split]].
  - repeat split. eexists. split; [reflexivity|]. repeat split.
    simpl. discriminate.
  - repeat split. eexists. split; [reflexivity|]. repeat split.
  - repeat split.
  - repeat split.
Qed.

(** A chunk that is a single sample without an extent axis gets the extent
    1 from [insert].  With the insert axis 0 the sample becomes a row of
    the buffer. *)
Lemma insert_sample_without_extent_axis_on_axis_0 :
  ∃ self',
    Buffered.insert (Buffered.BufferedArray_init [2; 3]%nat 0)
                    (Numpy.full [3]%nat 5)
    = Py.Ok self'
    ∧ Buffered.pos self' = 1%nat
    ∧ Numpy.item (Buffered.buffer self') [0; 2]%nat = 5.
Proof. eexists. split; [reflexivity|]. split; reflexivity. Qed.

(** With the default insert axis 1 and a buffer of more than one row, the
    same kind of sample cannot be broadcast to its place, of shape
    (rows, 1): the assignment raises [ValueError]. *)
Lemma insert_sample_without_extent_axis_raises :
  Buffered.new_sample (Buffered.BufferedArray_init (B:=Z) [2; 3]%nat 1)
                      (Numpy.full [2]%nat 5) = Py.Ok 1%nat
  ∧ Buffered.insert (Buffered.BufferedArray_init [2; 3]%nat 1)
                    (Numpy.full [2]%nat 5)
    = Py.Raise Py.ValueError.
Proof. split; reflexivity. Qed.

(** Two chunks of integers, of extents 1 and 2, into a buffer of shape
    (2, 3) and the default dtype, filled along axis 1. *)
Lemma set_data_concatenates_chunks_witness :
  ∃ self' self'',
    Buffered.insert_all (Buffered.BufferedArray_init [2; 3]%nat 1)
      [Numpy.full [2; 1]%nat 5; Numpy.full [2; 2]%nat 7]
    = Py.Ok self'
    ∧ Buffered.set_data self' = Py.Ok self''
    ∧ Numpy.shape (Buffered.data self'') = [2; 3]%nat
    ∧ Numpy.item (Buffered.data self'') [1; 0]%nat = 5
    ∧ Numpy.item (Buffered.data self'') [1; 2]%nat = 7.
Proof.
  assert (Hfits : Forall2 (Buffered.fits (B:=Z) [2; 3]%nat (Z.of_nat 1) 1)
                    [Numpy.full [2; 1]%nat 5; Numpy.full [2; 2]%nat 7]
                    [1; 2]%nat).
  { repeat constructor. }
  assert (Hext : Forall (λ c : Numpy.ndarray Z,
                           (1 < Numpy.ndim c)%nat ∨ 1%nat = 0%nat)
                   [Numpy.full [2; 1]%nat 5; Numpy.full [2; 2]%nat 7]).
  { repeat constructor; left; unfold Numpy.ndim; simpl; lia. }
  destruct (set_data_concatenates_chunks
              (Buffered.BufferedArray_init [2; 3]%nat 1) [2; 3]%nat 1 3
              [Numpy.full [2; 1]%nat 5; Numpy.full [2; 2]%nat 7] [1; 2]%nat
              eq_refl eq_refl ltac:(lia) eq_refl ltac:(simpl; lia) eq_refl
              eq_refl eq_refl Hfits Hext ltac:(simpl; lia))
    as (self' & self'' & Hrun & _ & Hset & _ & [Hshape Hitems] & _).
  exists self', self''. split; [exact Hrun|]. split; [exact Hset|].
  split; [exact Hshape|]. split.
  - rewrite Hitems; [reflexivity|]. rewrite Hshape. repeat constructor.
  - rewrite Hitems; [reflexivity|]. rewrite Hshape. repeat constructor.
Defined.

(** C4 as stated fails in four ways.

    For an insert axis that [insert] and [set_data] have no branch for:
    after a chunk of shape (1, 1) has been inserted into
    [BufferedArray(buffer_dims=(1, 2), insert_axis=-1)], [overflow] is
    false and [set_data] leaves [data] as it was created, with shape
    (0, 0): not the chunk.

    For a value the array's dtype does not have: after the chunk of shape
    (1, 1) holding 16777217 has been inserted into
    [BufferedArray(buffer_dims=(1, 2))], of dtype float32, [set_data]
    makes [data] the array of shape (1, 1) holding 16777216: not the
    chunk.

    For a chunk of a shape numpy does not take for its place: in
    [BufferedArray(buffer_dims=(2, 3))] the chunk of shape (3, 1), of
    extent 1, is within the capacity, and its [insert] raises
    [ValueError].

    For a buffer without the axes the branch indexes: in
    [BufferedArray(buffer_dims=(3,), insert_axis=0)] the chunk of shape
    (1,) is within the capacity, and its [insert] raises [IndexError]. *)
Lemma set_data_on_axis_without_branch_yields_nothing :
  (let chunk := Numpy.full [1; 1]%nat 7 in
   ∃ self' self'',
     Buffered.insert_all (Buffered.BufferedArray_init [1; 2]%nat (-1)) [chunk]
     = Py.Ok self'
     ∧ Buffered.overflow self' = false
     ∧ Buffered.set_data self' = Py.Ok self''
     ∧ Numpy.shape (Buffered.data self'') = [0; 0]%nat
     ∧ Numpy.size (Buffered.data self'') = 0%nat
     ∧ Numpy.size (Numpy.concatenate [1; 2]%nat 1 [chunk]) = 1%nat
     ∧ ¬ Numpy.array_equal (Buffered.data self'')
           (Numpy.concatenate [1; 2]%nat 1 [chunk]))
  ∧ (let chunk := Numpy.full [1; 1]%nat 16777217 in
     ∃ self' self'',
       Buffered.insert_all (Buffered.BufferedArray_init [1; 2]%nat 1) [chunk]
       = Py.Ok self'
       ∧ Buffered.overflow self' = false
       ∧ Buffered.set_data self' = Py.Ok self''
       ∧ Numpy.shape (Buffered.data self'') = [1; 1]%nat
       ∧ Numpy.item (Buffered.data self'') [0; 0]%nat = 16777216
       ∧ Numpy.item (Numpy.concatenate [1; 2]%nat 1 [chunk]) [0; 0]%nat
         = 16777217
       ∧ ¬ Numpy.array_equal (Buffered.data self'')
             (Numpy.concatenate [1; 2]%nat 1 [chunk]))
  ∧ (let self := Buffered.BufferedArray_init [2; 3]%nat 1 in
     let chunk := Numpy.full [3; 1]%nat 7 in
     Buffered.new_sample self chunk = Py.Ok 1%nat
     ∧ Buffered.capacity self = Py.Ok 3%nat
     ∧ Buffered.insert_all self [chunk] = Py.Raise Py.ValueError)
  ∧ (let self := Buffered.BufferedArray_init [3]%nat 0 in
     let chunk := Numpy.full [1]%nat 7 in
     Buffered.new_sample self chunk = Py.Ok 1%nat
     ∧ Buffered.capacity self = Py.Ok 3%nat
     ∧ Buffered.insert_all self [chunk] = Py.Raise Py.IndexError).
Proof.
  split; [|split; [|split]].
  - eexists _, _. split; [reflexivity|]. split; [reflexivity|].
    split; [reflexivity|]. repeat split.
    intros [Hshape _]. discriminate Hshape.
  - eexists _, _. split; [reflexivity|]. split; [reflexivity|].
    split; [reflexivity|]. repeat split.
    intros [_ Hitem]. specialize (Hitem [0; 0]%nat).
    simpl in Hitem. assert (Hb : Numpy.in_bounds [1; 1]%nat [0; 0]%nat)
      by (repeat constructor).
    specialize (Hitem Hb). vm_compute in Hitem. discriminate Hitem.
  - repeat split.
  - repeat split.
Qed.

(** C5, at the failing input.  On [BufferedArray(buffer_dims=(1, 2))]: a
    chunk of extent 1 is inserted, [set_data] is called, a chunk of extent
    2 is inserted (which sets [overflow]), and [set_data] is called again.
    [overflow] is then true, and [data] is not empty: it still is what the
    first [set_data] made it. *)
Theorem set_data_after_overflow_keeps_earlier_data :
  ∃ self',
    Buffered.run_ops
      [Buffered.Insert (Numpy.full [1; 1]%nat 7); Buffered.SetData;
       Buffered.Insert (Numpy.full [1; 2]%nat 9); Buffered.SetData]
      (Buffered.BufferedArray_init [1; 2]%nat 1)
    = Py.Ok self'
    ∧ Buffered.overflow self' = true
    ∧ Numpy.shape (Buffered.data self') = [1; 1]%nat
    ∧ Numpy.size (Buffered.data self') = 1%nat
    ∧ Numpy.item (Buffered.data self') [0; 0]%nat = 7.
Proof.
  eexists. split; [reflexivity|]. repeat split.
Qed.

(** ** [Design], [Block], [Trial] *)

Section container_facts.

Import Containers.

Context {G : Type}.
Implicit Types (w : World G) (b : Block) (d : gmap string value).

Lemma update_index_lookup bi ti d :
  update_index bi ti d !! "block" = Some (VInt bi)
  ∧ update_index bi ti d !! "trial" = Some (VInt ti)
  ∧ ∀ k, k ≠ "block" → k ≠ "trial" → update_index bi ti d !! k = d !! k.
Proof.
  unfold update_index. split; [|split].
  - rewrite lookup_insert_ne by discriminate. apply lookup_insert_eq.
  - apply lookup_insert_eq.
  - intros k Hb Ht. rewrite !lookup_insert_ne by congruence. reflexivity.
Qed.

Lemma add_block_spec (self : Design) w :
  ∃ blk w',
    add_block self w = (self ++ [blk], blk, w')
    ∧ (self ++ [blk]) !! length self = Some blk
    ∧ blocks w !! blk = None
    ∧ blocks w' !! blk = Some (mkBlock (Z.of_nat (length self)) [])
    ∧ dicts w' = dicts w.
Proof.
  unfold add_block. eexists _, _. split; [reflexivity|]. simpl.
  split; [apply list_lookup_middle; reflexivity|].
  split; [apply not_elem_of_dom, is_fresh|].
  split; [apply lookup_insert_eq | reflexivity].
Qed.

End container_facts.

(** C8.  [Design.add_block] makes a block whose [index] is the position it
    takes in the design.  [add_trial] on a block, with the caller's
    dictionary [d], appends a trial to the block; the trial holds that
    dictionary, which now maps ['block'] to the block's index and
    ['trial'] to the number of trials the block had, whatever [d] had for
    these two keys, and is as [d] for every other key.  Without a
    dictionary the trial gets a new one with these two keys only.  In
    particular [Design().add_block().add_trial({'target': 3}).attrs] is
    [{'target': 3, 'block': 0, 'trial': 0}]. *)
Theorem add_trial_sets_block_and_trial
    {G : Type} (w : Containers.World G) (design : Containers.Design)
    (self r : Containers.ref) (b : Containers.Block)
    (d : gmap string Containers.value) :
  Containers.blocks w !! self = Some b →
  Containers.dicts w !! r = Some d →
  (∃ blk w',
     Containers.add_block design w = (design ++ [blk], blk, w')
     ∧ (design ++ [blk]) !! length design = Some blk
     ∧ Containers.blocks w' !! blk
       = Some (Containers.mkBlock (Z.of_nat (length design)) []))
  ∧ (∃ trial w' d',
       Containers.add_trial self (Some r) w = Some (trial, w')
       ∧ Containers.attrs trial = r
       ∧ Containers.blocks w' !! self
         = Some (Containers.mkBlock (Containers.index b)
                   (Containers.trials b ++ [trial]))
       ∧ Containers.dicts w' !! r = Some d'
       ∧ d' !! "block" = Some (Containers.VInt (Containers.index b))
       ∧ d' !! "trial"
         = Some (Containers.VInt
                   (Z.of_nat (length (Containers.trials b))))
       ∧ ∀ k, k ≠ "block" → k ≠ "trial" → d' !! k = d !! k)
  ∧ (∃ trial w',
       Containers.add_trial self None w = Some (trial, w')
       ∧ Containers.dicts w !! Containers.attrs trial = None
       ∧ Containers.blocks w' !! self
         = Some (Containers.mkBlock (Containers.index b)
                   (Containers.trials b ++ [trial]))
       ∧ Containers.dicts w' !! Containers.attrs trial
         = Some (Containers.update_index (Containers.index b)
                   (Z.of_nat (length (Containers.trials b))) ∅))
  ∧ (∀ g : G,
       let target3 : gmap string Containers.value :=
         {[ "target" := Containers.VInt 3 ]} in
       let w0 := Containers.mkWorld {[ 0%nat := target3 ]} ∅ g in
       ∃ blk w1 trial w2,
         Containers.add_block [] w0 = ([blk], blk, w1)
         ∧ Containers.add_trial blk (Some 0%nat) w1 = Some (trial, w2)
         ∧ Containers.dicts w2 !! Containers.attrs trial
           = Some {[ "target" := Containers.VInt 3;
                     "block" := Containers.VInt 0;
                     "trial" := Containers.VInt 0 ]}).
Proof.
  intros Hb Hd. split; [|split; [|split]].
  - destruct (add_block_spec design w) as (blk & w' & Hadd & Hpos & _ & Hblk & _).
    exists blk, w'. split; [exact Hadd|]. split; [exact Hpos | exact Hblk].
  - unfold Containers.add_trial. rewrite Hb.
    eexists _, _, _. split; [reflexivity|]. simpl.
    split; [reflexivity|]. split; [apply lookup_insert_eq|].
    split; [rewrite lookup_alter_eq, Hd; reflexivity|].
    apply update_index_lookup.
  - unfold Containers.add_trial. rewrite Hb.
    eexists _, _. split; [reflexivity|]. simpl.
    split; [apply not_elem_of_dom, is_fresh|].
    split; [apply lookup_insert_eq|].
    rewrite lookup_alter_eq, lookup_insert_eq. reflexivity.
  - intros g target3 w0.
    destruct (add_block_spec [] w0) as (blk & w1 & Hadd & _ & _ & Hblk & Hds).
    exists blk, w1. unfold Containers.add_trial. rewrite Hblk.
    eexists _, _. split; [exact Hadd|]. split; [reflexivity|]. simpl.
    rewrite lookup_alter_eq, Hds. reflexivity.
Qed.

(** A store with one empty block, of index 4, and the dictionary
    [{'block': 9}]: the caller's value for ['block'] is overwritten. *)
Lemma add_trial_sets_block_and_trial_witness :
  ∃ trial w' d',
    Containers.add_trial 0%nat (Some 0%nat)
      (Containers.mkWorld
         {[ 0%nat := ({[ "block" := Containers.VInt 9 ]}
                       : gmap string Containers.value) ]}
         {[ 0%nat := Containers.mkBlock 4 [] ]} tt)
    = Some (trial, w')
    ∧ Containers.dicts w' !! 0%nat = Some d'
    ∧ d' !! "block" = Some (Containers.VInt 4)
    ∧ d' !! "trial" = Some (Containers.VInt 0).
Proof.
  assert (Hb : ({[ 0%nat := Containers.mkBlock 4 [] ]}
                 : gmap Containers.ref Containers.Block) !! 0%nat
               = Some (Containers.mkBlock 4 []))
    by reflexivity.
  assert (Hd : ({[ 0%nat := {[ "block" := Containers.VInt 9 ]} ]}
                 : gmap Containers.ref (gmap string Containers.value))
               !! 0%nat
               = Some {[ "block" := Containers.VInt 9 ]})
    by reflexivity.
  destruct (add_trial_sets_block_and_trial
              (Containers.mkWorld _ _ tt) [] 0%nat 0%nat _ _ Hb Hd)
    as (_ & (trial & w' & d' & Hadd & _ & _ & Hd' & Hblock & Htrial & _) & _).
  exists trial, w', d'. repeat split; assumption.
Defined.

Section shuffle_facts.

Import Containers.

Context {G : Type}.
Variable seed_rng : Z → G.
Variable randbelow : G → nat → nat * G.

Lemma swap_fmap {T U : Type} (f : T → U) (x : list T) i j :
  swap (f <$> x) i j = f <$> swap x i j.
Proof.
  unfold swap. rewrite !list_lookup_fmap.
  destruct (x !! i) as [a|]; simpl; [|reflexivity].
  destruct (x !! j) as [b|]; simpl; [|reflexivity].
  rewrite !list_fmap_insert. reflexivity.
Qed.

Lemma swap_length {T : Type} (x : list T) i j :
  length (swap x i j) = length x.
Proof.
  unfold swap. destruct (x !! i); [|reflexivity].
  destruct (x !! j); [|reflexivity].
  rewrite !length_insert. reflexivity.
Qed.

(** The loop of [random.shuffle] moves the items without looking at
    them. *)
Lemma shuffle_loop_fmap {T U : Type} (f : T → U) i : ∀ g (x : list T),
  shuffle_loop randbelow i g (f <$> x)
  = (f <$> fst (shuffle_loop randbelow i g x),
     snd (shuffle_loop randbelow i g x)).
Proof.
  induction i as [|i IH]; intros g x; simpl; [reflexivity|].
  destruct (randbelow g _) as [j g']; simpl.
  rewrite swap_fmap. apply IH.
Qed.

Lemma shuffle_loop_length {T : Type} i : ∀ g (x : list T),
  length (fst (shuffle_loop randbelow i g x)) = length x.
Proof.
  induction i as [|i IH]; intros g x; simpl; [reflexivity|].
  destruct (randbelow g _) as [j g']; simpl.
  rewrite IH. apply swap_length.
Qed.

Lemma random_shuffle_fmap {T U : Type} (f : T → U) g (x : list T) :
  random_shuffle randbelow g (f <$> x)
  = (f <$> fst (random_shuffle randbelow g x),
     snd (random_shuffle randbelow g x)).
Proof.
  unfold random_shuffle. rewrite length_fmap. apply shuffle_loop_fmap.
Qed.

Lemma lookups_of_positions {T : Type} (x : list T) :
  Some <$> x = (λ j, x !! j) <$> seq 0 (length x).
Proof.
  apply list_eq. intros k. rewrite !list_lookup_fmap.
  destruct (decide (k < length x)%nat) as [Hlt|Hge].
  - rewrite lookup_seq_lt by exact Hlt. simpl.
    destruct (lookup_lt_is_Some_2 x k Hlt) as [t Ht]. rewrite Ht. reflexivity.
  - rewrite lookup_seq_ge by lia. rewrite lookup_ge_None_2 by lia. reflexivity.
Qed.

(** Position [k] of the shuffled list holds the item that was at the
    position the generator's order gives for [k]. *)
Lemma random_shuffle_order {T : Type} (s : Z) (x : list T) k :
  fst (random_shuffle randbelow (seed_rng s) x) !! k
  = shuffle_order seed_rng randbelow s (length x) !! k ≫= (λ j, x !! j).
Proof.
  pose proof (random_shuffle_fmap Some (seed_rng s) x) as H1.
  rewrite lookups_of_positions, random_shuffle_fmap in H1.
  injection H1 as H1 _. fold (shuffle_order seed_rng randbelow s (length x)) in H1.
  apply (f_equal (λ l, l !! k)) in H1. rewrite !list_lookup_fmap in H1.
  destruct (shuffle_order seed_rng randbelow s (length x) !! k) as [j|];
    simpl in *.
  - destruct (fst (random_shuffle randbelow (seed_rng s) x) !! k);
      simpl in H1; congruence.
  - destruct (fst (random_shuffle randbelow (seed_rng s) x) !! k);
      simpl in H1; congruence.
Qed.

End shuffle_facts.

(** C9.  [shuffle(seed=s)] on a block puts at every position [k] the trial
    that was at position [shuffle_order s n !! k], where [n] is the number
    of trials: an order that depends on the seed and on [n] only, not on
    the state the generator was in, the store, the block or its trials.
    So two blocks with the same trials, shuffled with the same seed (each
    from any state of the store and of the generator, with or without
    [reset_index]), end with the same trials in the same order. *)
Theorem shuffle_with_seed_is_reproducible
    {G : Type} (seed_rng : Z → G) (randbelow : G → nat → nat * G)
    (s : Z) (w1 w2 : Containers.World G) (blk1 blk2 : Containers.ref)
    (b1 b2 : Containers.Block) (reset1 reset2 : bool) :
  Containers.blocks w1 !! blk1 = Some b1 →
  Containers.blocks w2 !! blk2 = Some b2 →
  ∃ w1' w2' b1' b2',
    Containers.shuffle seed_rng randbelow blk1 reset1 (Some s) w1 = Some w1'
    ∧ Containers.shuffle seed_rng randbelow blk2 reset2 (Some s) w2 = Some w2'
    ∧ Containers.blocks w1' !! blk1 = Some b1'
    ∧ Containers.blocks w2' !! blk2 = Some b2'
    ∧ (∀ k,
         Containers.trials b1' !! k
         = Containers.shuffle_order seed_rng randbelow s
             (length (Containers.trials b1)) !! k
           ≫= (λ j, Containers.trials b1 !! j))
    ∧ (∀ k,
         Containers.trials b2' !! k
         = Containers.shuffle_order seed_rng randbelow s
             (length (Containers.trials b2)) !! k
           ≫= (λ j, Containers.trials b2 !! j))
    ∧ (Containers.trials b1 = Containers.trials b2 →
       Containers.trials b1' = Containers.trials b2').
Proof.
  intros Hb1 Hb2. unfold Containers.shuffle. rewrite Hb1, Hb2.
  destruct (Containers.random_shuffle randbelow (seed_rng s)
              (Containers.trials b1)) as [ts1 g1] eqn:E1.
  destruct (Containers.random_shuffle randbelow (seed_rng s)
              (Containers.trials b2)) as [ts2 g2] eqn:E2.
  eexists _, _, _, _. split; [reflexivity|]. split; [reflexivity|].
  simpl. split; [apply lookup_insert_eq|]. split; [apply lookup_insert_eq|].
  simpl. split; [|split].
  - intros k. rewrite <- (random_shuffle_order seed_rng randbelow), E1.
    reflexivity.
  - intros k. rewrite <- (random_shuffle_order seed_rng randbelow), E2.
    reflexivity.
  - intros Heq. rewrite Heq, E2 in E1. congruence.
Qed.

(** Two stores, with generators in different states; in each a block of
    the same three trials, under different references and with different
    indices. *)
Lemma shuffle_with_seed_is_reproducible_witness :
  let ts := [Containers.mkTrial 0%nat ∅; Containers.mkTrial 1%nat ∅;
             Containers.mkTrial 2%nat ∅] in
  let w1 := Containers.mkWorld ∅ {[ 0%nat := Containers.mkBlock 0 ts ]}
              5%nat in
  let w2 := Containers.mkWorld ∅ {[ 3%nat := Containers.mkBlock 1 ts ]}
              8%nat in
  ∃ w1' w2' b1' b2',
    Containers.shuffle Containers.counting_seed Containers.counting_randbelow
      0%nat true (Some 7) w1 = Some w1'
    ∧ Containers.shuffle Containers.counting_seed
        Containers.counting_randbelow 3%nat false (Some 7) w2 = Some w2'
    ∧ Containers.blocks w1' !! 0%nat = Some b1'
    ∧ Containers.blocks w2' !! 3%nat = Some b2'
    ∧ Containers.trials b1' = Containers.trials b2'
    ∧ Containers.trials b1'
      = [Containers.mkTrial 2%nat ∅; Containers.mkTrial 0%nat ∅;
         Containers.mkTrial 1%nat ∅].
Proof.
  intros ts w1 w2.
  assert (Hb1 : Containers.blocks w1 !! 0%nat
                = Some (Containers.mkBlock 0 ts)) by reflexivity.
  assert (Hb2 : Containers.blocks w2 !! 3%nat
                = Some (Containers.mkBlock 1 ts)) by reflexivity.
  destruct (shuffle_with_seed_is_reproducible
              Containers.counting_seed Containers.counting_randbelow 7
              w1 w2 0%nat 3%nat _ _ true false Hb1 Hb2)
    as (w1' & w2' & b1' & b2' & H1 & H2 & Hb1' & Hb2' & _ & _ & Heq).
  exists w1', w2', b1', b2'.
  split; [exact H1|]. split; [exact H2|].
  split; [exact Hb1'|]. split; [exact Hb2'|].
  split; [apply Heq; reflexivity|].
  vm_compute in H1. injection H1 as <-.
  vm_compute in Hb1'. injection Hb1' as <-. reflexivity.
Defined.

(** * Further properties *)

(** ** [Counter] and [StepCounter], further *)

Section counter_further.

Import Timing.

Lemma increments_keep_settings n : ∀ c,
  max_count (fst (increments n c)) = max_count c
  ∧ reset_on_timeout (fst (increments n c)) = reset_on_timeout c.
Proof.
  induction n as [|n IH]; intros c; simpl; [split; reflexivity|].
  destruct (increment c) as [c1 evs] eqn:E1.
  specialize (IH c1). destruct (increments n c1) as [c2 rest]. simpl in *.
  assert (max_count c1 = max_count c ∧ reset_on_timeout c1 = reset_on_timeout c)
    as [Hm Hr].
  { unfold increment in E1. simpl in E1.
    destruct (count c + 1 =? max_count c);
      [destruct (reset_on_timeout c)|]; injection E1 as <- _; split; reflexivity. }
  destruct IH as [IHm IHr]. split; congruence.
Qed.

Lemma increments_without_reset n : ∀ c,
  reset_on_timeout c = false →
  count (fst (increments n c)) = count c + Z.of_nat n
  ∧ ∀ k, (k < n)%nat →
      snd (increments n c) !! k
      = Some (if count c + Z.of_nat (S k) =? max_count c
              then [Timeout] else []).
Proof.
  induction n as [|n IH]; intros c Hr; simpl.
  - split; [lia | intros k Hk; lia].
  - destruct (increment c) as [c1 evs] eqn:E1.
    assert (Hc1 : c1 = mkCounter (count c + 1) (max_count c) false
                  ∧ evs = if count c + 1 =? max_count c then [Timeout] else []).
    { unfold increment in E1. simpl in E1. rewrite Hr in E1.
      destruct (count c + 1 =? max_count c); injection E1 as <- <-;
        split; reflexivity. }
    destruct Hc1 as [-> ->].
    specialize (IH (mkCounter (count c + 1) (max_count c) false) eq_refl).
    destruct (increments n _) as [c2 rest]. simpl in *.
    destruct IH as [Hcount Hk]. split; [lia|].
    intros [|k] Hlt; simpl.
    + replace (count c + Z.of_nat 1) with (count c + 1) by lia. reflexivity.
    + rewrite Hk by lia.
      replace (count c + 1 + Z.of_nat (S k)) with (count c + Z.of_nat (S (S k)))
        by lia.
      reflexivity.
Qed.

End counter_further.

(** X1.  A counter created with [reset_on_timeout=False] counts on past
    [max_count]: after [n] calls of [increment] its count is [n], and
    [timeout] is emitted by the call that reaches [max_count] and by no
    other. *)
Theorem counter_without_reset_times_out_once
    (m : Z) (c : Timing.Counter) (n : nat) :
  Timing.Counter_init m false = Some c →
  Timing.count (fst (Timing.increments n c)) = Z.of_nat n
  ∧ ∀ k, (k < n)%nat →
      snd (Timing.increments n c) !! k
      = Some (if Z.of_nat (S k) =? m then [Timing.Timeout] else []).
Proof.
  unfold Timing.Counter_init. destruct (m <? 1); [discriminate|].
  intros [= <-].
  destruct (increments_without_reset n (Timing.mkCounter 0 m false) eq_refl)
    as [Hcount Hk].
  simpl in Hcount, Hk. split; [lia|].
  intros k Hlt. rewrite Hk by exact Hlt. reflexivity.
Qed.

Lemma counter_without_reset_times_out_once_witness :
  Timing.count
    (fst (Timing.increments 7 (Timing.mkCounter 0 3 false))) = Z.of_nat 7
  ∧ ∀ k, (k < 7)%nat →
      snd (Timing.increments 7 (Timing.mkCounter 0 3 false)) !! k
      = Some (if Z.of_nat (S k) =? 3 then [Timing.Timeout] else []).
Proof.
  apply (counter_without_reset_times_out_once 3). reflexivity.
Defined.

(** X2.  [reset] puts a counter back into the state it was created in,
    however many times it has been incremented since, with either setting
    of [reset_on_timeout]; in particular it arms [timeout] again for a
    counter that does not reset itself. *)
Theorem reset_restores_created_counter
    (m : Z) (r : bool) (c : Timing.Counter) (n : nat) :
  Timing.Counter_init m r = Some c →
  Timing.reset (fst (Timing.increments n c)) = c.
Proof.
  unfold Timing.Counter_init. destruct (m <? 1); [discriminate|].
  intros [= <-]. unfold Timing.reset.
  destruct (increments_keep_settings n (Timing.mkCounter 0 m r)) as [-> ->].
  reflexivity.
Qed.

Lemma reset_restores_created_counter_witness :
  Timing.reset (fst (Timing.increments 5 (Timing.mkCounter 0 3 false)))
  = Timing.mkCounter 0 3 false.
Proof.
  apply (reset_restores_created_counter 3 false). reflexivity.
Defined.

Section step_counter_further.

Import Timing TimingAux.

Context {H : Type}.
Implicit Types (sc : StepCounter H).

Lemma step_in_events sc i :
  Step i ∈ snd (step_increment sc)
  ↔ step_count sc !! i = Some (count (base sc) + 1).
Proof.
  rewrite step_increment_events, elem_of_app, list_elem_of_fmap.
  unfold matching. split.
  - intros [(j & [= <-] & Hj) | Htail].
    + apply matching_from_lookup in Hj as [_ Hj].
      rewrite Nat.sub_0_r in Hj. exact Hj.
    + unfold increment in Htail. simpl in Htail.
      destruct (_ =? _); simpl in Htail.
      * apply list_elem_of_singleton in Htail. discriminate.
      * apply elem_of_nil in Htail. contradiction.
  - intros Hl. left. exists i. split; [reflexivity|].
    apply matching_from_lookup. rewrite Nat.sub_0_r. split; [lia | exact Hl].
Qed.

Lemma timeout_in_events sc :
  Timeout ∈ snd (step_increment sc)
  ↔ count (base sc) + 1 = max_count (base sc).
Proof.
  rewrite step_increment_events, elem_of_app, list_elem_of_fmap.
  unfold increment. simpl. split.
  - intros [(j & Hj & _) | Htail]; [discriminate|].
    destruct (_ =? _) eqn:E; [apply Z.eqb_eq, E|].
    apply elem_of_nil in Htail. contradiction.
  - intros Heq. right. apply Z.eqb_eq in Heq. rewrite Heq.
    apply list_elem_of_singleton. reflexivity.
Qed.

Lemma step_increments_schedule n : ∀ m sc k evs,
  counting m (base sc) →
  snd (step_increments n sc) !! k = Some evs →
  (∀ i, Step i ∈ evs
        ↔ step_count sc !! i
          = Some ((count (base sc) + Z.of_nat k) `mod` m + 1))
  ∧ (Timeout ∈ evs ↔ (count (base sc) + Z.of_nat k + 1) `mod` m = 0).
Proof.
  induction n as [|n IH]; intros m sc k evs Hc Hk; simpl in Hk.
  { discriminate Hk. }
  destruct (step_increment sc) as [sc1 evs1] eqn:E1.
  pose proof (step_increment_state sc) as (Hbase & _ & Hsteps & _).
  pose proof (step_in_events sc) as Hstep.
  pose proof (timeout_in_events sc) as Htime.
  rewrite E1 in Hbase, Hsteps, Hstep, Htime. simpl in Hbase, Hsteps, Hstep, Htime.
  pose proof (increment_counting m _ Hc) as Hinc.
  pose proof (increment_counting_inv m _ Hc) as Hc1.
  rewrite <- Hbase in Hc1.
  assert (Hcount1 : count (base sc1) = (count (base sc) + 1) `mod` m).
  { rewrite Hbase, Hinc. reflexivity. }
  destruct Hc as (Hm & _ & Hrange).
  destruct (step_increments n sc1) as [sc2 rest] eqn:E2. simpl in Hk.
  destruct k as [|k]; simpl in Hk.
  - injection Hk as <-. split.
    + intros i. rewrite Hstep, Z.add_0_r, Z.mod_small by lia. reflexivity.
    + rewrite Htime, Hm, Z.add_0_r.
      destruct (Z.eq_dec (count (base sc) + 1) m) as [Heq|Hne].
      * rewrite Heq, Z.mod_same by lia. tauto.
      * rewrite Z.mod_small by lia. lia.
  - specialize (IH m sc1 k evs Hc1). rewrite E2 in IH.
    destruct (IH Hk) as [IHstep IHtime]. rewrite Hsteps in IHstep.
    assert (Hshift : ∀ d, (count (base sc1) + Z.of_nat k + d) `mod` m
                          = (count (base sc) + Z.of_nat (S k) + d) `mod` m).
    { intros d. rewrite Hcount1.
      replace ((count (base sc) + 1) `mod` m + Z.of_nat k + d)
        with ((count (base sc) + 1) `mod` m + (Z.of_nat k + d)) by lia.
      rewrite Zplus_mod_idemp_l. f_equal. lia. }
    split.
    + intros i. rewrite IHstep.
      pose proof (Hshift 0) as H0. rewrite !Z.add_0_r in H0. rewrite H0.
      reflexivity.
    + rewrite IHtime, (Hshift 1). reflexivity.
Qed.

Lemma add_steps_registered (l : list (Z * H)) : ∀ k sc,
  registers k sc →
  let sc' := run_ops (map (λ p, OpAddStep p.1 p.2) l) sc in
  base sc' = base sc
  ∧ step_count sc' = take step_max (step_count sc ++ l.*1)
  ∧ (∀ i, (i < k)%nat → slots sc' !! i = slots sc !! i)
  ∧ (∀ i p, (k + i < step_max)%nat → l !! i = Some p →
            slots sc' !! (k + i)%nat = Some [p.2])
  ∧ (∀ i, (k + length l ≤ i)%nat → (i < step_max)%nat →
          slots sc' !! i = Some [])
  ∧ length (slots sc') = step_max.
Proof.
  induction l as [|[c ev] l IH]; intros k sc (Hinc & Hlen & Hk & Hsl & Hfree).
  - simpl. split; [reflexivity|].
    split; [rewrite app_nil_r, take_ge by lia; reflexivity|].
    split; [reflexivity|]. split; [intros i p _ Hp; discriminate Hp|].
    split; [|exact Hsl].
    intros i Hi Hlt. apply Hfree; simpl in Hi; lia.
  - cbn [map run_ops fold_left run_op fst snd].
    change (fold_left (λ s o, run_op o s) (map (λ p, OpAddStep p.1 p.2) l)
              (add_step c ev sc))
      with (run_ops (map (λ p, OpAddStep p.1 p.2) l) (add_step c ev sc)).
    destruct (decide (k < step_max)%nat) as [Hroom | Hfull].
    + assert (Hadd : add_step c ev sc
                     = mkStepCounter (base sc) (k + 1) (step_count sc ++ [c])
                         (connect k ev (slots sc))).
      { unfold add_step. rewrite Hinc.
        destruct (k <? step_max)%nat eqn:E; [reflexivity|].
        apply Nat.ltb_ge in E. lia. }
      rewrite Hadd.
      set (sc1 := mkStepCounter _ _ _ _).
      assert (Hreg1 : registers (k + 1) sc1).
      { unfold registers, sc1; simpl. split; [reflexivity|].
        split; [rewrite length_app; simpl; lia|]. split; [lia|].
        split; [unfold connect; rewrite length_alter; exact Hsl|].
        intros i Hi Hlt. unfold connect.
        rewrite list_lookup_alter_ne by lia. apply Hfree; lia. }
      destruct (IH (k + 1)%nat sc1 Hreg1)
        as (Hb & Hc & Hold & Hnew & Hrest & Hslots).
      split; [exact Hb|].
      split; [rewrite Hc; unfold sc1; simpl; rewrite <- app_assoc; reflexivity|].
      split; [|split].
      * intros i Hi. rewrite Hold by lia. unfold sc1; simpl. unfold connect.
        apply list_lookup_alter_ne. lia.
      * intros [|i] p Hlt Hp; simpl in Hp.
        -- injection Hp as <-. rewrite Nat.add_0_r, Hold by lia.
           unfold sc1; simpl. unfold connect.
           rewrite list_lookup_alter_eq, (Hfree k) by lia. reflexivity.
        -- replace (k + S i)%nat with (k + 1 + i)%nat by lia.
           apply Hnew; [lia | exact Hp].
      * split; [|exact Hslots].
        intros i Hi Hlt. apply Hrest; [simpl in Hi; lia | exact Hlt].
    + assert (Hadd : add_step c ev sc = sc).
      { unfold add_step. rewrite Hinc.
        destruct (k <? step_max)%nat eqn:E; [|reflexivity].
        apply Nat.ltb_lt in E. lia. }
      rewrite Hadd.
      destruct (IH k sc (conj Hinc (conj Hlen (conj Hk (conj Hsl Hfree)))))
        as (Hb & Hc & Hold & Hnew & Hrest & Hslots).
      split; [exact Hb|]. split.
      { rewrite Hc. rewrite !take_app_le by lia. reflexivity. }
      split; [exact Hold|]. split; [|split; [|exact Hslots]].
      * intros i p Hlt Hp. lia.
      * intros i Hi Hlt. lia.
Qed.

End step_counter_further.

(** X3.  On a [StepCounter] that resets on timeout, the (k+1)-th call of
    [increment] in a run emits [step<i>] exactly when the checkpoint
    registered for it is the count that call reaches, [(count + k) mod
    max_count + 1], and emits [timeout] exactly when that count is
    [max_count].  So a step registered for a count below 1 or above
    [max_count] is never emitted. *)
Theorem step_fires_at_its_checkpoint_only
    {H : Type} (m : Z) (sc : Timing.StepCounter H) (n k i : nat)
    (evs : list Timing.event) :
  Timing.counting m (Timing.base sc) →
  snd (Timing.step_increments n sc) !! k = Some evs →
  (Timing.Step i ∈ evs
   ↔ Timing.step_count sc !! i
     = Some ((Timing.count (Timing.base sc) + Z.of_nat k) `mod` m + 1))
  ∧ (Timing.Timeout ∈ evs
     ↔ (Timing.count (Timing.base sc) + Z.of_nat k) `mod` m + 1 = m)
  ∧ (∀ c, Timing.step_count sc !! i = Some c → c < 1 ∨ m < c →
          Timing.Step i ∉ evs).
Proof.
  intros Hc Hk.
  destruct (step_increments_schedule n m sc k evs Hc Hk) as [Hstep Htime].
  destruct Hc as (_ & _ & Hrange).
  pose proof (Z.mod_pos_bound (Timing.count (Timing.base sc) + Z.of_nat k) m)
    as Hbound.
  split; [apply Hstep|]. split.
  - rewrite Htime.
    rewrite <- (Zplus_mod_idemp_l (Timing.count (Timing.base sc) + Z.of_nat k)).
    set (x := (Timing.count (Timing.base sc) + Z.of_nat k) `mod` m) in *.
    destruct (Z.eq_dec (x + 1) m) as [Heq|Hne].
    + rewrite Heq, Z.mod_same by lia. tauto.
    + rewrite Z.mod_small by lia. lia.
  - intros c Hi Hout Hin. apply Hstep in Hin. rewrite Hi in Hin.
    injection Hin as ->. lia.
Qed.

(** [StepCounter(5)] with steps at 2, 0 and 7: in two periods the first
    step is emitted by the 2nd and the 7th call, the others never. *)
Lemma step_fires_at_its_checkpoint_only_witness :
  let sc := Timing.mkStepCounter (Timing.mkCounter 0 5 true) 3 [2; 0; 7]
              [["a"]; ["b"]; ["c"]; []; []; []; []; []; []; []] in
  snd (Timing.step_increments 10 sc) !! 6%nat = Some [Timing.Step 0]
  ∧ (Timing.Step 0 ∈ [Timing.Step 0]
     ↔ Timing.step_count sc !! 0%nat = Some ((0 + Z.of_nat 6) `mod` 5 + 1)).
Proof.
  intros sc. split; [reflexivity|].
  apply (step_fires_at_its_checkpoint_only 5 sc 10 6 0 [Timing.Step 0]).
  - unfold Timing.counting; simpl. lia.
  - reflexivity.
Defined.

(** X4.  On a new [StepCounter], calls of [add_step] register their
    checkpoints in call order, the (i+1)-th on the transmitter [step<i>]
    with its callback as the only one connected; the calls after the
    tenth leave no trace, and the transmitters not reached have no
    callback. *)
Theorem add_step_registers_first_ten_in_order
    {H : Type} (m : Z) (r : bool) (sc0 : Timing.StepCounter H)
    (l : list (Z * H)) :
  Timing.StepCounter_init m r = Some sc0 →
  let sc := Timing.run_ops (map (λ p, Timing.OpAddStep p.1 p.2) l) sc0 in
  Timing.step_count sc = take 10 (l.*1)
  ∧ (∀ i p, (i < 10)%nat → l !! i = Some p →
            Timing.delivered sc (Timing.Step i) = [p.2])
  ∧ (∀ i, (length l ≤ i)%nat → Timing.delivered sc (Timing.Step i) = []).
Proof.
  intros Hinit. unfold Timing.StepCounter_init in Hinit.
  destruct (Timing.Counter_init m r) as [c|]; [|discriminate].
  injection Hinit as Hinit. subst sc0. cbv zeta.
  match goal with
  | |- context [Timing.run_ops _ ?s] => assert (Hreg : TimingAux.registers 0 s)
  end.
  { unfold TimingAux.registers; simpl.
    split; [reflexivity|]. split; [reflexivity|].
    split; [unfold Timing.step_max; lia|]. split; [reflexivity|].
    intros i _ Hlt. apply (lookup_replicate_2 Timing.step_max [] i Hlt). }
  destruct (add_steps_registered l 0%nat _ Hreg)
    as (_ & Hc & _ & Hnew & Hrest & Hslots).
  cbn [Timing.step_count app Nat.add] in Hc, Hnew, Hrest.
  split; [exact Hc|]. split.
  - intros i p Hlt Hp. unfold Timing.delivered.
    rewrite (Hnew i p Hlt Hp). reflexivity.
  - intros i Hi. unfold Timing.delivered.
    destruct (decide (i < Timing.step_max)%nat) as [Hlt|Hge].
    + rewrite (Hrest i Hi Hlt). reflexivity.
    + rewrite (lookup_ge_None_2 _ i) by (rewrite Hslots; lia). reflexivity.
Qed.

Lemma add_step_registers_first_ten_in_order_witness :
  let sc :=
    Timing.run_ops
      (map (λ p, Timing.OpAddStep p.1 p.2) [(2, "a"); (2, "b"); (4, "c")])
      (Timing.mkStepCounter (Timing.mkCounter 0 5 true) 0 []
                            (replicate 10 [])) in
  Timing.step_count sc = take 10 ([(2, "a"); (2, "b"); (4, "c")].*1)
  ∧ (∀ i p, (i < 10)%nat → [(2, "a"); (2, "b"); (4, "c")] !! i = Some p →
            Timing.delivered sc (Timing.Step i) = [p.2])
  ∧ (∀ i, (length [(2, "a"); (2, "b"); (4, "c")] ≤ i)%nat →
          Timing.delivered sc (Timing.Step i) = []).
Proof.
  apply (add_step_registers_first_ten_in_order 5 true
           (Timing.mkStepCounter (Timing.mkCounter 0 5 true) 0 []
                                 (replicate 10 []))
           [(2, "a"); (2, "b"); (4, "c")]).
  reflexivity.
Defined.

(** ** [DaqStream.run], further *)

Section stream_further.

Import Daq.

Context {chunk : Type}.
Implicit Types (dev : Device chunk) (ctl : Controller)
  (tr : list (event chunk)) (ds : list chunk).

Lemma run_loop_stopped fuel dev ctl k tr :
  run_loop (S fuel) dev ctl k false tr
  = Some (Returned false (tr ++ [DeviceStop; Finished])).
Proof. reflexivity. Qed.

Lemma run_loop_shape dev ctl fuel : ∀ k tr o,
  run_loop fuel dev ctl k true tr = Some o →
  ∃ ds,
    (∀ j d, ds !! j = Some d → reads dev (k + j) = Data d)
    ∧ match o with
      | Returned r t =>
          (t = tr ++ map Updated ds ++ [Disconnected]
           ∧ reads dev (k + length ds) = RaiseIOError
           ∧ r = negb (stop_in_read ctl (k + length ds)))
          ∨ (t = tr ++ map Updated ds ++ [DeviceStop; Finished]
             ∧ r = false)
      | Raised r t =>
          t = tr ++ map Updated ds
          ∧ reads dev (k + length ds) = RaiseOther
          ∧ r = negb (stop_in_read ctl (k + length ds))
      end.
Proof.
  induction fuel as [|fuel IH]; intros k tr o Hrun; [discriminate Hrun|].
  simpl in Hrun.
  destruct (stop_at_head ctl k); simpl in Hrun.
  { injection Hrun as <-. exists []. split; [intros j d Hd; discriminate Hd|].
    right. split; reflexivity. }
  destruct (reads dev k) as [d| |] eqn:Hread.
  - destruct (stop_in_read ctl k); simpl in Hrun.
    + destruct fuel as [|fuel]; [discriminate Hrun|].
      rewrite run_loop_stopped in Hrun. injection Hrun as <-.
      exists []. split; [intros j d' Hd; discriminate Hd|].
      right. split; reflexivity.
    + apply IH in Hrun as (ds & Hds & Ho).
      exists (d :: ds). split.
      * intros [|j] d' Hd; simpl in Hd.
        -- injection Hd as <-. rewrite Nat.add_0_r. exact Hread.
        -- replace (k + S j)%nat with (S k + j)%nat by lia. apply Hds, Hd.
      * replace (k + length (d :: ds))%nat with (S k + length ds)%nat
          by (simpl; lia).
        destruct o as [r t | r t]; simpl;
          rewrite <- ?app_assoc in Ho; simpl in Ho; exact Ho.
  - injection Hrun as <-. exists [].
    split; [intros j d Hd; discriminate Hd|].
    left. simpl. rewrite Nat.add_0_r. repeat split. exact Hread.
  - injection Hrun as <-. exists [].
    split; [intros j d Hd; discriminate Hd|].
    simpl. rewrite Nat.add_0_r, app_nil_r. repeat split. exact Hread.
Qed.

Lemma run_loop_until_stop dev ctl ds : ∀ k tr fuel,
  (∀ j d, ds !! j = Some d →
          reads dev (k + j) = Data d
          ∧ stop_at_head ctl (k + j) = false
          ∧ stop_in_read ctl (k + j) = false) →
  (stop_at_head ctl (k + length ds) = true
   ∨ stop_in_read ctl (k + length ds) = true
     ∧ ∃ d, reads dev (k + length ds) = Data d) →
  (length ds + 2 ≤ fuel)%nat →
  run_loop fuel dev ctl k true tr
  = Some (Returned false (tr ++ map Updated ds ++ [DeviceStop; Finished])).
Proof.
  induction ds as [|d ds IH]; intros k tr fuel Hds Hstop Hfuel.
  - simpl in Hstop. rewrite Nat.add_0_r in Hstop.
    destruct fuel as [|[|fuel]]; simpl in Hfuel; try lia.
    simpl. destruct (stop_at_head ctl k) eqn:Hhead; [reflexivity|].
    destruct Hstop as [Habs | [Hin [d Hread]]]; [discriminate Habs|].
    simpl. rewrite Hread, Hin. reflexivity.
  - destruct fuel as [|fuel]; simpl in Hfuel; [lia|].
    destruct (Hds 0%nat d eq_refl) as (Hread & Hhead & Hin).
    rewrite Nat.add_0_r in Hread, Hhead, Hin.
    simpl. rewrite Hhead. simpl. rewrite Hread, Hin. simpl.
    rewrite (IH (S k) (tr ++ [Updated d]) fuel).
    + rewrite <- app_assoc. reflexivity.
    + intros j d' Hd. replace (S k + j)%nat with (k + S j)%nat by lia.
      apply Hds. exact Hd.
    + replace (S k + length ds)%nat with (k + length (d :: ds))%nat
        by (simpl; lia).
      exact Hstop.
    + lia.
Qed.

End stream_further.

(** X5.  However [run] ends, its trace is the device's [start], then an
    [updated] for each of the first reads in order, and then one of three
    endings.  [disconnected] and nothing more, when the next read raised
    [IOError]; or the device's [stop] followed by [finished], with
    [_running] false; or nothing, when the next read raised another
    exception, which [run] lets through.  After a read that raised
    [_running] is still true, unless [stop()] was called during that
    read. *)
Theorem run_trace_has_one_ending
    {chunk : Type} (dev : Daq.Device chunk) (ctl : Daq.Controller)
    (fuel : nat) (o : Daq.outcome chunk) :
  Daq.run fuel dev ctl = Some o →
  ∃ ds,
    (∀ j d, ds !! j = Some d → Daq.reads dev j = Daq.Data d)
    ∧ match o with
      | Daq.Returned r t =>
          (t = Daq.DeviceStart :: map Daq.Updated ds ++ [Daq.Disconnected]
           ∧ Daq.reads dev (length ds) = Daq.RaiseIOError
           ∧ r = negb (Daq.stop_in_read ctl (length ds)))
          ∨ (t = Daq.DeviceStart
                 :: map Daq.Updated ds ++ [Daq.DeviceStop; Daq.Finished]
             ∧ r = false)
      | Daq.Raised r t =>
          t = Daq.DeviceStart :: map Daq.Updated ds
          ∧ Daq.reads dev (length ds) = Daq.RaiseOther
          ∧ r = negb (Daq.stop_in_read ctl (length ds))
      end.
Proof.
  intros Hrun. apply run_loop_shape in Hrun as (ds & Hds & Ho).
  exists ds. split; [exact Hds|].
  destruct o as [r t | r t]; exact Ho.
Qed.

(** [stop()] is called during the second read, which raises [IOError]:
    the run ends with [disconnected], and [_running] is false. *)
Lemma run_trace_has_one_ending_witness :
  let dev := Daq.mkDevice (λ k, match k with
                                | 0%nat => Daq.Data 7
                                | _ => Daq.RaiseIOError
                                end) in
  let ctl := Daq.mkController (λ _, false) (λ k, bool_decide (k = 1%nat)) in
  Daq.run 4 dev ctl
  = Some (Daq.Returned false
            [Daq.DeviceStart; Daq.Updated 7; Daq.Disconnected])
  ∧ ∃ ds,
      (∀ j d, ds !! j = Some d → Daq.reads dev j = Daq.Data d)
      ∧ (([Daq.DeviceStart; Daq.Updated 7; Daq.Disconnected]
          = Daq.DeviceStart :: map Daq.Updated ds ++ [Daq.Disconnected]
          ∧ Daq.reads dev (length ds) = Daq.RaiseIOError
          ∧ false = negb (Daq.stop_in_read ctl (length ds)))
         ∨ ([Daq.DeviceStart; Daq.Updated 7; Daq.Disconnected]
            = Daq.DeviceStart
              :: map Daq.Updated ds ++ [Daq.DeviceStop; Daq.Finished]
            ∧ false = false)).
Proof.
  intros dev ctl. split; [reflexivity|].
  apply (run_trace_has_one_ending dev ctl 4
           (Daq.Returned false
              [Daq.DeviceStart; Daq.Updated 7; Daq.Disconnected])).
  reflexivity.
Defined.

(** X6.  The device's reads return chunks and [stop()] is called either
    between two reads or during a read.  Then [run] returns (given fuel
    for the passes of the loop) after an [updated] for each chunk read
    before [stop()] was called, one call of the device's [stop] and one
    [finished]: the chunk of a read during which [stop()] is called is not
    passed on. *)
Theorem run_stops_cleanly
    {chunk : Type} (dev : Daq.Device chunk) (ctl : Daq.Controller)
    (ds : list chunk) (fuel : nat) :
  (∀ j d, ds !! j = Some d →
          Daq.reads dev j = Daq.Data d
          ∧ Daq.stop_at_head ctl j = false
          ∧ Daq.stop_in_read ctl j = false) →
  (Daq.stop_at_head ctl (length ds) = true
   ∨ Daq.stop_in_read ctl (length ds) = true
     ∧ ∃ d, Daq.reads dev (length ds) = Daq.Data d) →
  (length ds + 2 ≤ fuel)%nat →
  Daq.run fuel dev ctl
  = Some (Daq.Returned false
            (Daq.DeviceStart
             :: map Daq.Updated ds ++ [Daq.DeviceStop; Daq.Finished])).
Proof.
  intros Hds Hstop Hfuel. unfold Daq.run.
  apply (run_loop_until_stop dev ctl ds 0%nat [Daq.DeviceStart] fuel);
    assumption.
Qed.

(** [stop()] arrives during the second read: its chunk, 20, is dropped. *)
Lemma run_stops_cleanly_witness :
  Daq.run 5
    (Daq.mkDevice (λ k, Daq.Data (10 * (Z.of_nat k + 1))))
    (Daq.mkController (λ _, false) (λ k, bool_decide (k = 1%nat)))
  = Some (Daq.Returned false
            [Daq.DeviceStart; Daq.Updated 10; Daq.DeviceStop; Daq.Finished]).
Proof.
  apply (run_stops_cleanly
           (Daq.mkDevice (λ k, Daq.Data (10 * (Z.of_nat k + 1))))
           (Daq.mkController (λ _, false) (λ k, bool_decide (k = 1%nat)))
           [10] 5).
  - intros [|j] d Hd; [|discriminate Hd].
    injection Hd as <-. repeat split.
  - right. split; [reflexivity|]. eexists. reflexivity.
  - simpl. lia.
Defined.

(** ** [_Sleeper], further *)

Section sleeper_further.

Import Daq DaqAux.

Lemma sleep_again_timed s late w last s' w' :
  last_read_time s = Some last →
  sleep s late w = Some (s', w') →
  s' = mkSleeper (read_time s) (Some (clock w'))
  ∧ clock w'
    = if clock w - last <=? read_time s
      then last + read_time s + Z.of_N (oversleep late)
           + Z.of_N (overhead late)
      else clock w + Z.of_N (overhead late).
Proof.
  intros Hlast. unfold sleep, time_sleep. rewrite Hlast.
  destruct (_ || _); [discriminate|].
  destruct (read_time s - (clock w - last) <? 0) eqn:E.
  - apply Z.ltb_lt in E. intros [= <- <-]. split; [reflexivity|]. simpl.
    destruct (clock w - last <=? read_time s) eqn:E'; [|reflexivity].
    apply Z.leb_le in E'. lia.
  - apply Z.ltb_ge in E. intros [= <- <-]. split; [reflexivity|]. simpl.
    destruct (clock w - last <=? read_time s) eqn:E'; [lia|].
    apply Z.leb_gt in E'. lia.
Qed.

Lemma sleep_loop_timed env : ∀ s w s' w' log,
  last_read_time s = Some (clock w) →
  sleep_loop s w env = Some (s', w', log) →
  all_timed (read_time s) (clock w) env log.
Proof.
  induction env as [|[work late] env IH]; intros s w s' w' log Hlast; simpl.
  - intros [= _ _ <-]. exact I.
  - destruct (sleep s late (mkWorld (clock w + Z.of_N work) []))
      as [[s1 w1]|] eqn:Hs; [|discriminate].
    destruct (sleep_again_timed s late (mkWorld (clock w + Z.of_N work) [])
                (clock w) s1 w1 Hlast Hs) as (-> & Hclock).
    simpl in Hclock.
    destruct (sleep_loop _ w1 env) as [[[s2 w2] log2]|] eqn:Hrun;
      [|discriminate].
    intros [= _ _ <-]. simpl. split.
    + unfold timed; simpl. split; [reflexivity|].
      rewrite Hclock.
      replace (clock w + Z.of_N work - clock w) with (Z.of_N work) by lia.
      destruct (Z.of_N work <=? read_time s); reflexivity.
    + exact (IH (mkSleeper (read_time s) (Some (clock w1))) w1 s2 w2 log2
                eq_refl Hrun).
Qed.

Lemma all_timed_lookup rt env : ∀ prev log k c1 c2 work late,
  all_timed rt prev env log →
  log !! k = Some c1 → log !! S k = Some c2 → env !! S k = Some (work, late) →
  timed rt (returned c1) work late c2.
Proof.
  induction env as [|[work' late'] env IH];
    intros prev [|c log] k c1 c2 work late Hall H1 H2 He;
    simpl in *; try discriminate; try tauto.
  destruct Hall as [_ Hall]. destruct k as [|k]; simpl in *.
  - injection H1 as <-.
    destruct env as [|[work'' late''] env], log as [|c' log]; simpl in *;
      try discriminate; try tauto.
    injection H2 as <-. injection He as <- <-. apply Hall.
  - eapply IH; eauto.
Qed.

End sleeper_further.

(** X7.  A run of calls of [sleep] with an interval [rt] that is not
    negative, where [rt] and the caller's lateness are within what
    [time.sleep] can count: every call returns.  A call made no later than
    [rt] after the call before it returned returns exactly [rt], plus
    what [time.sleep] oversleeps, plus the time its own statements take,
    after that return: the delays are not made up for, each period is
    longer than [rt] by them.  A call made later returns as soon as its
    statements are done. *)
Theorem sleep_period_is_interval_plus_delays
    (rt : Z) (w : Daq.World) (env : list (N * Daq.lateness)) :
  0 ≤ rt ≤ Daq.sleep_max →
  Forall (λ p, Z.of_N p.1 ≤ rt - Daq.sleep_min) env →
  ∃ s' w' log,
    Daq.sleep_loop (Daq.Sleeper_init rt) w env = Some (s', w', log)
    ∧ ∀ k c1 c2 work late,
        log !! k = Some c1 → log !! S k = Some c2 →
        env !! S k = Some (work, late) →
        Daq.started c2 = Daq.returned c1 + Z.of_N work
        ∧ Daq.returned c2
          = if Z.of_N work <=? rt
            then Daq.returned c1 + rt + Z.of_N (Daq.oversleep late)
                 + Z.of_N (Daq.overhead late)
            else Daq.started c2 + Z.of_N (Daq.overhead late).
Proof.
  intros Hrt Hwork.
  destruct (sleep_loop_returns rt w env Hrt Hwork) as [[[s' w'] log] Hrun].
  exists s', w', log. split; [exact Hrun|].
  destruct env as [|[work late] env]; simpl in Hrun.
  - injection Hrun as _ _ <-. intros k c1 c2 ? ? Hc; discriminate Hc.
  - destruct (Daq.sleep (Daq.Sleeper_init rt) late
                (Daq.mkWorld (Daq.clock w + Z.of_N work) []))
      as [[s1 w1]|] eqn:Hs; [|discriminate].
    destruct (sleep_first (Daq.Sleeper_init rt) late
                (Daq.mkWorld (Daq.clock w + Z.of_N work) []) s1 w1
                eq_refl Hs) as (_ & -> & _ & _).
    simpl in Hrun.
    destruct (Daq.sleep_loop _ w1 env) as [[[s2 w2] log2]|] eqn:Hrest;
      [|discriminate].
    injection Hrun as _ _ <-.
    pose proof (sleep_loop_timed env
                  (Daq.mkSleeper rt (Some (Daq.clock w1))) w1 s2 w2 log2
                  eq_refl Hrest) as Hall.
    simpl in Hall.
    intros k c1 c2 work' late' H1 H2 He.
    destruct k as [|k]; simpl in H1, H2, He.
    + injection H1 as <-.
      destruct env as [|[work'' late''] env], log2 as [|c' log2];
        simpl in *; try discriminate; try tauto.
      injection H2 as <-. injection He as <- <-. apply Hall.
    + apply (all_timed_lookup rt env (Daq.clock w1) log2 k c1 c2 work' late'
               Hall H1 H2 He).
Qed.

(** Interval 100, delays of 1 and 2 in each call: the second call, made in
    time, returns 103 after the first. *)
Lemma sleep_period_is_interval_plus_delays_witness :
  ∃ s' w' log,
    Daq.sleep_loop (Daq.Sleeper_init 100) (Daq.mkWorld 0 [])
      [(0%N, Daq.mkLateness 1 2); (30%N, Daq.mkLateness 1 2)]
    = Some (s', w', log)
    ∧ log = [Daq.mkCall 0 103 (Some 100); Daq.mkCall 133 206 (Some 70)].
Proof.
  assert (Hrt : 0 ≤ 100 ≤ Daq.sleep_max) by (unfold Daq.sleep_max; lia).
  assert (Hwork : Forall (λ p : N * Daq.lateness,
                            Z.of_N p.1 ≤ 100 - Daq.sleep_min)
                    [(0%N, Daq.mkLateness 1 2); (30%N, Daq.mkLateness 1 2)]).
  { repeat constructor; unfold Daq.sleep_min; simpl; lia. }
  destruct (sleep_period_is_interval_plus_delays 100 (Daq.mkWorld 0 [])
              [(0%N, Daq.mkLateness 1 2); (30%N, Daq.mkLateness 1 2)]
              Hrt Hwork) as (s' & w' & log & Hrun & _).
  exists s', w', log. split; [exact Hrun|].
  vm_compute in Hrun. injection Hrun as _ _ <-. reflexivity.
Defined.

(** ** [BufferedArray], further *)

Section buffered_further.

Import Py Numpy Buffered.

Context {A B : Type} `{Zero B} `{Cast A B}.
Implicit Types (self : BufferedArray B) (chunk : ndarray A) (buf : ndarray B).

Lemma setitem_slice_before nidx ax lo hi buf chunk buf' idx i :
  setitem_slice nidx ax lo hi buf chunk = Ok buf' →
  idx !! ax = Some i → (i < lo)%nat →
  item buf' idx = item buf idx.
Proof.
  unfold setitem_slice, broadcast_to.
  destruct (ndim buf <? nidx)%nat; [discriminate|].
  destruct (shape buf !! ax) as [n|]; [|discriminate].
  destruct (broadcastable _ _); simpl; [|discriminate].
  intros [= <-] Hi Hlt. simpl. rewrite Hi.
  unfold slice_lo, slice_len. nat_cases.
Qed.

Lemma write_slice_before axis lo hi buf chunk buf' idx i :
  write_slice axis lo hi buf chunk = Ok buf' →
  idx !! Z.to_nat axis = Some i → (i < lo)%nat →
  item buf' idx = item buf idx.
Proof.
  unfold write_slice.
  destruct (axis =? 0) eqn:E0.
  { apply Z.eqb_eq in E0 as ->. apply setitem_slice_before. }
  destruct (axis =? 1) eqn:E1.
  { apply Z.eqb_eq in E1 as ->. apply setitem_slice_before. }
  destruct (axis =? 2) eqn:E2.
  { apply Z.eqb_eq in E2 as ->. apply setitem_slice_before. }
  intros [= <-] _ _. reflexivity.
Qed.

Lemma insert_pos_and_capacity self chunk self' :
  insert self chunk = Ok self' →
  capacity self' = capacity self
  ∧ ((pos self' = pos self)
     ∨ ∃ cap, capacity self = Ok cap ∧ (pos self' ≤ cap)%nat).
Proof.
  unfold insert, capacity. destruct (overflow self).
  { intros [= <-]. split; [reflexivity | left; reflexivity]. }
  destruct (new_sample self chunk) as [e|]; simpl; [|discriminate].
  destruct (index (buffer_dims self) (insert_axis self)) as [cap|] eqn:Hcap;
    simpl; [|discriminate].
  destruct (cap <? pos self + e)%nat eqn:E.
  { intros [= <-]. simpl. split; [exact Hcap | left; reflexivity]. }
  destruct (write_slice _ _ _ _ _) as [buf'|]; simpl; [|discriminate].
  intros [= <-]. simpl. split; [exact Hcap|].
  right. exists cap. split; [reflexivity|]. apply Nat.ltb_ge in E. exact E.
Qed.

Lemma run_ops_pos_bound os : ∀ self self' cap,
  capacity self = Ok cap → (pos self ≤ cap)%nat →
  run_ops os self = Ok self' →
  capacity self' = Ok cap ∧ (pos self' ≤ cap)%nat.
Proof.
  induction os as [|o os IH]; intros self self' cap Hcap Hpos; simpl.
  { intros [= <-]. split; assumption. }
  destruct (run_op o self) as [self1|] eqn:Hop; simpl; [|discriminate].
  apply IH; destruct o as [c| |]; simpl in Hop.
  - apply insert_pos_and_capacity in Hop as [Hc _]. congruence.
  - apply set_data_preserves in Hop as (Ha & Hd & _).
    unfold capacity. rewrite Ha, Hd. exact Hcap.
  - injection Hop as <-. exact Hcap.
  - apply insert_pos_and_capacity in Hop as [_ [-> | (cap' & Hc & Hle)]];
      [exact Hpos | congruence].
  - apply set_data_preserves in Hop as (_ & _ & _ & -> & _). exact Hpos.
  - injection Hop as <-. simpl. lia.
Qed.

Lemma run_ops_settings os : ∀ self self',
  run_ops os self = Ok self' →
  insert_axis self' = insert_axis self ∧ buffer_dims self' = buffer_dims self.
Proof.
  induction os as [|o os IH]; intros self self'; simpl.
  { intros [= <-]. split; reflexivity. }
  destruct (run_op o self) as [self1|] eqn:Hop; simpl; [|discriminate].
  intros Hrun. apply IH in Hrun as [-> ->].
  destruct o as [c| |]; simpl in Hop.
  - apply insert_preserves in Hop. tauto.
  - apply set_data_preserves in Hop. tauto.
  - injection Hop as <-. split; reflexivity.
Qed.

End buffered_further.

(** X8.  Whatever is called on a [BufferedArray] after it was created, in
    whatever order, [pos] does not pass the capacity along the insert
    axis. *)
Theorem pos_stays_within_capacity
    {A B : Type} `{Numpy.Zero B} `{Numpy.Cast A B}
    (dims : list nat) (axis : Z) (os : list (Buffered.op A))
    (self : Buffered.BufferedArray B) (cap : nat) :
  Buffered.run_ops os (Buffered.BufferedArray_init dims axis) = Py.Ok self →
  Buffered.capacity self = Py.Ok cap →
  (Buffered.pos self ≤ cap)%nat.
Proof.
  intros Hrun Hcap.
  destruct (run_ops_settings os _ _ Hrun) as [Ha Hd].
  assert (Hcap0 : Buffered.capacity (Buffered.BufferedArray_init dims axis)
                  = Py.Ok cap).
  { unfold Buffered.capacity in *. rewrite <- Ha, <- Hd. exact Hcap. }
  apply (run_ops_pos_bound os _ self cap Hcap0); [simpl; lia | exact Hrun].
Qed.

Lemma pos_stays_within_capacity_witness :
  ∃ self,
    Buffered.run_ops
      [Buffered.Insert (Numpy.full [1; 2]%nat 7);
       Buffered.Insert (Numpy.full [1; 2]%nat 8); Buffered.SetData]
      (Buffered.BufferedArray_init [1; 3]%nat 1)
    = Py.Ok self
    ∧ (Buffered.pos self ≤ 3)%nat.
Proof.
  eexists. split; [reflexivity|].
  eapply (pos_stays_within_capacity [1; 3]%nat 1
            [Buffered.Insert (Numpy.full [1; 2]%nat 7);
             Buffered.Insert (Numpy.full [1; 2]%nat 8); Buffered.SetData]);
    reflexivity.
Defined.

(** X9.  A call of [insert] that returns, whatever the array and the
    chunk, leaves every element of the buffer that lies before [pos] along
    the insert axis as it was: what has been inserted (and what [set_data]
    has handed out) is not written to again. *)
Theorem insert_leaves_earlier_data
    {A B : Type} `{Numpy.Zero B} `{Numpy.Cast A B}
    (self self' : Buffered.BufferedArray B) (chunk : Numpy.ndarray A)
    (idx : list nat) (i : nat) :
  Buffered.insert self chunk = Py.Ok self' →
  idx !! Z.to_nat (Buffered.insert_axis self) = Some i →
  (i < Buffered.pos self)%nat →
  Numpy.item (Buffered.buffer self') idx
  = Numpy.item (Buffered.buffer self) idx.
Proof.
  unfold Buffered.insert. destruct (Buffered.overflow self).
  { intros [= <-] _ _. reflexivity. }
  destruct (Buffered.new_sample self chunk) as [e|]; simpl; [|discriminate].
  destruct (Buffered.capacity self) as [cap|]; simpl; [|discriminate].
  destruct (cap <? Buffered.pos self + e)%nat.
  { intros [= <-] _ _. reflexivity. }
  destruct (Buffered.write_slice _ _ _ _ _) as [buf'|] eqn:Hw; simpl;
    [|discriminate].
  intros [= <-] Hi Hlt. simpl.
  apply (write_slice_before _ _ _ _ _ _ idx i Hw Hi Hlt).
Qed.

Lemma insert_leaves_earlier_data_witness :
  ∃ self1 self2,
    Buffered.insert (Buffered.BufferedArray_init [1; 3]%nat 1)
                    (Numpy.full [1; 2]%nat 7) = Py.Ok self1
    ∧ Buffered.insert self1 (Numpy.full [1; 1]%nat 9) = Py.Ok self2
    ∧ Numpy.item (Buffered.buffer self2) [0; 1]%nat
      = Numpy.item (Buffered.buffer self1) [0; 1]%nat.
Proof.
  eexists _, _. split; [reflexivity|]. split; [reflexivity|].
  eapply (insert_leaves_earlier_data _ _ (Numpy.full [1; 1]%nat 9)
            [0; 1]%nat 1); [reflexivity | reflexivity | simpl; lia].
Defined.

(** X10.  [clear] puts a [BufferedArray] back into the state it was
    created in, whatever has been called on it since. *)
Theorem clear_restores_created_array
    {A B : Type} `{Numpy.Zero B} `{Numpy.Cast A B}
    (dims : list nat) (axis : Z) (os : list (Buffered.op A))
    (self : Buffered.BufferedArray B) :
  Buffered.run_ops os (Buffered.BufferedArray_init dims axis) = Py.Ok self →
  Buffered.clear self = Buffered.BufferedArray_init dims axis.
Proof.
  intros Hrun.
  destruct (run_ops_settings os _ _ Hrun) as [Ha Hd].
  pose proof (run_ops_buffer_shape os
                (Buffered.BufferedArray_init dims axis) self eq_refl Hrun)
    as Hsh.
  simpl in Ha, Hd.
  unfold Buffered.clear, Buffered.BufferedArray_init, Numpy.fill, Numpy.zeros.
  rewrite Ha, Hsh, Hd. reflexivity.
Qed.

Lemma clear_restores_created_array_witness :
  ∃ self,
    Buffered.run_ops
      [Buffered.Insert (Numpy.full [1; 2]%nat 7);
       Buffered.Insert (Numpy.full [1; 2]%nat 8); Buffered.SetData]
      (Buffered.BufferedArray_init [1; 3]%nat 1)
    = Py.Ok self
    ∧ Buffered.clear self = Buffered.BufferedArray_init [1; 3]%nat 1.
Proof.
  eexists. split; [reflexivity|].
  eapply (clear_restores_created_array [1; 3]%nat 1
            [Buffered.Insert (Numpy.full [1; 2]%nat 7);
             Buffered.Insert (Numpy.full [1; 2]%nat 8); Buffered.SetData]).
  reflexivity.
Defined.

(** X11.  [set_data] is idempotent: called again on its own result it
    returns that result unchanged. *)
Theorem set_data_is_idempotent
    {B : Type}
    (self self' : Buffered.BufferedArray B) :
  Buffered.set_data self = Py.Ok self' →
  Buffered.set_data self' = Py.Ok self'.
Proof.
  unfold Buffered.set_data. destruct (Buffered.overflow self) eqn:Hov.
  { intros [= <-]. rewrite Hov. reflexivity. }
  destruct (Buffered.insert_axis self =? 0) eqn:E0.
  { destruct (Numpy.getitem_slice _ _ _ _ _) as [d|] eqn:Hg; simpl;
      [|discriminate].
    intros [= <-]. simpl. rewrite Hov, E0, Hg. reflexivity. }
  destruct (Buffered.insert_axis self =? 1) eqn:E1.
  { destruct (Numpy.getitem_slice _ _ _ _ _) as [d|] eqn:Hg; simpl;
      [|discriminate].
    intros [= <-]. simpl. rewrite Hov, E0, E1, Hg. reflexivity. }
  destruct (Buffered.insert_axis self =? 2) eqn:E2.
  { destruct (Numpy.getitem_slice _ _ _ _ _) as [d|] eqn:Hg; simpl;
      [|discriminate].
    intros [= <-]. simpl. rewrite Hov, E0, E1, E2, Hg. reflexivity. }
  intros [= <-]. rewrite Hov, E0, E1, E2. reflexivity.
Qed.

Lemma set_data_is_idempotent_witness :
  ∃ self',
    Buffered.set_data (Buffered.BufferedArray_init [1; 3]%nat 1)
    = Py.Ok self'
    ∧ Buffered.set_data self' = Py.Ok self'.
Proof.
  eexists. split; [reflexivity|].
  apply (set_data_is_idempotent (Buffered.BufferedArray_init [1; 3]%nat 1)).
  reflexivity.
Defined.

(** ** [Design], [Block], [Trial], further *)

Section containers_further.

Import Containers ContainersAux.

Context {G : Type}.
Implicit Types (w : World G) (b : Block) (d : gmap string value).

Lemma add_trial_new blk b w :
  blocks w !! blk = Some b →
  ∃ t w',
    add_trial blk None w = Some (t, w')
    ∧ dicts w !! attrs t = None
    ∧ blocks w' = <[blk := mkBlock (index b) (trials b ++ [t])]> (blocks w)
    ∧ dicts w'
      = <[attrs t := update_index (index b) (Z.of_nat (length (trials b))) ∅]>
          (dicts w)
    ∧ rng w' = rng w.
Proof.
  intros Hb. unfold add_trial. rewrite Hb.
  eexists _, _. split; [reflexivity|]. simpl.
  split; [apply not_elem_of_dom, is_fresh|].
  split; [reflexivity|]. split; [|reflexivity].
  apply map_eq. intros r. rewrite lookup_alter.
  destruct (decide (fresh (dom (dicts w)) = r)) as [<-|Hne].
  - rewrite !lookup_insert_eq. reflexivity.
  - rewrite !lookup_insert_ne by exact Hne. reflexivity.
Qed.

Lemma add_trials_new n : ∀ blk b w,
  blocks w !! blk = Some b →
  ∃ w' new,
    add_trials n blk w = Some w'
    ∧ blocks w' = <[blk := mkBlock (index b) (trials b ++ new)]> (blocks w)
    ∧ length new = n
    ∧ NoDup (attrs <$> new)
    ∧ (∀ i t, new !! i = Some t →
              dicts w !! attrs t = None
              ∧ dicts w' !! attrs t
                = Some (update_index (index b)
                          (Z.of_nat (length (trials b) + i)) ∅))
    ∧ (∀ r d, dicts w !! r = Some d → dicts w' !! r = Some d).
Proof.
  induction n as [|n IH]; intros blk b w Hb; simpl.
  - exists w, []. split; [reflexivity|].
    split; [rewrite app_nil_r; destruct b; symmetry; apply insert_id, Hb|].
    split; [reflexivity|]. split; [constructor|].
    split; [intros i t Ht; discriminate Ht | auto].
  - destruct (add_trial_new blk b w Hb) as (t & w1 & -> & Hfresh & Hbl & Hds & _).
    assert (Hb1 : blocks w1 !! blk = Some (mkBlock (index b) (trials b ++ [t])))
      by (rewrite Hbl; apply lookup_insert_eq).
    destruct (IH blk _ w1 Hb1) as (w' & new & Hrun & Hbl' & Hlen & Hnd & Hnew & Hold).
    simpl in Hbl', Hnew.
    assert (Hkeep : ∀ r d, dicts w !! r = Some d → dicts w1 !! r = Some d).
    { intros r d Hr. rewrite Hds. rewrite lookup_insert_ne; [exact Hr|].
      intros <-. congruence. }
    exists w', (t :: new). split; [exact Hrun|].
    split.
    { rewrite Hbl', Hbl, insert_insert_eq, <- app_assoc. reflexivity. }
    split; [simpl; lia|]. split.
    { rewrite fmap_cons. constructor; [|exact Hnd].
      intros Hin. apply list_elem_of_fmap in Hin as (t' & Heq & Hin).
      apply list_elem_of_lookup in Hin as [i Hi].
      destruct (Hnew i t' Hi) as [Hnone _].
      rewrite <- Heq, Hds, lookup_insert_eq in Hnone. discriminate. }
    split.
    + intros [|i] t' Ht; simpl in Ht.
      * injection Ht as <-. split; [exact Hfresh|].
        rewrite Nat.add_0_r. apply Hold. rewrite Hds. apply lookup_insert_eq.
      * destruct (Hnew i t' Ht) as [Hnone Hsome]. split.
        -- destruct (dicts w !! attrs t') as [d|] eqn:Hd; [|reflexivity].
           rewrite (Hkeep _ _ Hd) in Hnone. discriminate.
        -- rewrite Hsome, length_app. simpl. do 3 f_equal. lia.
    + intros r d Hr. apply Hold, Hkeep, Hr.
Qed.

Lemma add_block_well_indexed (design : Design) w :
  well_indexed design w →
  well_indexed (add_block design w).1.1 (add_block design w).2.
Proof.
  intros [Hnd Hidx].
  destruct (add_block_spec design w) as (blk & w' & Heq & _ & Hnew & Hblk & _).
  assert (Hbl : blocks w' = <[blk := mkBlock (Z.of_nat (length design)) []]>
                              (blocks w)).
  { unfold add_block in Heq. injection Heq as _ <- <-. reflexivity. }
  rewrite Heq. simpl. split.
  - apply NoDup_app. split; [exact Hnd|]. split; [|apply NoDup_singleton].
    intros x Hx Hx'. apply list_elem_of_singleton in Hx' as ->.
    apply list_elem_of_lookup in Hx as [i Hi].
    destruct (Hidx i blk Hi) as (b & Hb & _). congruence.
  - intros i r Hi.
    apply (lookup_app_Some design [blk] i r) in Hi as [Hi|[Hge Hi]].
    + destruct (Hidx i r Hi) as (b & Hb & Hib). exists b. split; [|exact Hib].
      rewrite Hbl, lookup_insert_ne; [exact Hb|]. intros <-. congruence.
    + destruct (i - length design)%nat as [|k] eqn:Ek; simpl in Hi;
        [|discriminate].
      injection Hi as <-. eexists. split; [exact Hblk|]. simpl. lia.
Qed.

Lemma add_trial_well_indexed (design : Design) w blk attrs t w' :
  well_indexed design w →
  add_trial blk attrs w = Some (t, w') →
  well_indexed design w'.
Proof.
  intros [Hnd Hidx] Hadd. split; [exact Hnd|].
  unfold add_trial in Hadd.
  destruct (blocks w !! blk) as [b|] eqn:Hb; [|discriminate].
  destruct attrs as [r|]; injection Hadd as _ <-; simpl;
    intros i r' Hi; destruct (Hidx i r' Hi) as (b' & Hb' & Hib);
    (destruct (decide (blk = r')) as [->|Hne];
     [ rewrite lookup_insert_eq; eexists; split; [reflexivity|];
       simpl; congruence
     | rewrite lookup_insert_ne by exact Hne; eauto ]).
Qed.

End containers_further.

(** X12.  [n] calls of [add_trial()] without a dictionary append [n]
    trials to the block, each with a dictionary of its own that was not
    there before and holds ['block'], the block's index, and ['trial'],
    the trial's position in the block, and nothing else; the dictionaries
    that were there are not touched. *)
Theorem add_trials_numbers_new_trials
    {G : Type} (n : nat) (blk : Containers.ref) (b : Containers.Block)
    (w : Containers.World G) :
  Containers.blocks w !! blk = Some b →
  ∃ w' new,
    ContainersAux.add_trials n blk w = Some w'
    ∧ Containers.blocks w' !! blk
      = Some (Containers.mkBlock (Containers.index b)
                (Containers.trials b ++ new))
    ∧ length new = n
    ∧ NoDup (Containers.attrs <$> new)
    ∧ (∀ i t, new !! i = Some t →
              Containers.dicts w !! Containers.attrs t = None
              ∧ Containers.dicts w' !! Containers.attrs t
                = Some {[ "block" := Containers.VInt (Containers.index b);
                          "trial" := Containers.VInt
                            (Z.of_nat (length (Containers.trials b) + i)) ]})
    ∧ (∀ r d, Containers.dicts w !! r = Some d →
              Containers.dicts w' !! r = Some d).
Proof.
  intros Hb.
  destruct (add_trials_new n blk b w Hb)
    as (w' & new & Hrun & Hbl & Hlen & Hnd & Hnew & Hold).
  exists w', new. split; [exact Hrun|].
  split; [rewrite Hbl; apply lookup_insert_eq|].
  split; [exact Hlen|]. split; [exact Hnd|]. split; [|exact Hold].
  intros i t Ht. destruct (Hnew i t Ht) as [Hnone Hsome].
  split; [exact Hnone|]. rewrite Hsome. reflexivity.
Qed.

(** A store with one empty block, of index 4, and no dictionary: three
    trials are added. *)
Lemma add_trials_numbers_new_trials_witness :
  let w := Containers.mkWorld (∅ : gmap nat (gmap string Containers.value))
             {[ 0%nat := Containers.mkBlock 4 [] ]} tt in
  ∃ w' new,
    ContainersAux.add_trials 3 0%nat w = Some w'
    ∧ Containers.blocks w' !! 0%nat = Some (Containers.mkBlock 4 new)
    ∧ length new = 3%nat
    ∧ ∀ i t, new !! i = Some t →
             Containers.dicts w' !! Containers.attrs t
             = Some {[ "block" := Containers.VInt 4;
                       "trial" := Containers.VInt (Z.of_nat i) ]}.
Proof.
  intros w.
  assert (Hb : Containers.blocks w !! 0%nat = Some (Containers.mkBlock 4 []))
    by reflexivity.
  destruct (add_trials_numbers_new_trials 3 0%nat _ w Hb)
    as (w' & new & Hrun & Hbl & Hlen & _ & Hnew & _).
  exists w', new. split; [exact Hrun|]. split; [exact Hbl|].
  split; [exact Hlen|].
  intros i t Ht. exact (proj2 (Hnew i t Ht)).
Defined.

Section containers_invariant.

Import Containers ContainersAux.

Context {G : Type}.
Implicit Types (w : World G) (b : Block).

Lemma add_trials_well_indexed (design : Design) n : ∀ blk w w',
  well_indexed design w →
  add_trials n blk w = Some w' →
  well_indexed design w'.
Proof.
  induction n as [|n IH]; intros blk w w' Hwi Hrun; simpl in Hrun.
  - injection Hrun as <-. exact Hwi.
  - destruct (add_trial blk None w) as [[t w1]|] eqn:Hadd; [|discriminate].
    exact (IH blk w1 w' (add_trial_well_indexed _ _ _ _ _ _ Hwi Hadd) Hrun).
Qed.

Lemma swap_Permutation {T : Type} (x : list T) i j : swap x i j ≡ₚ x.
Proof.
  unfold swap. destruct (x !! i) as [a|] eqn:Hi; [|reflexivity].
  destruct (x !! j) as [c|] eqn:Hj; [|reflexivity].
  exact (Permutation_insert_swap x i j a c Hi Hj).
Qed.

Lemma shuffle_loop_Permutation {T : Type}
    (randbelow : G → nat → nat * G) i : ∀ g (x : list T),
  (shuffle_loop randbelow i g x).1 ≡ₚ x.
Proof.
  induction i as [|i IH]; intros g x; simpl; [reflexivity|].
  destruct (randbelow g _) as [j g']. rewrite IH. apply swap_Permutation.
Qed.

Lemma reset_indices_other ts : ∀ i0 ds r,
  r ∉ attrs <$> ts →
  reset_indices i0 ts ds !! r = ds !! r.
Proof.
  induction ts as [|t ts IH]; intros i0 ds r Hr; simpl; [reflexivity|].
  rewrite fmap_cons in Hr. apply not_elem_of_cons in Hr as [Hne Hr].
  rewrite IH by exact Hr. apply lookup_alter_ne. congruence.
Qed.

Lemma reset_indices_at ts : ∀ i0 ds k t,
  NoDup (attrs <$> ts) →
  ts !! k = Some t →
  reset_indices i0 ts ds !! attrs t
  = <["trial" := VInt (Z.of_nat (i0 + k))]> <$> ds !! attrs t.
Proof.
  induction ts as [|t0 ts IH]; intros i0 ds k t Hnd Hk; [discriminate Hk|].
  rewrite fmap_cons in Hnd. apply NoDup_cons in Hnd as [Hnotin Hnd].
  destruct k as [|k]; simpl in Hk |- *.
  - injection Hk as <-. rewrite reset_indices_other by exact Hnotin.
    rewrite lookup_alter_eq, Nat.add_0_r. reflexivity.
  - rewrite (IH (S i0) _ k t Hnd Hk).
    rewrite lookup_alter_ne.
    + do 3 f_equal. lia.
    + intros Heq. apply Hnotin. rewrite Heq.
      apply list_elem_of_fmap. exists t. split; [reflexivity|].
      apply list_elem_of_lookup. exists k. exact Hk.
Qed.

End containers_invariant.

(** X13.  [TimingTask.prepare_design] on a design whose blocks are distinct
    and numbered by position: the design gets one more block, a new one,
    with the design's former length as index and ten trials; trial [i] has
    the attributes ['block'], that index, and ['trial'], [i], and nothing
    else; the design is again numbered by position. *)
Theorem prepare_design_adds_block_of_ten_trials
    {G : Type} (design : Containers.Design) (w : Containers.World G) :
  ContainersAux.well_indexed design w →
  ∃ blk w' ts,
    ContainersAux.prepare_design design w = Some (design ++ [blk], w')
    ∧ Containers.blocks w !! blk = None
    ∧ Containers.blocks w' !! blk
      = Some (Containers.mkBlock (Z.of_nat (length design)) ts)
    ∧ length ts = 10%nat
    ∧ (∀ i t, ts !! i = Some t →
              Containers.dicts w' !! Containers.attrs t
              = Some {[ "block" := Containers.VInt (Z.of_nat (length design));
                        "trial" := Containers.VInt (Z.of_nat i) ]})
    ∧ ContainersAux.well_indexed (design ++ [blk]) w'.
Proof.
  intros Hwi. pose proof (add_block_well_indexed design w Hwi) as Hwi1.
  destruct (add_block_spec design w) as (blk & w1 & Heq & _ & Hnew & Hblk & _).
  rewrite Heq in Hwi1. simpl in Hwi1.
  destruct (add_trials_new 10 blk _ w1 Hblk)
    as (w' & new & Hrun & Hbl & Hlen & _ & Hdict & _).
  simpl in Hbl, Hdict.
  exists blk, w', new. unfold ContainersAux.prepare_design.
  rewrite Heq, Hrun. split; [reflexivity|]. split; [exact Hnew|].
  split; [rewrite Hbl; apply lookup_insert_eq|]. split; [exact Hlen|].
  split.
  - intros i t Ht. destruct (Hdict i t Ht) as [_ ->]. reflexivity.
  - exact (add_trials_well_indexed _ _ _ _ _ Hwi1 Hrun).
Qed.

(** A design that has one block already, empty and of index 0. *)
Lemma prepare_design_adds_block_of_ten_trials_witness :
  let w := Containers.mkWorld (∅ : gmap nat (gmap string Containers.value))
             {[ 0%nat := Containers.mkBlock 0 [] ]} tt in
  ∃ blk w' ts,
    ContainersAux.prepare_design [0%nat] w = Some ([0%nat; blk], w')
    ∧ Containers.blocks w' !! blk = Some (Containers.mkBlock 1 ts)
    ∧ length ts = 10%nat.
Proof.
  intros w.
  assert (Hwi : ContainersAux.well_indexed [0%nat] w).
  { split; [apply NoDup_singleton|].
    intros [|i] blk Hi; [|discriminate Hi].
    injection Hi as <-. eexists. split; reflexivity. }
  destruct (prepare_design_adds_block_of_ten_trials [0%nat] w Hwi)
    as (blk & w' & ts & Hrun & _ & Hbl & Hlen & _).
  exists blk, w', ts. split; [exact Hrun|]. split; [exact Hbl | exact Hlen].
Defined.

(** X14.  A design whose blocks are distinct objects, each with its
    position as [index], stays so under [Design.add_block], under
    [Block.add_trial] (on any block, with or without a dictionary) and
    under [Block.shuffle]: none of them changes the [index] of a block. *)
Theorem design_stays_numbered_by_position
    {G : Type} (seed_rng : Z → G) (randbelow : G → nat → nat * G)
    (design : Containers.Design) (w : Containers.World G) :
  ContainersAux.well_indexed design w →
  ContainersAux.well_indexed
    (Containers.add_block design w).1.1 (Containers.add_block design w).2
  ∧ (∀ blk attrs t w',
       Containers.add_trial blk attrs w = Some (t, w') →
       ContainersAux.well_indexed design w')
  ∧ (∀ blk reset_index seed w',
       Containers.shuffle seed_rng randbelow blk reset_index seed w = Some w' →
       ContainersAux.well_indexed design w').
Proof.
  intros Hwi. split; [apply add_block_well_indexed, Hwi|]. split.
  - intros blk attrs t w' Hadd.
    exact (add_trial_well_indexed _ _ _ _ _ _ Hwi Hadd).
  - intros blk reset_index seed w' Hsh. destruct Hwi as [Hnd Hidx].
    split; [exact Hnd|]. unfold Containers.shuffle in Hsh.
    destruct (Containers.blocks w !! blk) as [b|] eqn:Hb; [|discriminate].
    destruct (Containers.random_shuffle randbelow _ _) as [ts g].
    injection Hsh as <-. simpl. intros i r Hi.
    destruct (Hidx i r Hi) as (b' & Hb' & Hib).
    destruct (decide (blk = r)) as [->|Hne].
    + rewrite lookup_insert_eq. eexists. split; [reflexivity|].
      simpl. congruence.
    + rewrite lookup_insert_ne by exact Hne. eauto.
Qed.

(** A design of two blocks, the second with one trial. *)
Lemma design_stays_numbered_by_position_witness :
  let w := Containers.mkWorld
             ({[ 0%nat := ∅ ]} : gmap nat (gmap string Containers.value))
             {[ 0%nat := Containers.mkBlock 0 [];
                1%nat := Containers.mkBlock 1 [Containers.mkTrial 0%nat ∅] ]}
             5%nat in
  ContainersAux.well_indexed [0%nat; 1%nat; 2%nat]
    (Containers.add_block [0%nat; 1%nat] w).2.
Proof.
  intros w.
  assert (Hwi : ContainersAux.well_indexed [0%nat; 1%nat] w).
  { split.
    { apply NoDup_cons. split; [|apply NoDup_singleton].
      intros Hin. apply list_elem_of_singleton in Hin. discriminate Hin. }
    intros [|[|i]] blk Hi; [| |discriminate Hi];
      injection Hi as <-; eexists; split; reflexivity. }
  exact (proj1 (design_stays_numbered_by_position
                  Containers.counting_seed Containers.counting_randbelow
                  [0%nat; 1%nat] w Hwi)).
Defined.

(** X15.  [add_trial(attrs)] keeps the caller's dictionary as the trial's
    [attrs], it makes no copy: after two calls with the same dictionary
    both trials hold that one dictionary, whose ['trial'] is the position
    of the second trial, so the first trial no longer reads its own
    position. *)
Theorem add_trial_shares_the_callers_dictionary
    {G : Type} (blk r : Containers.ref) (b : Containers.Block)
    (d : gmap string Containers.value) (w : Containers.World G) :
  Containers.blocks w !! blk = Some b →
  Containers.dicts w !! r = Some d →
  ∃ t1 w1 t2 w2 d2,
    Containers.add_trial blk (Some r) w = Some (t1, w1)
    ∧ Containers.add_trial blk (Some r) w1 = Some (t2, w2)
    ∧ Containers.attrs t1 = r ∧ Containers.attrs t2 = r
    ∧ Containers.blocks w2 !! blk
      = Some (Containers.mkBlock (Containers.index b)
                (Containers.trials b ++ [t1; t2]))
    ∧ Containers.dicts w2 !! Containers.attrs t1 = Some d2
    ∧ d2 !! "trial"
      = Some (Containers.VInt
                (Z.of_nat (length (Containers.trials b)) + 1))
    ∧ d2 !! "block" = Some (Containers.VInt (Containers.index b))
    ∧ (∀ k, k ≠ "trial" → k ≠ "block" → d2 !! k = d !! k).
Proof.
  intros Hb Hd. unfold Containers.add_trial. rewrite Hb.
  eexists _, _, _, _, _. split; [reflexivity|]. simpl.
  rewrite lookup_insert_eq. simpl. split; [reflexivity|].
  simpl. split; [reflexivity|]. split; [reflexivity|].
  split; [rewrite insert_insert_eq, lookup_insert_eq, <- app_assoc; reflexivity|].
  split; [rewrite !lookup_alter_eq, Hd; reflexivity|].
  unfold Containers.update_index. split; [|split].
  - rewrite lookup_insert_eq, length_app. simpl. do 2 f_equal. lia.
  - rewrite lookup_insert_ne, lookup_insert_eq by discriminate. reflexivity.
  - intros k Ht Hbk. rewrite !lookup_insert_ne by congruence. reflexivity.
Qed.

(** An empty block of index 4 and the dictionary [{'target': 'left'}],
    given to both trials: the first trial, at position 0, reads
    ['trial'] = 1. *)
Lemma add_trial_shares_the_callers_dictionary_witness :
  let w := Containers.mkWorld
             ({[ 0%nat := {[ "target" := Containers.VStr "left" ]} ]}
                : gmap nat (gmap string Containers.value))
             {[ 0%nat := Containers.mkBlock 4 [] ]} tt in
  ∃ t1 w1 t2 w2 d2,
    Containers.add_trial 0%nat (Some 0%nat) w = Some (t1, w1)
    ∧ Containers.add_trial 0%nat (Some 0%nat) w1 = Some (t2, w2)
    ∧ Containers.blocks w2 !! 0%nat = Some (Containers.mkBlock 4 [t1; t2])
    ∧ Containers.dicts w2 !! Containers.attrs t1 = Some d2
    ∧ d2 !! "trial" = Some (Containers.VInt 1)
    ∧ d2 !! "target" = Some (Containers.VStr "left").
Proof.
  intros w.
  assert (Hb : Containers.blocks w !! 0%nat = Some (Containers.mkBlock 4 []))
    by reflexivity.
  assert (Hd : Containers.dicts w !! 0%nat
               = Some {[ "target" := Containers.VStr "left" ]})
    by reflexivity.
  destruct (add_trial_shares_the_callers_dictionary 0%nat 0%nat _ _ w Hb Hd)
    as (t1 & w1 & t2 & w2 & d2 & H1 & H2 & _ & _ & Hbl & Hd2 & Ht & _ & Hk).
  exists t1, w1, t2, w2, d2. split; [exact H1|]. split; [exact H2|].
  split; [exact Hbl|]. split; [exact Hd2|]. split; [exact Ht|].
  rewrite Hk by discriminate. reflexivity.
Defined.

(** X16.  [Block.shuffle] on a block returns, and leaves the block with a
    permutation of its trials: none is lost, none is duplicated; the
    block's [index] and every other block are as they were. *)
Theorem shuffle_permutes_the_trials
    {G : Type} (seed_rng : Z → G) (randbelow : G → nat → nat * G)
    (blk : Containers.ref) (b : Containers.Block) (reset_index : bool)
    (seed : option Z) (w : Containers.World G) :
  Containers.blocks w !! blk = Some b →
  ∃ w' ts,
    Containers.shuffle seed_rng randbelow blk reset_index seed w = Some w'
    ∧ Containers.blocks w' !! blk
      = Some (Containers.mkBlock (Containers.index b) ts)
    ∧ ts ≡ₚ Containers.trials b
    ∧ (∀ r, r ≠ blk → Containers.blocks w' !! r = Containers.blocks w !! r).
Proof.
  intros Hb. unfold Containers.shuffle. rewrite Hb.
  destruct (Containers.random_shuffle randbelow _ (Containers.trials b))
    as [ts g] eqn:E.
  eexists _, ts. split; [reflexivity|]. simpl.
  split; [apply lookup_insert_eq|]. split.
  - change ts with (ts, g).1. rewrite <- E.
    apply (shuffle_loop_Permutation randbelow).
  - intros r Hr. apply lookup_insert_ne. congruence.
Qed.

(** A block of three trials, shuffled without a seed from the generator's
    state 5. *)
Lemma shuffle_permutes_the_trials_witness :
  let ts := [Containers.mkTrial 0%nat ∅; Containers.mkTrial 1%nat ∅;
             Containers.mkTrial 2%nat ∅] in
  let w := Containers.mkWorld (∅ : gmap nat (gmap string Containers.value))
             {[ 0%nat := Containers.mkBlock 0 ts ]} 5%nat in
  ∃ w' ts',
    Containers.shuffle Containers.counting_seed Containers.counting_randbelow
      0%nat false None w = Some w'
    ∧ Containers.blocks w' !! 0%nat = Some (Containers.mkBlock 0 ts')
    ∧ ts' ≡ₚ ts.
Proof.
  intros ts w.
  assert (Hb : Containers.blocks w !! 0%nat = Some (Containers.mkBlock 0 ts))
    by reflexivity.
  destruct (shuffle_permutes_the_trials
              Containers.counting_seed Containers.counting_randbelow
              0%nat _ false None w Hb)
    as (w' & ts' & Hrun & Hbl & Hperm & _).
  exists w', ts'. split; [exact Hrun|]. split; [exact Hbl | exact Hperm].
Defined.

(** X17.  [Block.shuffle] with [reset_index] on a block whose trials hold
    pairwise distinct dictionaries: afterwards the trial at position [i] has
    ['trial'] set to [i] and its other attributes as before, and no other
    dictionary is changed.  Without [reset_index] no dictionary is
    changed. *)
Theorem shuffle_renumbers_the_trials
    {G : Type} (seed_rng : Z → G) (randbelow : G → nat → nat * G)
    (blk : Containers.ref) (b : Containers.Block)
    (seed : option Z) (w : Containers.World G) :
  Containers.blocks w !! blk = Some b →
  NoDup (Containers.attrs <$> Containers.trials b) →
  ∃ w' b',
    Containers.shuffle seed_rng randbelow blk true seed w = Some w'
    ∧ Containers.blocks w' !! blk = Some b'
    ∧ (∀ i t, Containers.trials b' !! i = Some t →
              Containers.dicts w' !! Containers.attrs t
              = <["trial" := Containers.VInt (Z.of_nat i)]>
                  <$> Containers.dicts w !! Containers.attrs t)
    ∧ (∀ r, r ∉ Containers.attrs <$> Containers.trials b →
            Containers.dicts w' !! r = Containers.dicts w !! r)
    ∧ (∀ w'', Containers.shuffle seed_rng randbelow blk false seed w
              = Some w'' →
              Containers.dicts w'' = Containers.dicts w).
Proof.
  intros Hb Hnd. unfold Containers.shuffle. rewrite Hb.
  destruct (Containers.random_shuffle randbelow _ (Containers.trials b))
    as [ts g] eqn:E.
  assert (Hperm : ts ≡ₚ Containers.trials b).
  { change ts with (ts, g).1. rewrite <- E.
    apply (shuffle_loop_Permutation randbelow). }
  eexists _, _. split; [reflexivity|]. simpl.
  split; [apply lookup_insert_eq|]. simpl. split; [|split].
  - intros i t Ht. apply (reset_indices_at ts 0 _ i t); [|exact Ht].
    rewrite Hperm. exact Hnd.
  - intros r Hr. apply reset_indices_other. rewrite Hperm. exact Hr.
  - intros w'' [= <-]. reflexivity.
Qed.

(** A block of three trials with the dictionaries [{'trial': 0}],
    [{'trial': 1}], [{'trial': 2}], shuffled with seed 7: the trials come
    out in the order 2, 0, 1 and are renumbered 0, 1, 2. *)
Lemma shuffle_renumbers_the_trials_witness :
  let ts := [Containers.mkTrial 0%nat ∅; Containers.mkTrial 1%nat ∅;
             Containers.mkTrial 2%nat ∅] in
  let w := Containers.mkWorld
             ({[ 0%nat := {[ "trial" := Containers.VInt 0 ]};
                 1%nat := {[ "trial" := Containers.VInt 1 ]};
                 2%nat := {[ "trial" := Containers.VInt 2 ]} ]}
                : gmap nat (gmap string Containers.value))
             {[ 0%nat := Containers.mkBlock 0 ts ]} 5%nat in
  ∃ w' b',
    Containers.shuffle Containers.counting_seed Containers.counting_randbelow
      0%nat true (Some 7) w = Some w'
    ∧ Containers.blocks w' !! 0%nat = Some b'
    ∧ Containers.attrs <$> Containers.trials b' = [2%nat; 0%nat; 1%nat]
    ∧ Containers.dicts w' !! 2%nat
      = Some {[ "trial" := Containers.VInt 0 ]}.
Proof.
  intros ts w.
  assert (Hb : Containers.blocks w !! 0%nat = Some (Containers.mkBlock 0 ts))
    by reflexivity.
  assert (Hnd : NoDup (Containers.attrs
                         <$> Containers.trials (Containers.mkBlock 0 ts)))
    by exact (bool_decide_unpack (NoDup [0%nat; 1%nat; 2%nat]) I).
  destruct (shuffle_renumbers_the_trials
              Containers.counting_seed Containers.counting_randbelow
              0%nat _ (Some 7) w Hb Hnd)
    as (w' & b' & Hrun & Hbl & Hdict & _).
  exists w', b'. split; [exact Hrun|]. split; [exact Hbl|].
  vm_compute in Hrun. injection Hrun as <-.
  vm_compute in Hbl. injection Hbl as <-.
  split; reflexivity.
Defined.

(** ** [Keyboard], further *)

Section keyboard_further.

Import Py Daq Keyboard.

Lemma list_index_Ok key l i :
  list_index key l = Ok i ↔ l !! i = Some key ∧ ∀ j, (j < i)%nat → l !! j ≠ Some key.
Proof.
  unfold list_index.
  destruct (list_find (λ y, y = key) l) as [[i' y]|] eqn:E.
  - apply list_find_Some in E as (Hi & -> & Hbefore). split.
    + intros [= <-]. split; [exact Hi|].
      intros j Hj Hlj. exact (Hbefore j key Hlj Hj eq_refl).
    + intros [Hi2 Hfirst]. f_equal.
      destruct (Nat.lt_trichotomy i i') as [Hlt|[->|Hgt]]; [|reflexivity|].
      * exfalso. exact (Hbefore i key Hi2 Hlt eq_refl).
      * exfalso. exact (Hfirst i' Hgt Hi).
  - split; [discriminate|]. intros [Hi _]. exfalso.
    apply list_find_None in E. rewrite Forall_forall in E.
    apply (E key); [|reflexivity].
    apply list_elem_of_lookup. exists i. exact Hi.
Qed.

Lemma presses_KeyPress qkeys i key :
  presses qkeys i (KeyPress key) = true ↔ list_index key qkeys = Ok i.
Proof.
  simpl. destruct (list_index key qkeys) as [j|ex].
  - rewrite bool_decide_eq_true. split; congruence.
  - split; discriminate.
Qed.

Lemma eventFilter_sets kb e :
  length (_data kb) = length (_qkeys kb) →
  ∃ kb',
    eventFilter kb e = Ok (kb', watched (_qkeys kb) e)
    ∧ _qkeys kb' = _qkeys kb ∧ _sleeper kb' = _sleeper kb
    ∧ length (_data kb') = length (_qkeys kb)
    ∧ ∀ i, (i < length (_qkeys kb))%nat →
           _data kb' !! i
           = if presses (_qkeys kb) i e then Some 1 else _data kb !! i.
Proof.
  intros Hlen. destruct e as [key|]; simpl; [|exists kb; auto].
  destruct (decide (key ∈ _qkeys kb)) as [Hin|Hnin].
  - rewrite (bool_decide_eq_true_2 _ Hin).
    destruct (list_index key (_qkeys kb)) as [i0|ex] eqn:E.
    + pose proof (proj1 (list_index_Ok _ _ _) E) as [Hi0 _].
      apply lookup_lt_Some in Hi0. simpl.
      rewrite (proj2 (Nat.ltb_lt _ _)) by lia.
      eexists. split; [reflexivity|]. simpl.
      split; [reflexivity|]. split; [reflexivity|].
      split; [rewrite length_insert; exact Hlen|].
      intros i Hi. destruct (decide (i0 = i)) as [->|Hne].
      * rewrite bool_decide_eq_true_2 by reflexivity.
        apply list_lookup_insert_eq. lia.
      * rewrite bool_decide_eq_false_2 by congruence.
        apply list_lookup_insert_ne. exact Hne.
    + exfalso. unfold list_index in E.
      destruct (list_find (λ y, y = key) (_qkeys kb)) as [[? ?]|] eqn:E';
        [discriminate|].
      apply list_find_None in E'. rewrite Forall_forall in E'.
      exact (E' key Hin eq_refl).
  - rewrite (bool_decide_eq_false_2 _ Hnin). exists kb.
    split; [reflexivity|]. split; [reflexivity|]. split; [reflexivity|].
    split; [exact Hlen|]. intros i Hi.
    destruct (list_index key (_qkeys kb)) as [j|ex] eqn:E; [|reflexivity].
    exfalso. apply list_index_Ok in E as [Hk _].
    apply Hnin, list_elem_of_lookup. exists j. exact Hk.
Qed.

Lemma deliver_sets es : ∀ kb,
  length (_data kb) = length (_qkeys kb) →
  ∃ kb',
    deliver kb es = Ok (kb', watched (_qkeys kb) <$> es)
    ∧ _qkeys kb' = _qkeys kb ∧ _sleeper kb' = _sleeper kb
    ∧ length (_data kb') = length (_qkeys kb)
    ∧ ∀ i, (i < length (_qkeys kb))%nat →
           _data kb' !! i
           = if existsb (presses (_qkeys kb) i) es then Some 1
             else _data kb !! i.
Proof.
  induction es as [|e es IH]; intros kb Hlen; simpl.
  - exists kb. auto.
  - destruct (eventFilter_sets kb e Hlen) as (kb1 & -> & Hq1 & Hs1 & Hl1 & Hd1).
    simpl. rewrite <- Hq1 in Hl1.
    destruct (IH kb1 Hl1) as (kb' & -> & Hq & Hs & Hl & Hd). simpl.
    rewrite Hq1 in *. exists kb'. split; [reflexivity|].
    split; [exact Hq|]. split; [congruence|]. split; [exact Hl|].
    intros i Hi. rewrite (Hd i Hi), (Hd1 i Hi).
    destruct (presses (_qkeys kb) i e), (existsb _ es); reflexivity.
Qed.

End keyboard_further.

(** X18.  A keyboard whose flags are all 0 (as created, or as left by a
    read) gets events and is then read.  The filter consumes exactly the
    presses of watched keys.  The read returns one flag per key, each 0 or
    1; the flag at position [i] is 1 exactly when a key was pressed whose
    first position among the watched keys is [i] (so the flag of a second
    entry for the same key is never set); and it leaves all flags 0
    again.  (The read returns when its [sleep] does: the time to wait is
    one [time.sleep] can count, and not negative on the first read.) *)
Theorem read_reports_presses_since_last_read
    (kb : Keyboard.Keyboard) (es : list Keyboard.QEvent)
    (late : Daq.lateness) (w : Daq.World) :
  Keyboard._data kb = replicate (length (Keyboard._qkeys kb)) 0 →
  match Daq.last_read_time (Keyboard._sleeper kb) with
  | None => 0 ≤ Daq.read_time (Keyboard._sleeper kb) ≤ Daq.sleep_max
  | Some last =>
      Daq.sleep_min
      ≤ Daq.read_time (Keyboard._sleeper kb) - (Daq.clock w - last)
      ≤ Daq.sleep_max
  end →
  ∃ kb1 kb2 out w',
    Keyboard.deliver kb es
    = Py.Ok (kb1, Keyboard.watched (Keyboard._qkeys kb) <$> es)
    ∧ Keyboard.read kb1 late w = Some (kb2, out, w')
    ∧ length out = length (Keyboard._qkeys kb)
    ∧ (∀ i x, out !! i = Some x → x = 0 ∨ x = 1)
    ∧ (∀ i, out !! i = Some 1
            ↔ ∃ key, Keyboard.KeyPress key ∈ es
                     ∧ Keyboard.list_index key (Keyboard._qkeys kb) = Py.Ok i)
    ∧ Keyboard._data kb2 = replicate (length (Keyboard._qkeys kb)) 0
    ∧ Keyboard._qkeys kb2 = Keyboard._qkeys kb.
Proof.
  intros Hzero Hrt.
  assert (Hlen : length (Keyboard._data kb) = length (Keyboard._qkeys kb))
    by (rewrite Hzero; apply length_replicate).
  destruct (deliver_sets es kb Hlen) as (kb1 & Hrun & Hq & Hs & Hl & Hd).
  assert (Hflag : ∀ i x, Keyboard._data kb1 !! i = Some x → x = 0 ∨ x = 1).
  { intros i x Hx. pose proof (lookup_lt_Some _ _ _ Hx) as Hi.
    rewrite Hl in Hi. rewrite (Hd i Hi) in Hx.
    destruct (existsb _ es); [injection Hx as <-; right; reflexivity|].
    rewrite Hzero in Hx. apply lookup_replicate in Hx as [-> _].
    left. reflexivity. }
  assert (Hsleep : ∃ s w', Daq.sleep (Keyboard._sleeper kb1) late w
                           = Some (s, w')).
  { rewrite Hs.
    destruct (Daq.last_read_time (Keyboard._sleeper kb)) as [last|] eqn:Hlast.
    - destruct (sleep_again_returns _ late w last Hlast Hrt) as [[s w'] Hsl].
      exists s, w'. exact Hsl.
    - destruct (sleep_first_returns _ late w Hlast Hrt) as [[s w'] Hsl].
      exists s, w'. exact Hsl. }
  destruct Hsleep as (s & w' & Hsleep).
  eexists kb1, _, _, w'. split; [exact Hrun|].
  unfold Keyboard.read. rewrite Hsleep. split; [reflexivity|].
  split; [exact Hl|]. split; [exact Hflag|]. split; [|split].
  - intros i. split.
    + intros Hone. pose proof (lookup_lt_Some _ _ _ Hone) as Hi.
      rewrite Hl in Hi. rewrite (Hd i Hi) in Hone.
      destruct (existsb _ es) eqn:Hex.
      * apply existsb_exists in Hex as (e & Hin & Hp).
        destruct e as [key|]; [|discriminate Hp].
        exists key. split; [apply list_elem_of_In, Hin|].
        apply presses_KeyPress, Hp.
      * rewrite Hzero in Hone. apply lookup_replicate in Hone as [? _].
        discriminate.
    + intros (key & Hin & Hidx).
      pose proof (proj1 (list_index_Ok _ _ _) Hidx) as [Hk _].
      apply lookup_lt_Some in Hk. rewrite (Hd i Hk).
      replace (existsb _ es) with true; [reflexivity|].
      symmetry. apply existsb_exists. exists (Keyboard.KeyPress key).
      split; [apply list_elem_of_In, Hin|].
      apply presses_KeyPress, Hidx.
  - simpl. apply list_eq. intros i. rewrite list_lookup_fmap.
    destruct (decide (i < length (Keyboard._qkeys kb))%nat) as [Hi|Hi].
    + rewrite lookup_replicate_2 by exact Hi.
      destruct (lookup_lt_is_Some_2 (Keyboard._data kb1) i) as [x Hx];
        [rewrite Hl; exact Hi|].
      rewrite Hx. simpl. f_equal. lia.
    + rewrite (lookup_ge_None_2 (Keyboard._data kb1)) by (rewrite Hl; lia).
      symmetry. apply lookup_ge_None_2. rewrite length_replicate. lia.
  - simpl. exact Hq.
Qed.

(** The keys of codes 87, 65, 83, 87: the last entry repeats the first.
    Key 87 is pressed twice, key 68, not watched, once. *)
Lemma read_reports_presses_since_last_read_witness :
  let kb := Keyboard.Keyboard_init 100 [87; 65; 83; 87] in
  let es := [Keyboard.KeyPress 87; Keyboard.OtherEvent; Keyboard.KeyPress 68;
             Keyboard.KeyPress 87] in
  ∃ kb1 kb2 w',
    Keyboard.deliver kb es = Py.Ok (kb1, [true; false; false; true])
    ∧ Keyboard.read kb1 (Daq.mkLateness 0 0) (Daq.mkWorld 0 [])
      = Some (kb2, [1; 0; 0; 0], w')
    ∧ Keyboard._data kb2 = [0; 0; 0; 0].
Proof.
  intros kb es.
  destruct (read_reports_presses_since_last_read kb es
              (Daq.mkLateness 0 0) (Daq.mkWorld 0 []) eq_refl)
    as (kb1 & kb2 & out & w' & Hrun & Hread & _ & _ & _ & Hzero & _);
    [simpl; unfold Daq.sleep_max; lia|].
  exists kb1, kb2, w'. split; [exact Hrun|]. split; [|exact Hzero].
  vm_compute in Hrun. injection Hrun as <-.
  vm_compute in Hread. injection Hread as <- <- <-. reflexivity.
Defined.

(** ** [Array], further *)

Section array_further.

Import Py Numpy ArrayStack.

Context {A : Type} `{Zero A}.
Implicit Types (a c d : ndarray A) (dims : list nat).

Lemma atleast_1d_id a : (1 ≤ ndim a)%nat → atleast_1d a = a.
Proof.
  unfold atleast_1d, ndim. destruct (shape a); simpl; [lia | reflexivity].
Qed.

Lemma atleast_2d_id a : (2 ≤ ndim a)%nat → atleast_2d a = a.
Proof.
  unfold atleast_2d, ndim. destruct (shape a) as [|? [|? ?]]; simpl;
    (lia || reflexivity).
Qed.

Lemma atleast_3d_id a : (3 ≤ ndim a)%nat → atleast_3d a = a.
Proof.
  unfold atleast_3d, ndim. destruct (shape a) as [|? [|? [|? ?]]]; simpl;
    (lia || reflexivity).
Qed.

Lemma np_concatenate_pair ax dims d c n e :
  (ax < length dims)%nat →
  shape d = <[ax := n]> dims → shape c = <[ax := e]> dims →
  np_concatenate [d; c] ax = Ok (concatenate (shape d) ax [d; c]).
Proof.
  intros Hax Hd Hc. unfold np_concatenate, ndim. simpl.
  rewrite Hd, Hc, length_insert, !list_insert_insert_eq.
  rewrite (proj2 (Nat.ltb_lt _ _) Hax).
  rewrite !bool_decide_eq_true_2 by reflexivity. reflexivity.
Qed.

Lemma vstack_pair d c :
  (2 ≤ ndim d)%nat → (2 ≤ ndim c)%nat →
  vstack [d; c] = np_concatenate [d; c] 0.
Proof.
  intros Hd Hc. unfold vstack. cbn [fmap list_fmap].
  rewrite !atleast_2d_id by assumption. reflexivity.
Qed.

Lemma hstack_pair d c :
  (1 ≤ ndim d)%nat → (1 ≤ ndim c)%nat →
  hstack [d; c]
  = if (ndim d =? 1)%nat then np_concatenate [d; c] 0
    else np_concatenate [d; c] 1.
Proof.
  intros Hd Hc. unfold hstack. cbn [fmap list_fmap].
  rewrite !atleast_1d_id by assumption. reflexivity.
Qed.

Lemma dstack_pair d c :
  (3 ≤ ndim d)%nat → (3 ≤ ndim c)%nat →
  dstack [d; c] = np_concatenate [d; c] 2.
Proof.
  intros Hd Hc. unfold dstack. cbn [fmap list_fmap].
  rewrite !atleast_3d_id by assumption. reflexivity.
Qed.

Lemma stack_func_joins sa dims d c n e :
  (sa < 3)%nat → (least_axes sa ≤ length dims)%nat →
  shape d = <[joined_axis sa (length dims) := n]> dims →
  shape c = <[joined_axis sa (length dims) := e]> dims →
  (joined_axis sa (length dims) < length dims)%nat
  ∧ ∃ f, _stack_funcs (Z.of_nat sa) = Some f
         ∧ f [d; c]
           = Ok (concatenate (shape d) (joined_axis sa (length dims)) [d; c]).
Proof.
  intros Hsa Hleast Hd Hc.
  assert (Hnd : ndim d = length dims)
    by (unfold ndim; rewrite Hd; apply length_insert).
  assert (Hnc : ndim c = length dims)
    by (unfold ndim; rewrite Hc; apply length_insert).
  destruct sa as [|[|[|sa]]]; [| | |lia]; cbn [least_axes] in Hleast.
  - change (joined_axis 0 (length dims)) with 0%nat in *.
    split; [lia|]. exists vstack. split; [reflexivity|].
    rewrite vstack_pair by lia.
    apply (np_concatenate_pair 0 dims d c n e); [lia | exact Hd | exact Hc].
  - split; [destruct (length dims) as [|[|k]]; simpl; lia|].
    exists hstack. split; [reflexivity|].
    rewrite hstack_pair by lia. rewrite Hnd.
    destruct (length dims) as [|[|k]] eqn:Hlen; [lia| |];
      cbn [joined_axis Nat.eqb] in *.
    + apply (np_concatenate_pair 0 dims d c n e); [lia | exact Hd | exact Hc].
    + apply (np_concatenate_pair 1 dims d c n e); [lia | exact Hd | exact Hc].
  - change (joined_axis 2 (length dims)) with 2%nat in *.
    split; [lia|]. exists dstack. split; [reflexivity|].
    rewrite dstack_pair by lia.
    apply (np_concatenate_pair 2 dims d c n e); [lia | exact Hd | exact Hc].
Qed.

Lemma alter_sub_sub ax n e (idx : list nat) :
  alter (λ i, i - e)%nat ax (alter (λ i, i - n)%nat ax idx)
  = alter (λ i, i - (n + e))%nat ax idx.
Proof.
  rewrite list_alter_alter_eq. apply list_alter_ext; [|reflexivity].
  intros x _. simpl. lia.
Qed.

Lemma stack_all_joined sa dims ax cs : ∀ d n,
  (sa < 3)%nat → (least_axes sa ≤ length dims)%nat →
  ax = joined_axis sa (length dims) →
  shape d = <[ax := n]> dims →
  Forall (λ c, ∃ e, shape c = <[ax := e]> dims) cs →
  ∃ d',
    stack_all (mkArrayObject (Some d) (Z.of_nat sa)) cs
    = Stacked (mkArrayObject (Some d') (Z.of_nat sa))
    ∧ shape d' = <[ax := (n + sum_list_with (extent ax) cs)%nat]> dims
    ∧ ∀ idx i, idx !! ax = Some i →
               (i < n + sum_list_with (extent ax) cs)%nat →
               item d' idx = concat_item ax (d :: cs) idx.
Proof.
  induction cs as [|c cs IH]; intros d n Hsa Hleast Hax Hd Hcs.
  - exists d. split; [reflexivity|]. simpl. rewrite Nat.add_0_r.
    split; [exact Hd|]. intros idx i Hi Hlt.
    assert (Hlen : (ax < length dims)%nat).
    { subst ax. destruct sa as [|[|[|sa]]]; simpl in *;
        [| destruct (length dims) as [|[|k]]; simpl | |]; lia. }
    rewrite Hd, list_lookup_insert_eq, Hi by exact Hlen.
    rewrite (proj2 (Nat.ltb_lt _ _)) by lia. reflexivity.
  - apply Forall_cons in Hcs as [[e Hc] Hcs]. subst ax.
    destruct (stack_func_joins sa dims d c n e Hsa Hleast Hd Hc)
      as (Hlen & f & Hf & Hjoin).
    set (ax := joined_axis sa (length dims)) in *.
    assert (Hed : extent ax d = n)
      by (unfold extent; rewrite Hd, list_lookup_insert_eq by exact Hlen;
          reflexivity).
    assert (Hec : extent ax c = e)
      by (unfold extent; rewrite Hc, list_lookup_insert_eq by exact Hlen;
          reflexivity).
    set (d1 := concatenate (shape d) ax [d; c]) in *.
    assert (Hd1 : shape d1 = <[ax := (n + e)%nat]> dims).
    { unfold d1, concatenate. simpl.
      rewrite Hed, Hec, Nat.add_0_r, Hd, list_insert_insert_eq.
      reflexivity. }
    destruct (IH d1 (n + e)%nat Hsa Hleast eq_refl Hd1 Hcs)
      as (d' & Hrun & Hsh & Hitem).
    exists d'. split; [|split].
    + simpl. unfold stack. simpl. rewrite Hf, Hjoin. exact Hrun.
    + rewrite Hsh. simpl. rewrite Hec. f_equal. lia.
    + intros idx i Hi Hlt. simpl in Hlt. rewrite Hec in Hlt.
      rewrite (Hitem idx i Hi) by lia.
      change (concat_item ax (d1 :: cs) idx)
        with (match shape d1 !! ax, idx !! ax with
              | Some e', Some i' =>
                  if (i' <? e')%nat then item d1 idx
                  else concat_item ax cs (alter (λ i, i - e')%nat ax idx)
              | _, _ => zero
              end).
      change (concat_item ax (d :: c :: cs) idx)
        with (match shape d !! ax, idx !! ax with
              | Some e', Some i' =>
                  if (i' <? e')%nat then item d idx
                  else concat_item ax (c :: cs)
                         (alter (λ i, i - e')%nat ax idx)
              | _, _ => zero
              end).
      rewrite Hd1, Hd, !list_lookup_insert_eq, Hi by exact Hlen.
      destruct (i <? n)%nat eqn:En.
      * apply Nat.ltb_lt in En.
        rewrite (proj2 (Nat.ltb_lt _ _)) by lia.
        unfold d1. simpl.
        rewrite Hd, list_lookup_insert_eq, Hi by exact Hlen.
        rewrite (proj2 (Nat.ltb_lt _ _)) by lia. reflexivity.
      * apply Nat.ltb_ge in En. simpl.
        rewrite Hc, list_lookup_insert_eq by exact Hlen.
        rewrite list_lookup_alter_eq, Hi. simpl.
        destruct (i <? n + e)%nat eqn:Ee.
        -- apply Nat.ltb_lt in Ee.
           rewrite (proj2 (Nat.ltb_lt (i - n) e)) by lia.
           unfold d1. simpl.
           rewrite Hd, list_lookup_insert_eq by exact Hlen.
           rewrite (proj2 (Nat.ltb_ge _ _)) by lia.
           rewrite list_lookup_alter_eq, Hi. simpl.
           rewrite (proj2 (Nat.ltb_lt (i - n) e)) by lia. reflexivity.
        -- apply Nat.ltb_ge in Ee.
           rewrite (proj2 (Nat.ltb_ge (i - n) e)) by lia.
           rewrite alter_sub_sub. reflexivity.
Qed.

Lemma atleast_2d_idem a : atleast_2d (atleast_2d a) = atleast_2d a.
Proof.
  destruct (shape a) as [|n [|m sh]] eqn:E.
  - unfold atleast_2d. rewrite E. reflexivity.
  - unfold atleast_2d. rewrite E. reflexivity.
  - assert (Ha : atleast_2d a = a) by (unfold atleast_2d; rewrite E; reflexivity).
    rewrite !Ha. reflexivity.
Qed.

Lemma vstack_first_as_row c0 c :
  vstack [c0; c] = vstack [atleast_2d c0; c].
Proof.
  unfold vstack. cbn [fmap list_fmap]. rewrite atleast_2d_idem. reflexivity.
Qed.

Lemma stack_rows n cs : ∀ d m,
  shape d = [m; n] →
  Forall (λ c, shape c = [n]) cs →
  ∃ d',
    stack_all (mkArrayObject (Some d) 0) cs
    = Stacked (mkArrayObject (Some d') 0)
    ∧ shape d' = [(m + length cs)%nat; n]
    ∧ (∀ r rest, (r < m)%nat → item d' (r :: rest) = item d (r :: rest))
    ∧ (∀ k c rest, cs !! k = Some c →
                   item d' ((m + k)%nat :: rest) = item c rest).
Proof.
  induction cs as [|c cs IH]; intros d m Hd Hcs.
  - exists d. split; [reflexivity|]. simpl. rewrite Nat.add_0_r.
    split; [exact Hd|]. split; [reflexivity|].
    intros k c rest Hk. discriminate Hk.
  - apply Forall_cons in Hcs as [Hc Hcs].
    set (d1 := concatenate (shape d) 0 [d; atleast_2d c]).
    assert (Hstack : stack (mkArrayObject (Some d) 0) c
                     = Stacked (mkArrayObject (Some d1) 0)).
    { unfold stack. simpl. unfold vstack. cbn [fmap list_fmap].
      rewrite (atleast_2d_id d) by (unfold ndim; rewrite Hd; simpl; lia).
      rewrite (np_concatenate_pair 0 [m; n] d (atleast_2d c) m 1);
        [reflexivity | simpl; lia | exact Hd|].
      unfold atleast_2d. rewrite Hc. reflexivity. }
    assert (Hd1 : shape d1 = [(m + 1)%nat; n]).
    { unfold d1, concatenate, extent, atleast_2d. rewrite Hc, Hd. simpl.
      rewrite Hd. simpl. f_equal. }
    assert (Hitem1 : ∀ r rest,
              item d1 (r :: rest)
              = if (r <? m)%nat then item d (r :: rest)
                else if (r - m <? 1)%nat then item c rest else zero).
    { intros r rest. unfold d1, atleast_2d. rewrite Hc. simpl.
      rewrite Hd. simpl. reflexivity. }
    destruct (IH d1 (m + 1)%nat Hd1 Hcs) as (d' & Hrun & Hsh & Hold & Hnew).
    exists d'. split; [|split; [|split]].
    + simpl. rewrite Hstack. exact Hrun.
    + rewrite Hsh. simpl. f_equal. lia.
    + intros r rest Hr. rewrite Hold by lia. rewrite Hitem1.
      rewrite (proj2 (Nat.ltb_lt _ _)) by lia. reflexivity.
    + intros [|k] c' rest Hk; simpl in Hk.
      * injection Hk as <-. rewrite Hold by lia. rewrite Hitem1.
        rewrite (proj2 (Nat.ltb_ge _ _)) by lia.
        rewrite (proj2 (Nat.ltb_lt _ _)) by lia. reflexivity.
      * replace (m + S k)%nat with (m + 1 + k)%nat by lia.
        apply Hnew, Hk.
Qed.

End array_further.

(** X19.  [Array.stack] with [stack_axis] 0, 1 or 2, called with chunks
    that agree in every extent but the one along the axis the stacking
    function joins, and that have the axes that function needs (two for
    [vstack], one for [hstack], three for [dstack]): every call returns,
    and [data] is the concatenation of the chunks, in the order of the
    calls, along [stack_axis] -- for [stack_axis] 1 and chunks of one axis,
    along axis 0. *)
Theorem stack_concatenates_chunks
    {A : Type} `{Numpy.Zero A} (sa : nat) (dims : list nat)
    (c0 : Numpy.ndarray A) (cs : list (Numpy.ndarray A)) :
  (sa < 3)%nat →
  (ArrayStack.least_axes sa ≤ length dims)%nat →
  Forall (λ c, ∃ e, Numpy.shape c
                    = <[ArrayStack.joined_axis sa (length dims) := e]> dims)
         (c0 :: cs) →
  ∃ d,
    ArrayStack.stack_all (ArrayStack.Array_init None (Z.of_nat sa)) (c0 :: cs)
    = ArrayStack.Stacked (ArrayStack.mkArrayObject (Some d) (Z.of_nat sa))
    ∧ Numpy.array_equal d
        (Numpy.concatenate dims
           (ArrayStack.joined_axis sa (length dims)) (c0 :: cs)).
Proof.
  intros Hsa Hleast Hall. apply Forall_cons in Hall as [[e0 Hc0] Hcs].
  set (ax := ArrayStack.joined_axis sa (length dims)) in *.
  destruct (stack_all_joined sa dims ax cs c0 e0 Hsa Hleast eq_refl Hc0 Hcs)
    as (d & Hrun & Hsh & Hitem).
  assert (Hlen : (ax < length dims)%nat).
  { unfold ax. destruct sa as [|[|[|sa]]]; simpl in *;
      [| destruct (length dims) as [|[|k]]; simpl | |]; lia. }
  assert (He0 : Numpy.extent ax c0 = e0).
  { unfold Numpy.extent. rewrite Hc0, list_lookup_insert_eq by exact Hlen.
    reflexivity. }
  exists d. split; [exact Hrun|]. split.
  - rewrite Hsh. simpl. rewrite He0. reflexivity.
  - intros idx Hb. rewrite Hsh in Hb.
    destruct (in_bounds_lookup _ idx ax
                (e0 + sum_list_with (Numpy.extent ax) cs)%nat Hb)
      as (i & Hi & Hlt); [apply list_lookup_insert_eq, Hlen|].
    exact (Hitem idx i Hi Hlt).
Qed.

(** Chunks of shapes (2, 1) and (2, 2) under the default [stack_axis]. *)
Lemma stack_concatenates_chunks_witness :
  let c0 := Numpy.full [2%nat; 1%nat] 1 in
  let c1 := Numpy.full [2%nat; 2%nat] 7 in
  ∃ d,
    ArrayStack.stack_all (ArrayStack.Array_init None 1) [c0; c1]
    = ArrayStack.Stacked (ArrayStack.mkArrayObject (Some d) 1)
    ∧ Numpy.shape d = [2%nat; 3%nat]
    ∧ Numpy.item d [1%nat; 0%nat] = 1
    ∧ Numpy.item d [1%nat; 2%nat] = 7.
Proof.
  intros c0 c1.
  assert (Hall : Forall (λ c, ∃ e, Numpy.shape c
                   = <[ArrayStack.joined_axis 1 (length [2%nat; 0%nat]) := e]>
                       [2%nat; 0%nat]) [c0; c1]).
  { repeat constructor; eexists; reflexivity. }
  destruct (stack_concatenates_chunks 1 [2%nat; 0%nat] c0 [c1]
              ltac:(lia) ltac:(simpl; lia) Hall)
    as (d & Hrun & Hsh & Hitem).
  exists d. split; [exact Hrun|]. split; [exact Hsh|].
  rewrite Hsh in Hitem. split; apply Hitem; repeat constructor.
Defined.

(** X20.  [Array.stack] with [stack_axis] 0 and chunks of one axis, all of
    one length [n]: the first call stores the chunk as it is, of shape
    [(n,)]; from the second call on [data] has two axes, shape
    [(k, n)] after [k] calls, and its row [i] is the chunk of call [i]. *)
Theorem stack_axis_0_makes_rows
    {A : Type} `{Numpy.Zero A} (n : nat)
    (c0 c1 : Numpy.ndarray A) (cs : list (Numpy.ndarray A)) :
  Forall (λ c, Numpy.shape c = [n]) (c0 :: c1 :: cs) →
  ArrayStack.stack (ArrayStack.Array_init None 0) c0
  = ArrayStack.Stacked (ArrayStack.mkArrayObject (Some c0) 0)
  ∧ ∃ d,
      ArrayStack.stack_all (ArrayStack.Array_init None 0) (c0 :: c1 :: cs)
      = ArrayStack.Stacked (ArrayStack.mkArrayObject (Some d) 0)
      ∧ Numpy.shape d = [(2 + length cs)%nat; n]
      ∧ ∀ i c rest, (c0 :: c1 :: cs) !! i = Some c →
                    Numpy.item d (i :: rest) = Numpy.item c rest.
Proof.
  intros Hall. apply Forall_cons in Hall as [Hc0 Hall].
  split; [reflexivity|].
  assert (Hrow : Numpy.shape (ArrayStack.atleast_2d c0) = [1%nat; n])
    by (unfold ArrayStack.atleast_2d; rewrite Hc0; reflexivity).
  destruct (stack_rows n (c1 :: cs) (ArrayStack.atleast_2d c0) 1 Hrow Hall)
    as (d & Hrun & Hsh & Hold & Hnew).
  exists d. split; [|split].
  - simpl in Hrun |- *. unfold ArrayStack.stack in Hrun |- *.
    simpl in Hrun |- *. rewrite vstack_first_as_row. exact Hrun.
  - exact Hsh.
  - intros [|i] c rest Hi; simpl in Hi.
    + injection Hi as <-. rewrite Hold by lia.
      unfold ArrayStack.atleast_2d. rewrite Hc0. reflexivity.
    + exact (Hnew i c rest Hi).
Qed.

(** Three chunks of length 2. *)
Lemma stack_axis_0_makes_rows_witness :
  let c0 := Numpy.full [2%nat] 1 in
  let c1 := Numpy.full [2%nat] 2 in
  let c2 := Numpy.full [2%nat] 3 in
  ∃ d,
    ArrayStack.stack_all (ArrayStack.Array_init None 0) [c0; c1; c2]
    = ArrayStack.Stacked (ArrayStack.mkArrayObject (Some d) 0)
    ∧ Numpy.shape d = [3%nat; 2%nat]
    ∧ Numpy.item d [0%nat; 1%nat] = 1
    ∧ Numpy.item d [2%nat; 0%nat] = 3.
Proof.
  intros c0 c1 c2.
  assert (Hall : Forall (λ c, Numpy.shape c = [2%nat]) [c0; c1; c2])
    by (repeat constructor).
  destruct (stack_axis_0_makes_rows 2 c0 c1 [c2] Hall)
    as (_ & d & Hrun & Hsh & Hrows).
  exists d. split; [exact Hrun|]. split; [exact Hsh|].
  split; [exact (Hrows 0%nat c0 [1%nat] eq_refl)
         | exact (Hrows 2%nat c2 [0%nat] eq_refl)].
Defined.

(** X21.  An [Array] whose [stack_axis] is none of 0, 1 and 2 takes its
    first chunk as [data] like any other; every later call of [stack]
    raises [KeyError], whatever the chunk, so [data] stays the first
    chunk.  After [clear] the next chunk is taken again. *)
Theorem stack_on_other_axis_raises_after_first_chunk
    {A : Type} `{Numpy.Zero A} (axis : Z) (c0 : Numpy.ndarray A) :
  ¬ (0 ≤ axis ≤ 2) →
  ∃ self,
    ArrayStack.stack (ArrayStack.Array_init None axis) c0
    = ArrayStack.Stacked self
    ∧ ArrayStack.data self = Some c0
    ∧ (∀ c, ArrayStack.stack self c = ArrayStack.Raised ArrayStack.KeyError)
    ∧ (∀ c, ArrayStack.stack (ArrayStack.clear self) c
            = ArrayStack.Stacked
                (ArrayStack.mkArrayObject (Some c) axis)).
Proof.
  intros Haxis. eexists. split; [reflexivity|]. simpl.
  split; [reflexivity|]. split; [|reflexivity].
  intros c. unfold ArrayStack.stack, ArrayStack._stack_funcs. simpl.
  destruct (Z.eqb_spec axis 0) as [->|_]; [lia|].
  destruct (Z.eqb_spec axis 1) as [->|_]; [lia|].
  destruct (Z.eqb_spec axis 2) as [->|_]; [lia|].
  reflexivity.
Qed.

(** [stack_axis] -1, the last axis to numpy, is no key of the
    dictionary. *)
Lemma stack_on_other_axis_raises_after_first_chunk_witness :
  ∃ self,
    ArrayStack.stack (ArrayStack.Array_init None (-1))
      (Numpy.full [2%nat; 1%nat] 1)
    = ArrayStack.Stacked self
    ∧ ArrayStack.stack self (Numpy.full [2%nat; 1%nat] 1)
      = ArrayStack.Raised ArrayStack.KeyError.
Proof.
  destruct (stack_on_other_axis_raises_after_first_chunk
              (-1) (Numpy.full [2%nat; 1%nat] 1) ltac:(lia))
    as (self & Hfirst & _ & Hraise & _).
  exists self. split; [exact Hfirst | apply Hraise].
Defined.

(** ** [Array] and [BufferedArray] *)

Section trial_arrays.

Import Py Numpy Buffered ArrayStack.

Context {A B : Type} `{Zero A} `{Zero B} `{Cast A B}.

Lemma broadcastable_rev_refl sh : broadcastable_rev sh sh = true.
Proof.
  induction sh as [|s sh IH]; simpl; [reflexivity|].
  rewrite Nat.eqb_refl, orb_true_r. exact IH.
Qed.

Lemma sum_list_extents ax (chunks : list (ndarray A)) :
  sum_list (extent ax <$> chunks) = sum_list_with (extent ax) chunks.
Proof.
  induction chunks as [|c cs IH]; [reflexivity|].
  rewrite fmap_cons. cbn [sum_list_with]. rewrite IH. reflexivity.
Qed.

Lemma full_chunks_fit dims ax (chunks : list (ndarray A)) :
  (ax < length dims)%nat → (2 ≤ length dims)%nat →
  Forall (λ c, ∃ e, shape c = <[ax := e]> dims) chunks →
  Forall2 (fits (B:=B) dims (Z.of_nat ax) ax) chunks (extent ax <$> chunks)
  ∧ Forall2 (λ c e, shape c = <[ax := e]> dims) chunks (extent ax <$> chunks)
  ∧ sum_list (extent ax <$> chunks) = sum_list_with (extent ax) chunks.
Proof.
  intros Hax Hlen Hall. split; [|split; [|apply sum_list_extents]].
  - induction Hall as [|c cs [e Hc] _ IH]; [constructor|].
    assert (He : extent ax c = e)
      by (unfold extent; rewrite Hc, list_lookup_insert_eq by exact Hax;
          reflexivity).
    rewrite fmap_cons, He. constructor; [|exact IH]. split.
    + unfold new_sample, ndim. rewrite Hc, length_insert.
      rewrite (proj2 (Nat.ltb_lt _ _)) by lia.
      apply index_of_nat, list_lookup_insert_eq, Hax.
    + rewrite Hc. apply broadcastable_rev_refl.
  - induction Hall as [|c cs [e Hc] _ IH]; [constructor|].
    assert (He : extent ax c = e)
      by (unfold extent; rewrite Hc, list_lookup_insert_eq by exact Hax;
          reflexivity).
    rewrite fmap_cons, He. constructor; [exact Hc | exact IH].
Qed.

Lemma buffered_data_of_full_chunks dims ax cap (chunks : list (ndarray A)) :
  (ax ≤ 2)%nat → (index_entries ax ≤ length dims)%nat →
  dims !! ax = Some cap →
  Forall (λ c, ∃ e, shape c = <[ax := e]> dims) chunks →
  (sum_list_with (extent ax) chunks ≤ cap)%nat →
  ∃ self' self'',
    insert_all (BufferedArray_init dims (Z.of_nat ax)) chunks = Ok self'
    ∧ set_data self' = Ok self''
    ∧ shape (Buffered.data self'')
      = <[ax := sum_list_with (extent ax) chunks]> dims
    ∧ ∀ idx, in_bounds (<[ax := sum_list_with (extent ax) chunks]> dims) idx →
             item (Buffered.data self'') idx
             = concat_item ax (astype <$> chunks) idx.
Proof.
  intros Hle Hn Hcap Hall Hsum.
  assert (Hax : (ax < length dims)%nat) by (apply lookup_lt_Some in Hcap; exact Hcap).
  assert (Hlen : (2 ≤ length dims)%nat)
    by (destruct ax as [|[|[|ax]]]; simpl in Hn; lia).
  destruct (full_chunks_fit dims ax chunks Hax Hlen Hall)
    as (Hfits & Hshapes & Hes).
  set (es := extent ax <$> chunks) in *.
  set (self := BufferedArray_init (B:=B) dims (Z.of_nat ax)).
  destruct (insert_all_within chunks es self ax cap
              eq_refl Hle eq_refl Hn Hcap eq_refl Hfits)
    as (self' & Hrun & Hov & Hpos & Haxis & Hdims & Hsh & _ & Hit);
    [simpl; lia|].
  simpl in Hpos, Haxis, Hdims, Hsh, Hit.
  exists self'. eexists. split; [exact Hrun|].
  rewrite (set_data_axis self' ax Haxis Hle Hov).
  rewrite (getitem_slice_within _ _ _ _ _ cap);
    [ | unfold ndim; rewrite Hsh; exact Hn | rewrite Hsh; exact Hcap
      | lia | lia ].
  simpl. split; [reflexivity|]. rewrite Hsh, Hpos, Nat.sub_0_r, Hes.
  split; [reflexivity|].
  intros idx Hb. simpl. rewrite list_alter_id by (intros x; reflexivity).
  rewrite Hit.
  destruct (in_bounds_lookup _ idx ax (sum_list_with (extent ax) chunks) Hb)
    as (i & Hi & Hlt); [apply list_lookup_insert_eq, Hax|].
  rewrite Hi. simpl. rewrite Hes.
  rewrite (proj2 (Nat.ltb_lt _ _) Hlt).
  rewrite (list_alter_id (λ i, i - 0)%nat) by (intros x; lia).
  apply concat_item_stored; [exact Hax | exact Hshapes|].
  rewrite Hes. exact Hb.
Qed.

(** Converting the concatenation is concatenating the converted
    arrays. *)
Lemma concat_item_astype dims ax (chunks : list (ndarray A)) : ∀ idx i,
  (ax < length dims)%nat →
  Forall (λ c, ∃ e, shape c = <[ax := e]> dims) chunks →
  idx !! ax = Some i → (i < sum_list_with (extent ax) chunks)%nat →
  concat_item ax (astype <$> chunks) idx = cast (concat_item ax chunks idx).
Proof.
  induction chunks as [|c cs IH]; intros idx i Hax Hall Hi Hlt.
  - simpl in Hlt. lia.
  - apply Forall_cons in Hall as [[e Hc] Hall].
    assert (He : extent ax c = e)
      by (unfold extent; rewrite Hc, list_lookup_insert_eq by exact Hax;
          reflexivity).
    rewrite fmap_cons. cbn [sum_list_with] in Hlt. rewrite He in Hlt.
    cbn [concat_item]. cbn [astype shape item].
    rewrite Hc, list_lookup_insert_eq, Hi by exact Hax.
    destruct (i <? e)%nat eqn:E; [reflexivity|].
    apply Nat.ltb_ge in E.
    apply (IH _ (i - e)%nat); [exact Hax | exact Hall | | lia].
    rewrite list_lookup_alter_eq, Hi. reflexivity.
Qed.

End trial_arrays.

(** X22.  The two trial arrays agree up to the dtype.  Chunks that agree
    with the buffer in every extent but the one along the axis, and that
    fit the buffer together, are given, in the same order, to a new
    [BufferedArray] ([insert]) and to a new [Array] with the same axis
    ([stack]).  No call raises, and after [set_data] the [data] of the
    [BufferedArray] is the [data] of the [Array] converted to the
    [BufferedArray]'s dtype: the [Array] keeps the dtype of the chunks. *)
Theorem buffered_array_and_array_agree
    {A B : Type} `{Numpy.Zero A} `{Numpy.Zero B} `{Numpy.Cast A B}
    (dims : list nat) (ax cap : nat)
    (c0 : Numpy.ndarray A) (cs : list (Numpy.ndarray A)) :
  (ax ≤ 2)%nat →
  (Buffered.index_entries ax ≤ length dims)%nat →
  dims !! ax = Some cap →
  Forall (λ c, ∃ e, Numpy.shape c = <[ax := e]> dims) (c0 :: cs) →
  (sum_list_with (Numpy.extent ax) (c0 :: cs) ≤ cap)%nat →
  ∃ (self' self'' : Buffered.BufferedArray B) (d : Numpy.ndarray A),
    Buffered.insert_all (Buffered.BufferedArray_init dims (Z.of_nat ax))
      (c0 :: cs) = Py.Ok self'
    ∧ Buffered.set_data self' = Py.Ok self''
    ∧ ArrayStack.stack_all (ArrayStack.Array_init None (Z.of_nat ax))
        (c0 :: cs)
      = ArrayStack.Stacked (ArrayStack.mkArrayObject (Some d) (Z.of_nat ax))
    ∧ Numpy.array_equal (Buffered.data self'') (Numpy.astype d).
Proof.
  intros Hle Hn Hcap Hall Hsum.
  destruct (buffered_data_of_full_chunks dims ax cap (c0 :: cs)
              Hle Hn Hcap Hall Hsum)
    as (self' & self'' & Hrun & Hset & Hsh & Hitem).
  assert (Hj : ArrayStack.joined_axis ax (length dims) = ax).
  { destruct ax as [|[|[|ax]]]; try reflexivity.
    simpl in Hn. destruct (length dims) as [|[|k]]; [lia..|reflexivity]. }
  assert (Hleast : (ArrayStack.least_axes ax ≤ length dims)%nat)
    by (destruct ax as [|[|[|ax]]]; simpl in *; lia).
  pose proof Hall as Hall'.
  apply Forall_cons in Hall' as [[e0 Hc0] Hcs].
  destruct (stack_all_joined ax dims ax cs c0 e0
              ltac:(lia) Hleast (eq_sym Hj) Hc0 Hcs)
    as (d & Hstack & Hshd & Hitemd).
  assert (Hax : (ax < length dims)%nat)
    by (apply lookup_lt_Some in Hcap; exact Hcap).
  assert (He0 : Numpy.extent ax c0 = e0).
  { unfold Numpy.extent. rewrite Hc0, list_lookup_insert_eq by exact Hax.
    reflexivity. }
  exists self', self'', d. split; [exact Hrun|]. split; [exact Hset|].
  split; [exact Hstack|]. split.
  - rewrite Hsh. simpl. rewrite Hshd, He0. reflexivity.
  - intros idx Hb. rewrite Hsh in Hb. rewrite (Hitem idx Hb).
    destruct (in_bounds_lookup _ idx ax
                (sum_list_with (Numpy.extent ax) (c0 :: cs)) Hb)
      as (i & Hi & Hlt); [apply list_lookup_insert_eq, Hax|].
    rewrite (concat_item_astype dims ax (c0 :: cs) idx i Hax Hall Hi Hlt).
    simpl. f_equal. symmetry. apply (Hitemd idx i Hi).
    simpl in Hlt. rewrite He0 in Hlt. exact Hlt.
Qed.

(** A buffer of shape (2, 4) and the default dtype, filled along axis 1
    with chunks of integers of shapes (2, 1) and (2, 2), the first holding
    16777217: the [BufferedArray] has 16777216 there, which is what the
    value the [Array] has is as a float32. *)
Lemma buffered_array_and_array_agree_witness :
  let c0 := Numpy.full [2%nat; 1%nat] 16777217 in
  let c1 := Numpy.full [2%nat; 2%nat] 7 in
  ∃ self' self'' d,
    Buffered.insert_all (Buffered.BufferedArray_init [2%nat; 4%nat] 1)
      [c0; c1] = Py.Ok self'
    ∧ Buffered.set_data self' = Py.Ok self''
    ∧ ArrayStack.stack_all (ArrayStack.Array_init None 1) [c0; c1]
      = ArrayStack.Stacked (ArrayStack.mkArrayObject (Some d) 1)
    ∧ Numpy.array_equal (Buffered.data self'') (Numpy.astype d)
    ∧ Numpy.item d [0%nat; 0%nat] = 16777217
    ∧ Numpy.item (Buffered.data self'') [0%nat; 0%nat] = 16777216.
Proof.
  intros c0 c1.
  assert (Hall : Forall (λ c, ∃ e, Numpy.shape c = <[1%nat := e]> [2%nat; 4%nat])
                   [c0; c1])
    by (repeat constructor; eexists; reflexivity).
  destruct (buffered_array_and_array_agree (B:=Z) [2%nat; 4%nat] 1 4 c0 [c1]
              ltac:(lia) ltac:(simpl; lia) eq_refl Hall ltac:(simpl; lia))
    as (self' & self'' & d & Hrun & Hset & Hstack & Heq).
  exists self', self'', d. split; [exact Hrun|]. split; [exact Hset|].
  split; [exact Hstack|]. split; [exact Heq|].
  vm_compute in Hstack. injection Hstack as <-.
  vm_compute in Hrun. injection Hrun as <-.
  vm_compute in Hset. injection Hset as <-.
  split; reflexivity.
Defined.
